(** * FoodSense: the nutrition-analysis service (services/ai-service.ts)

    A shallow embedding of the service module: the response parser with its
    regex fallback, the error classifier, the two provider paths, the
    entry point [analyzeNutrition] and the debounce coordinator, followed by
    the properties the specification states about them.

    Conventions of the embedding.
    - A JavaScript string is the list of its UTF-16 code units ([jsstring]).
    - A JavaScript number is a binary64 value: a finite one is written as
      the rational it is exactly, and there are the two infinities and [NaN].
      A decimal literal, a JSON number and the digits [parseInt] reads denote
      the binary64 value nearest to them ([number_for]), so they are rounded
      from 2^53 on, overflow to an infinity and underflow to 0.  The two
      zeros are not told apart: no operation of the program does.
    - Values of type [any] (decoded JSON) are the inductive [value]; a number
      inside one is never [NaN], as JSON has no literal for it.
    - [throw] is the [Throw] node of the small program monad [Prog]; the one
      suspension point of the module, [await axios.post(...)], is its [Post]
      node. *)

From Stdlib Require Import List Bool Arith NArith ZArith QArith Qround Lia Lqa.
From Stdlib Require Import Ascii String.
From Stdlib Require Qcanon.
Import ListNotations.

Close Scope Q_scope.
Set Implicit Arguments.

(** ** JavaScript data *)

Module JS.

(** A string is a sequence of UTF-16 code units. *)
Definition jsstring := list N.

Definition ch (a : ascii) : N := N_of_ascii a.

(** A literal of the development read as a JavaScript string. *)
Definition js (s : string) : jsstring := map N_of_ascii (list_ascii_of_string s).

(** The same, with every apostrophe standing for a double quote (code unit
    34), to write JSON texts as literals. *)
Definition jsq (s : string) : jsstring :=
  map (fun c => if (c =? 39)%N then 34%N else c) (js s).

Fixpoint str_eqb (a b : jsstring) : bool :=
  match a, b with
  | [], [] => true
  | x :: a', y :: b' => (x =? y)%N && str_eqb a' b'
  | _, _ => false
  end.

(** A number: a finite binary64 value, as the rational it is; an infinity;
    NaN. *)
Inductive number :=
| Fin (q : Q)
| Inf (negative : bool)
| NaN.

(** [n / d] rounded to the nearest integer, a tie going to the even one
    ([0 <= n], [0 < d]). *)
Definition round_half_even (n d : Z) : Z :=
  let q := (n / d)%Z in
  let r := (n mod d)%Z in
  if (2 * r <? d)%Z then q
  else if (d <? 2 * r)%Z then (q + 1)%Z
  else if Z.even q then q else (q + 1)%Z.

(** The exponent of the last place of binary64 at a positive [n / d]: the
    [e] with [2^52 <= (n / d) / 2^e < 2^53], and -1074 below the normal
    range. *)
Definition binary64_exponent (n d : Z) : Z :=
  let k := (Z.log2 n - Z.log2 d)%Z in
  let above :=
    if (0 <=? k)%Z then (d * 2 ^ k <=? n)%Z else (d <=? n * 2 ^ (- k))%Z in
  Z.max ((if above then k else k - 1) - 52) (-1074).

(** The Number value for a rational: the binary64 value nearest to it, a
    tie going to the even significand, and an infinity from 2^1024 on.  It
    is what a numeric literal of the source, a JSON number and the digits
    read by [parseInt] evaluate to.  (For a literal of more than 20
    significant digits the language lets an engine round the digits after
    the 20th first; the engines in use do not, and neither does this.) *)
Definition number_for (q : Q) : number :=
  let n := Z.abs (Qnum q) in
  let d := Zpos (Qden q) in
  let neg := (Qnum q <? 0)%Z in
  if (n =? 0)%Z then Fin 0
  else
    let e := binary64_exponent n d in
    if (0 <=? e)%Z then
      let m := round_half_even n (d * 2 ^ e) in
      if (2 ^ 1024 <=? m * 2 ^ e)%Z then Inf neg
      else Fin (inject_Z (if neg then - (m * 2 ^ e) else m * 2 ^ e))
    else
      let m := round_half_even (n * 2 ^ (- e)) d in
      Fin (Qred (Qmake (if neg then - m else m) (Z.to_pos (2 ^ (- e))))).

(** ToBoolean of a number: 0 and NaN are falsy. *)
Definition truthy_number (x : number) : bool :=
  match x with
  | Fin q => negb (Qeq_bool q 0)
  | Inf _ => true
  | NaN => false
  end.

#[warnings="-register-all"]
Inductive value :=
| VUndefined
| VNull
| VBool (b : bool)
| VNum (x : number)
| VStr (s : jsstring)
| VArr (l : list value)
| VObj (o : list (jsstring * value)).

(** ToBoolean. *)
Definition truthy (v : value) : bool :=
  match v with
  | VUndefined | VNull => false
  | VBool b => b
  | VNum x => truthy_number x
  | VStr s => match s with [] => false | _ => true end
  | VArr _ | VObj _ => true
  end.

(** [a || b] *)
Definition or_else (a b : value) : value := if truthy a then a else b.

(** Own property of an object literal; JSON.parse keeps the last of
    several members with one name. *)
Fixpoint lookup (k : jsstring) (o : list (jsstring * value)) : option value :=
  match o with
  | [] => None
  | (k', v) :: o' =>
      match lookup k o' with
      | Some w => Some w
      | None => if str_eqb k k' then Some v else None
      end
  end.

(** [v.k] for a property name [k] that is neither an array index nor
    [length] (the names the service reads are [calories], [protein],
    [carbs], [fat], [explanation], [confidence], [sources]); [None] is the
    TypeError of reading a property of [null] or [undefined]. *)
Definition get (v : value) (k : jsstring) : option value :=
  match v with
  | VUndefined | VNull => None
  | VObj o => Some (match lookup k o with Some w => w | None => VUndefined end)
  | _ => Some VUndefined
  end.

(** [v.length] *)
Definition get_length (v : value) : option value :=
  match v with
  | VUndefined | VNull => None
  | VArr l => Some (VNum (Fin (inject_Z (Z.of_nat (List.length l)))))
  | VStr s => Some (VNum (Fin (inject_Z (Z.of_nat (List.length s)))))
  | VObj o => Some (match lookup (js "length") o with Some w => w | None => VUndefined end)
  | _ => Some VUndefined
  end.

(** [typeof v === 'number'] *)
Definition is_number (v : value) : option number :=
  match v with VNum x => Some x | _ => None end.

(** Math.round: the nearest integer, a tie going up; an infinity and NaN
    are returned as they are.  The nearest integer of a binary64 value is one
    too, so nothing is rounded after. *)
Definition Math_round (x : number) : number :=
  match x with
  | Fin q => Fin (inject_Z (Qfloor (q + (1 # 2))))
  | Inf b => Inf b
  | NaN => NaN
  end.

Definition is_digit (c : N) : bool := ((48 <=? c) && (c <=? 57))%N.

Definition digit_val (c : N) : Z := Z.of_N (c - 48).

(** WhiteSpace and LineTerminator code units: what [\s] matches and what
    [String.prototype.trim] and [parseInt] strip. *)
Definition is_space (c : N) : bool :=
  ((c =? 9) || (c =? 10) || (c =? 11) || (c =? 12) || (c =? 13) || (c =? 32)
   || (c =? 160) || (c =? 5760) || ((8192 <=? c) && (c <=? 8202))
   || (c =? 8232) || (c =? 8233) || (c =? 8239) || (c =? 8287)
   || (c =? 12288) || (c =? 65279))%N.

Fixpoint trim_start (s : jsstring) : jsstring :=
  match s with
  | c :: s' => if is_space c then trim_start s' else s
  | [] => []
  end.

Definition trim (s : jsstring) : jsstring :=
  rev (trim_start (rev (trim_start s))).

(** [s.substring(0, n)] *)
Definition substring0 (n : nat) (s : jsstring) : jsstring := firstn n s.

(** The value of a run of decimal digits read left to right. *)
Fixpoint digits_value (acc : Z) (s : jsstring) : Z :=
  match s with
  | c :: s' => if is_digit c then digits_value (10 * acc + digit_val c) s' else acc
  | [] => acc
  end.

(** [parseInt(s, 10)]: leading white space, an optional sign, then the
    longest run of digits, whose signed value is returned as a number; NaN
    when that run is empty. *)
Definition parseInt (s : jsstring) : number :=
  let s1 := trim_start s in
  let '(neg, s2) :=
    match s1 with
    | c :: r => if (c =? 45)%N then (true, r)
                else if (c =? 43)%N then (false, r) else (false, s1)
    | [] => (false, s1)
    end in
  match s2 with
  | c :: _ =>
      if is_digit c
      then number_for
             (inject_Z (if neg then - digits_value 0 s2 else digits_value 0 s2))
      else NaN
  | [] => NaN
  end.

End JS.
Import JS.

(** ** JSON.parse *)

Module Json.

Inductive res (A : Type) :=
| Ok (a : A)
| SyntaxError
| OutOfFuel.
Arguments SyntaxError {A}.
Arguments OutOfFuel {A}.

Definition is_ws (c : N) : bool :=
  ((c =? 32) || (c =? 9) || (c =? 10) || (c =? 13))%N.

Fixpoint skip_ws (s : jsstring) : jsstring :=
  match s with
  | c :: s' => if is_ws c then skip_ws s' else s
  | [] => []
  end.

Definition hex_val (c : N) : option N :=
  if is_digit c then Some (c - 48)%N
  else if ((97 <=? c) && (c <=? 102))%N then Some (c - 87)%N
  else if ((65 <=? c) && (c <=? 70))%N then Some (c - 55)%N
  else None.

Definition hex4 (a b c d : N) : option N :=
  match hex_val a, hex_val b, hex_val c, hex_val d with
  | Some x, Some y, Some z, Some w => Some (((x * 16 + y) * 16 + z) * 16 + w)%N
  | _, _, _, _ => None
  end.

(** The characters of a string literal after its opening quote, up to and
    including the closing quote. *)
Fixpoint string_body (s acc : jsstring) : option (jsstring * jsstring) :=
  match s with
  | [] => None
  | c :: r =>
      if (c =? 34)%N then Some (rev acc, r)
      else if (c =? 92)%N then
        match r with
        | e :: r1 =>
            if (e =? 34)%N then string_body r1 (34%N :: acc)
            else if (e =? 92)%N then string_body r1 (92%N :: acc)
            else if (e =? 47)%N then string_body r1 (47%N :: acc)
            else if (e =? ch "b")%N then string_body r1 (8%N :: acc)
            else if (e =? ch "f")%N then string_body r1 (12%N :: acc)
            else if (e =? ch "n")%N then string_body r1 (10%N :: acc)
            else if (e =? ch "r")%N then string_body r1 (13%N :: acc)
            else if (e =? ch "t")%N then string_body r1 (9%N :: acc)
            else if (e =? ch "u")%N then
              match r1 with
              | h1 :: h2 :: h3 :: h4 :: r2 =>
                  match hex4 h1 h2 h3 h4 with
                  | Some u => string_body r2 (u :: acc)
                  | None => None
                  end
              | _ => None
              end
            else None
        | [] => None
        end
      else if (c <? 32)%N then None
      else string_body r (c :: acc)
  end.

(** The longest prefix of digits and what follows it. *)
Fixpoint span_digits (s : jsstring) : jsstring * jsstring :=
  match s with
  | c :: s' =>
      if is_digit c then let '(d, r) := span_digits s' in (c :: d, r) else ([], s)
  | [] => ([], [])
  end.

(** [m * 10^e] *)
Definition scale10 (m e : Z) : Q :=
  if (0 <=? e)%Z then inject_Z (m * 10 ^ e)
  else Qred (Qmake m (Z.to_pos (10 ^ (- e)))).

(** An optional minus sign. *)
Definition opt_minus (s : jsstring) : bool * jsstring :=
  match s with
  | c :: r => if (c =? 45)%N then (true, r) else (false, s)
  | [] => (false, s)
  end.

(** An optional sign of an exponent. *)
Definition opt_sign (s : jsstring) : bool * jsstring :=
  match s with
  | c :: r => if (c =? 45)%N then (true, r)
              else if (c =? 43)%N then (false, r) else (false, s)
  | [] => (false, s)
  end.

(** The integer part: a single 0, or a digit run that does not start with
    0 (after a leading 0 the token ends). *)
Definition int_part (s : jsstring) : option (jsstring * jsstring) :=
  let '(ip, s1) := span_digits s in
  match ip with
  | [] => None
  | d :: ds => if (d =? 48)%N then Some ([d], ds ++ s1) else Some (ip, s1)
  end.

(** The optional fraction: a point and one digit or more. *)
Definition frac_part (s : jsstring) : option (jsstring * jsstring) :=
  match s with
  | c :: r =>
      if (c =? 46)%N then
        match span_digits r with
        | ([], _) => None
        | (fp, s2) => Some (fp, s2)
        end
      else Some ([], s)
  | [] => Some ([], s)
  end.

(** The optional exponent: e or E, an optional sign, one digit or more. *)
Definition exp_part (s : jsstring) : option (Z * jsstring) :=
  match s with
  | c :: r =>
      if ((c =? ch "e") || (c =? ch "E"))%N then
        let '(eneg, r1) := opt_sign r in
        match span_digits r1 with
        | ([], _) => None
        | (ep, s3) =>
            Some ((if eneg then - digits_value 0 ep else digits_value 0 ep)%Z, s3)
        end
      else Some (0%Z, s)
  | [] => Some (0%Z, s)
  end.

(** A number token and the number it denotes: the Number value for the
    rational the literal writes. *)
Definition number_token (s : jsstring) : option (number * jsstring) :=
  let '(neg, s0) := opt_minus s in
  match int_part s0 with
  | None => None
  | Some (ip, s1) =>
      match frac_part s1 with
      | None => None
      | Some (fp, s2) =>
          match exp_part s2 with
          | None => None
          | Some (e, s3) =>
              let m := digits_value 0 (ip ++ fp) in
              Some (number_for
                      (scale10 (if neg then - m else m)
                               (e - Z.of_nat (List.length fp))),
                    s3)
          end
      end
  end.

(** [s] starts with the word [w]; what follows it. *)
Fixpoint strip_prefix (w s : jsstring) : option jsstring :=
  match w, s with
  | [], _ => Some s
  | x :: w', y :: s' => if (x =? y)%N then strip_prefix w' s' else None
  | _ :: _, [] => None
  end.

Definition of_option {A} (o : option A) : res A :=
  match o with Some a => Ok a | None => SyntaxError end.

Fixpoint parse_value (fuel : nat) (s : jsstring) : res (value * jsstring) :=
  match fuel with
  | O => OutOfFuel
  | S f =>
      match skip_ws s with
      | [] => SyntaxError
      | c :: r =>
          if (c =? ch "{")%N then
            match skip_ws r with
            | c1 :: r1 =>
                if (c1 =? ch "}")%N then Ok (VObj [], r1) else parse_members f r []
            | [] => SyntaxError
            end
          else if (c =? ch "[")%N then
            match skip_ws r with
            | c1 :: r1 =>
                if (c1 =? ch "]")%N then Ok (VArr [], r1) else parse_elements f r []
            | [] => SyntaxError
            end
          else if (c =? 34)%N then
            match string_body r [] with
            | Some (str, r1) => Ok (VStr str, r1)
            | None => SyntaxError
            end
          else
            match strip_prefix (js "true") (c :: r) with
            | Some r1 => Ok (VBool true, r1)
            | None =>
            match strip_prefix (js "false") (c :: r) with
            | Some r1 => Ok (VBool false, r1)
            | None =>
            match strip_prefix (js "null") (c :: r) with
            | Some r1 => Ok (VNull, r1)
            | None =>
            match number_token (c :: r) with
            | Some (q, r1) => Ok (VNum q, r1)
            | None => SyntaxError
            end end end end
      end
  end
with parse_elements (fuel : nat) (s : jsstring) (acc : list value)
  : res (value * jsstring) :=
  match fuel with
  | O => OutOfFuel
  | S f =>
      match parse_value f s with
      | Ok (v, s1) =>
          match skip_ws s1 with
          | c :: s2 =>
              if (c =? ch ",")%N then parse_elements f s2 (v :: acc)
              else if (c =? ch "]")%N then Ok (VArr (rev (v :: acc)), s2)
              else SyntaxError
          | [] => SyntaxError
          end
      | SyntaxError => SyntaxError
      | OutOfFuel => OutOfFuel
      end
  end
with parse_members (fuel : nat) (s : jsstring) (acc : list (jsstring * value))
  : res (value * jsstring) :=
  match fuel with
  | O => OutOfFuel
  | S f =>
      match skip_ws s with
      | c :: r =>
          if (c =? 34)%N then
            match string_body r [] with
            | Some (k, r1) =>
                match skip_ws r1 with
                | c1 :: r2 =>
                    if (c1 =? ch ":")%N then
                      match parse_value f r2 with
                      | Ok (v, s1) =>
                          match skip_ws s1 with
                          | c2 :: s2 =>
                              if (c2 =? ch ",")%N then parse_members f s2 ((k, v) :: acc)
                              else if (c2 =? ch "}")%N
                                   then Ok (VObj (rev ((k, v) :: acc)), s2)
                                   else SyntaxError
                          | [] => SyntaxError
                          end
                      | SyntaxError => SyntaxError
                      | OutOfFuel => OutOfFuel
                      end
                    else SyntaxError
                | [] => SyntaxError
                end
            | None => SyntaxError
            end
          else SyntaxError
      | [] => SyntaxError
      end
  end.

(** Every call of the parser consumes a code unit or returns, so twice the
    length of the text bounds the depth of its calls. *)
Definition fuel_for (s : jsstring) : nat := 2 * List.length s + 1.

(** JSON.parse: one value between optional white space, nothing after;
    [None] is the SyntaxError it throws. *)
Definition JSON_parse (s : jsstring) : option value :=
  match parse_value (fuel_for s) s with
  | Ok (v, r) => match skip_ws r with [] => Some v | _ => None end
  | _ => None
  end.

End Json.
Import Json.

(** ** Regular expressions

    A backtracking matcher for the fragment of ECMAScript regular expressions
    the service uses: character classes, sequence, ordered alternation, the
    greedy quantifiers [?] on a group and [*] on a class, and one capturing
    group.  All four patterns carry the flag [i]. *)

Module Regex.

Inductive cls :=
| Digit            (* \d *)
| Space            (* \s *)
| Lit (c : N).     (* a literal character of the pattern *)

(** Canonicalize of a pattern without the flag [u]: a code unit is compared
    through its upper case.  The patterns hold ASCII letters only, and no
    code unit above 127 canonicalizes to an ASCII one, so only the ASCII
    letters need folding. *)
Definition canonicalize (c : N) : N :=
  if ((97 <=? c) && (c <=? 122))%N then (c - 32)%N else c.

Definition test (k : cls) (c : N) : bool :=
  match k with
  | Digit => is_digit c
  | Space => is_space c
  | Lit a => (canonicalize a =? canonicalize c)%N
  end.

Inductive regex :=
| Eps
| Chr (k : cls)
| Seq (a b : regex)
| Alt (a b : regex)       (* a|b, a tried first *)
| Opt (a : regex)         (* (?:a)? greedy *)
| Many (k : cls)          (* k* greedy *)
| Group (a : regex).      (* capturing group number 1 *)

Section Matcher.
Variable A : Type.

(** [k*] then the continuation: the longest run first, giving back one
    code unit at a time. *)
Fixpoint many (k : cls) (s : jsstring) (cont : jsstring -> option A) : option A :=
  match s with
  | c :: s' =>
      if test k c
      then match many k s' cont with
           | Some a => Some a
           | None => cont s
           end
      else cont s
  | [] => cont s
  end.

(** [run r s cap cont]: match [r] at the head of [s], [cap] being the
    text captured so far, and hand the rest to [cont]; [None] when every
    alternative fails. *)
Fixpoint run (r : regex) (s : jsstring) (cap : option jsstring)
    (cont : option jsstring -> jsstring -> option A) : option A :=
  match r with
  | Eps => cont cap s
  | Chr k =>
      match s with
      | c :: s' => if test k c then cont cap s' else None
      | [] => None
      end
  | Seq a b => run a s cap (fun cap1 s1 => run b s1 cap1 cont)
  | Alt a b =>
      match run a s cap cont with
      | Some x => Some x
      | None => run b s cap cont
      end
  | Opt a =>
      match run a s cap cont with
      | Some x => Some x
      | None => cont cap s
      end
  | Many k => many k s (cont cap)
  | Group a =>
      run a s cap
        (fun _ s1 => cont (Some (firstn (List.length s - List.length s1) s)) s1)
  end.
End Matcher.

(** The match at one position: the text of group 1 ([undefined] when the
    group took no part). *)
Definition match_here (r : regex) (s : jsstring) : option (option jsstring) :=
  run r s None (fun cap _ => Some cap).

(** [text.match(r)] for a pattern without the flag [g]: the leftmost match,
    or [None] for [null]. *)
Fixpoint exec (r : regex) (s : jsstring) : option (option jsstring) :=
  match match_here r s with
  | Some m => Some m
  | None =>
      match s with
      | _ :: s' => exec r s'
      | [] => None
      end
  end.

Fixpoint lits (w : jsstring) : regex :=
  match w with
  | [] => Eps
  | c :: w' => Seq (Chr (Lit c)) (lits w')
  end.

Definition word (w : string) : regex := lits (js w).

(** [(\d+)] *)
Definition digits1 : regex := Group (Seq (Chr Digit) (Many Digit)).

(** What a pattern matches, read off its syntax. *)
Inductive matches : regex -> jsstring -> Prop :=
| matches_eps : matches Eps []
| matches_chr k c : test k c = true -> matches (Chr k) [c]
| matches_seq a b x y : matches a x -> matches b y -> matches (Seq a b) (x ++ y)
| matches_alt_l a b x : matches a x -> matches (Alt a b) x
| matches_alt_r a b x : matches b x -> matches (Alt a b) x
| matches_opt a x : matches a x -> matches (Opt a) x
| matches_opt_none a : matches (Opt a) []
| matches_many k x : forallb (test k) x = true -> matches (Many k) x
| matches_group a x : matches a x -> matches (Group a) x.

(** The pattern has no capturing group. *)
Fixpoint groupless (r : regex) : Prop :=
  match r with
  | Eps | Chr _ | Many _ => True
  | Seq a b | Alt a b => groupless a /\ groupless b
  | Opt a => groupless a
  | Group _ => False
  end.

End Regex.
Import Regex.

(** ** config/env.ts *)

Module Env.

Inductive AIProvider := openrouter | perplexity.

Record ProviderSettings := {
  apiKey : jsstring;
  model : jsstring;
  baseURL : jsstring
}.

Record EnvConfig := {
  aiProvider : AIProvider;
  openRouter : ProviderSettings;
  perplexity_ : ProviderSettings;
  debugMode : bool
}.

Record ProviderConfig := {
  provider : AIProvider;
  pc_apiKey : jsstring;
  pc_model : jsstring;
  pc_baseURL : jsstring
}.

(** The configuration object; the two keys come from the process
    environment, with a placeholder when a variable is not set. *)
Definition config (OPENROUTER_API_KEY PERPLEXITY_API_KEY : option jsstring)
  : EnvConfig :=
  {| aiProvider := openrouter;
     openRouter :=
       {| apiKey := match OPENROUTER_API_KEY with
                    | Some (c :: k) => c :: k
                    | _ => js "YOUR_OPENROUTER_API_KEY"
                    end;
          model := js "google/gemini-2.0-flash-exp:free";
          baseURL := js "https://openrouter.ai/api/v1" |};
     perplexity_ :=
       {| apiKey := match PERPLEXITY_API_KEY with
                    | Some (c :: k) => c :: k
                    | _ => js "YOUR_PERPLEXITY_API_KEY"
                    end;
          model := js "llama-3.1-sonar-small-128k-online";
          baseURL := js "https://api.perplexity.ai" |};
     debugMode := true |}.

Definition getCurrentProviderConfig (config : EnvConfig) : ProviderConfig :=
  match aiProvider config with
  | openrouter =>
      {| provider := openrouter;
         pc_apiKey := apiKey (openRouter config);
         pc_model := model (openRouter config);
         pc_baseURL := baseURL (openRouter config) |}
  | perplexity =>
      {| provider := perplexity;
         pc_apiKey := apiKey (perplexity_ config);
         pc_model := model (perplexity_ config);
         pc_baseURL := baseURL (perplexity_ config) |}
  end.

End Env.
Import Env.

(** ** services/ai-service.ts *)

Module AiService.

(** *** Types *)

(** Modelled from the spec: the type [APIError] of the module [types], whose
    declaration is not among the sources (the AnalysisError of the data model:
    message, code, retryable).  It is what [createAPIError] builds. *)
Record APIError := {
  message : jsstring;
  code : string;
  retryable : bool
}.

(** Modelled from the spec: the type [AIAnalysisResult] of the module
    [types], whose declaration is not among the sources (the NutritionResult
    of the data model), with the fields the parser fills.  The four macro
    fields are numbers on every path; the other three are copied from decoded
    JSON on the strict path, so they are values of any shape. *)
Record AIAnalysisResult := {
  calories : number;
  protein : number;
  carbs : number;
  fat : number;
  explanation : value;
  confidence : value;
  sources : value
}.

(** What the classifier reads of an axios error. *)
Record AxiosError := {
  ax_code : option string;
  ax_response : option Z;     (* response.status, when a response came *)
  ax_message : jsstring
}.

(** A thrown value, by the tests the module applies to it. *)
Inductive thrown :=
| ThrownAxios (e : AxiosError)       (* axios.isAxiosError(error) *)
| ThrownError (msg : jsstring)       (* error instanceof Error, not from axios *)
| ThrownAPIError (e : APIError)      (* the plain object of createAPIError *)
| ThrownOther (v : value).           (* anything else *)

(** The body and the options of a chat-completions request. *)
Record Request := {
  url : jsstring;
  req_model : jsstring;
  system_message : jsstring;
  user_message : jsstring;
  response_format : option string;
  temperature : number;
  return_citations : bool;
  headers : list (string * jsstring);
  timeout : Z;
  signal : option nat         (* the AbortSignal of the options, if any *)
}.

(** The response envelope, [response.data], as the chat-completions schema
    has it: [content] is a string or null, [citations] an array when it is
    there. *)
Record Message := { content : option jsstring }.
Record Choice := { choice_message : option Message }.
Record ResponseData := {
  choices : option (list Choice);
  citations : option (list value)
}.

Inductive HttpReply :=
| Response (data : ResponseData)
| Failure (t : thrown).

(** *** Programs: return, throw, or await one HTTP POST *)

Inductive Prog (A : Type) :=
| Ret (a : A)
| Throw (t : thrown)
| Post (req : Request) (k : HttpReply -> Prog A).
Arguments Throw {A}.
Arguments Post {A}.

Fixpoint bind {A B} (p : Prog A) (f : A -> Prog B) : Prog B :=
  match p with
  | Ret a => f a
  | Throw t => Throw t
  | Post req k => Post req (fun r => bind (k r) f)
  end.

(** [try { p } catch (error) { h error }] *)
Fixpoint try_catch {A} (p : Prog A) (h : thrown -> Prog A) : Prog A :=
  match p with
  | Ret a => Ret a
  | Throw t => h t
  | Post req k => Post req (fun r => try_catch (k r) h)
  end.

(** [await axios.post(...)] *)
Definition axios_post (req : Request) : Prog ResponseData :=
  Post req (fun r => match r with
                     | Response d => Ret d
                     | Failure t => Throw t
                     end).

Notation "x <- p ;; q" := (bind p (fun x => q))
  (at level 61, p at next level, right associativity).

Notation "'do' x <- o ; q" :=
  (match o with Some x => q | None => None end)
  (at level 10, x name, o at level 100, q at level 200).

(** How a promise ends. *)
Inductive settled (A : Type) :=
| Resolved (a : A)
| Rejected (t : thrown).
Arguments Rejected {A}.

(** A program run against a network that answers each request by [http]:
    the requests sent, in order, and the outcome. *)
Fixpoint exec_prog {A} (http : Request -> HttpReply) (p : Prog A)
  : list Request * settled A :=
  match p with
  | Ret a => ([], Resolved a)
  | Throw t => ([], Rejected t)
  | Post req k =>
      let '(sent, out) := exec_prog http (k (http req)) in (req :: sent, out)
  end.

(** *** The module *)

Definition NUTRITION_PROMPT : jsstring := jsq
"You are a nutrition analysis assistant. When given a meal description, analyze and return the nutritional information in the following JSON format:

{
  'calories': <number>,
  'protein': <number in grams>,
  'carbs': <number in grams>,
  'fat': <number in grams>,
  'explanation': '<detailed explanation of how you calculated these values, including sources>',
  'confidence': <0-1 number indicating confidence>,
  'sources': ['<source1>', '<source2>']
}

Be as accurate as possible. If the description is vague, make reasonable assumptions and explain them in the explanation field. Consider standard portion sizes unless specified otherwise.".

Definition createAPIError (message : jsstring) (code : string) (retryable : bool)
  : APIError :=
  {| message := message; code := code; retryable := retryable |}.

Definition handleAPIError (error : thrown) : APIError :=
  match error with
  | ThrownAxios axiosError =>
      if match ax_code axiosError with
         | Some c => (c =? "ECONNABORTED")%string || (c =? "ETIMEDOUT")%string
         | None => false
         end
      then createAPIError (js "Request timed out. Please check your connection.")
                          "TIMEOUT" true
      else
        match ax_response axiosError with
        | None =>
            createAPIError (js "Network error. Please check your internet connection.")
                           "NETWORK_ERROR" true
        | Some status =>
            if (status =? 401)%Z then
              createAPIError (js "Invalid API key. Please check your configuration.")
                             "AUTH_ERROR" false
            else if (status =? 429)%Z then
              createAPIError (js "Rate limit exceeded. Please wait a moment.")
                             "RATE_LIMIT" true
            else if (status >=? 500)%Z then
              createAPIError (js "AI service is temporarily unavailable.")
                             "SERVER_ERROR" true
            else
              createAPIError (js "API error: " ++ ax_message axiosError)
                             "API_ERROR" true
        end
  | ThrownError msg => createAPIError msg "UNKNOWN_ERROR" false
  | ThrownAPIError _ | ThrownOther _ =>
      createAPIError (js "An unexpected error occurred") "UNKNOWN_ERROR" false
  end.

(** [\s*(?:cal|kcal|calories)] *)
Definition calorie_unit : regex :=
  Seq (Many Space) (Alt (word "cal") (Alt (word "kcal") (word "calories"))).

(** [/(\d+)\s*(?:cal|kcal|calories)/i] *)
Definition calorie_re : regex := Seq digits1 calorie_unit.

(** [\s*(?:g|grams?)?\s*(?:of\s+)?] followed by the name of the macro. *)
Definition macro_unit (name : string) : regex :=
  Seq (Many Space)
    (Seq (Opt (Alt (word "g") (Seq (word "gram") (Opt (Chr (Lit (ch "s")))))))
      (Seq (Many Space)
        (Seq (Opt (Seq (word "of") (Seq (Chr Space) (Many Space))))
             (word name)))).

(** [/(\d+)\s*(?:g|grams?)?\s*(?:of\s+)?name/i] *)
Definition macro_re (name : string) : regex := Seq digits1 (macro_unit name).

Definition protein_re : regex := macro_re "protein".
Definition carbs_re : regex := macro_re "carb".
Definition fat_re : regex := macro_re "fat".

(** [parseInt(m[1], 10)] *)
Definition parseInt_group (group1 : option jsstring) : number :=
  match group1 with
  | Some d => parseInt d
  | None => NaN
  end.

Definition extractNutritionFromText (text : jsstring) : Prog AIAnalysisResult :=
  let calorieMatch := exec calorie_re text in
  let proteinMatch := exec protein_re text in
  let carbsMatch := exec carbs_re text in
  let fatMatch := exec fat_re text in
  match calorieMatch with
  | None =>
      Throw (ThrownAPIError
               (createAPIError
                  (js "Could not extract calorie information from AI response")
                  "PARSE_ERROR" false))
  | Some c =>
      Ret {| calories := parseInt_group c;
             protein := match proteinMatch with
                        | Some m => parseInt_group m
                        | None => Fin 20
                        end;
             carbs := match carbsMatch with
                      | Some m => parseInt_group m
                      | None => Fin 30
                      end;
             fat := match fatMatch with
                    | Some m => parseInt_group m
                    | None => Fin 10
                    end;
             explanation := VStr (substring0 500 text);
             confidence := VNum (number_for 0.6);
             sources := VArr [] |}
  end.

(** The [try] block of [parseAIResponse]; [None] when it throws (the
    SyntaxError of JSON.parse, a TypeError on [null], or the Error of the
    validation). *)
Definition decode (content : jsstring) : option AIAnalysisResult :=
  do parsed <- JSON_parse content;
  do p_calories <- get parsed (js "calories");
  do p_protein <- get parsed (js "protein");
  do p_carbs <- get parsed (js "carbs");
  do p_fat <- get parsed (js "fat");
  match is_number p_calories, is_number p_protein,
        is_number p_carbs, is_number p_fat with
  | Some n_calories, Some n_protein, Some n_carbs, Some n_fat =>
      do p_explanation <- get parsed (js "explanation");
      do p_confidence <- get parsed (js "confidence");
      do p_sources <- get parsed (js "sources");
      Some {| calories := Math_round n_calories;
              protein := Math_round n_protein;
              carbs := Math_round n_carbs;
              fat := Math_round n_fat;
              explanation :=
                or_else p_explanation (VStr (js "No explanation provided"));
              confidence := or_else p_confidence (VNum (number_for 0.8));
              sources := or_else p_sources (VArr []) |}
  | _, _, _, _ => None
  end.

Definition parseAIResponse (content : jsstring) : Prog AIAnalysisResult :=
  match decode content with
  | Some result => Ret result
  | None => extractNutritionFromText content
  end.

(** [response.data.choices[0]?.message?.content]; the outer [None] is the
    TypeError of indexing a missing [choices]. *)
Definition first_content (data : ResponseData) : option (option jsstring) :=
  match choices data with
  | None => None
  | Some [] => Some None
  | Some (c :: _) =>
      Some (match choice_message c with
            | Some m => content m
            | None => None
            end)
  end.

Definition type_error : thrown :=
  ThrownError (js "Cannot read properties of undefined (reading '0')").

Definition empty_response : thrown :=
  ThrownAPIError (createAPIError (js "No response from AI") "EMPTY_RESPONSE" true).

Definition quoted (s : jsstring) : jsstring := 34%N :: s ++ [34%N].

Definition openrouter_request (mealText : jsstring) (providerConfig : ProviderConfig)
  : Request :=
  {| url := pc_baseURL providerConfig ++ js "/chat/completions";
     req_model := pc_model providerConfig;
     system_message := NUTRITION_PROMPT;
     user_message := js "Analyze the nutritional content of: " ++ quoted mealText;
     response_format := Some "json_object"%string;
     temperature := number_for 0.3;
     return_citations := false;
     headers := [("Authorization"%string, js "Bearer " ++ pc_apiKey providerConfig);
                 ("Content-Type"%string, js "application/json");
                 ("HTTP-Referer"%string, js "https://calorie-tracker-app.com");
                 ("X-Title"%string, js "Calorie Tracker")];
     timeout := 30000;
     signal := None |}.

Definition analyzeWithOpenRouter (mealText : jsstring) (providerConfig : ProviderConfig)
  : Prog AIAnalysisResult :=
  response <- axios_post (openrouter_request mealText providerConfig) ;;
  match first_content response with
  | None => Throw type_error
  | Some None | Some (Some []) => Throw empty_response
  | Some (Some content) => parseAIResponse content
  end.

Definition perplexity_request (mealText : jsstring) (providerConfig : ProviderConfig)
  : Request :=
  {| url := pc_baseURL providerConfig ++ js "/chat/completions";
     req_model := pc_model providerConfig;
     system_message := NUTRITION_PROMPT;
     user_message :=
       js "Analyze the nutritional content of: " ++ quoted mealText
       ++ js ". Search for accurate nutrition data from reliable sources.";
     response_format := None;
     temperature := number_for 0.3;
     return_citations := true;
     headers := [("Authorization"%string, js "Bearer " ++ pc_apiKey providerConfig);
                 ("Content-Type"%string, js "application/json")];
     timeout := 30000;
     signal := None |}.

(** [v.length === 0] for a truthy [v] *)
Definition length_is_zero (v : value) : bool :=
  match get_length v with
  | Some (VNum (Fin q)) => Qeq_bool q 0
  | _ => false
  end.

Definition set_sources (result : AIAnalysisResult) (s : value) : AIAnalysisResult :=
  {| calories := calories result; protein := protein result;
     carbs := carbs result; fat := fat result;
     explanation := explanation result; confidence := confidence result;
     sources := s |}.

Definition analyzeWithPerplexity (mealText : jsstring) (providerConfig : ProviderConfig)
  : Prog AIAnalysisResult :=
  response <- axios_post (perplexity_request mealText providerConfig) ;;
  match first_content response with
  | None => Throw type_error
  | Some None | Some (Some []) => Throw empty_response
  | Some (Some content) =>
      let citations := match citations response with Some l => l | None => [] end in
      result <- parseAIResponse content ;;
      if (0 <? List.length citations)%nat
         && (negb (truthy (sources result)) || length_is_zero (sources result))
      then Ret (set_sources result (VArr citations))
      else Ret result
  end.

Definition empty_input : thrown :=
  ThrownAPIError (createAPIError (js "Meal text cannot be empty") "EMPTY_INPUT" false).

(** The handler also logs the error when [debugMode] is set, which changes
    nothing of what is thrown. *)
Definition analyzeNutrition (config : EnvConfig) (mealText : jsstring)
  : Prog AIAnalysisResult :=
  if match mealText with [] => true | _ => false end
     || (List.length (trim mealText) =? 0)%nat
  then Throw empty_input
  else
    let providerConfig := getCurrentProviderConfig config in
    try_catch
      (match provider providerConfig with
       | openrouter => analyzeWithOpenRouter mealText providerConfig
       | perplexity => analyzeWithPerplexity mealText providerConfig
       end)
      (fun error => Throw (ThrownAPIError (handleAPIError error))).

End AiService.
Import AiService.

(** ** createDebouncedAnalyzer

    One analyzer instance together with the part of the runtime it touches:
    the armed timers, the requests in flight and the promises it handed out.
    Time is counted in milliseconds. *)

Module Debounce.

Inductive promise_state :=
| Pending
| Done (s : settled AIAnalysisResult).

(** An armed [setTimeout] callback: the closure of the arrow function over
    [mealText], [resolve] and [reject]. *)
Record Timer := {
  timer_id : nat;
  deadline : nat;
  timer_text : jsstring;
  timer_promise : nat
}.

(** A request awaiting its reply, with the rest of the suspended
    [analyzeNutrition] call and the promise its outcome settles. *)
Record Inflight := {
  sent : Request;
  waiter : nat;
  resume : HttpReply -> Prog AIAnalysisResult
}.

Record World := {
  now : nat;
  timers : list Timer;
  timers_made : nat;
  timeoutId : option nat;             (* let timeoutId *)
  currentController : option nat;     (* let currentController *)
  controllers_made : nat;
  aborted : list nat;                 (* controllers on which abort() ran *)
  inflight : list Inflight;
  promises : list promise_state;      (* one per call, in call order *)
  dispatched : list Request           (* every HTTP request sent *)
}.

Definition init : World :=
  {| now := 0; timers := []; timers_made := 0; timeoutId := None;
     currentController := None; controllers_made := 0; aborted := [];
     inflight := []; promises := []; dispatched := [] |}.

(** [resolve]/[reject] of promise [p]: a promise settles once. *)
Fixpoint settle (p : nat) (s : settled AIAnalysisResult) (ps : list promise_state)
  : list promise_state :=
  match ps, p with
  | [], _ => []
  | Pending :: ps', O => Done s :: ps'
  | x :: ps', O => x :: ps'
  | x :: ps', S p' => x :: settle p' s ps'
  end.

Definition clearTimeout (id : nat) (ts : list Timer) : list Timer :=
  filter (fun t => negb (timer_id t =? id)%nat) ts.

(** A call of the returned function. *)
Definition call (delayMs : nat) (mealText : jsstring) (w : World) : World :=
  let timers1 :=
    match timeoutId w with
    | Some id => clearTimeout id (timers w)
    | None => timers w
    end in
  let aborted1 :=
    match currentController w with
    | Some c => c :: aborted w
    | None => aborted w
    end in
  let id := S (timers_made w) in
  let p := List.length (promises w) in
  {| now := now w;
     timers := timers1 ++ [{| timer_id := id; deadline := now w + delayMs;
                              timer_text := mealText; timer_promise := p |}];
     timers_made := id;
     timeoutId := Some id;
     currentController := currentController w;
     controllers_made := controllers_made w;
     aborted := aborted1;
     inflight := inflight w;
     promises := promises w ++ [Pending];
     dispatched := dispatched w |}.

(** Run a program on behalf of promise [p] up to its next suspension. *)
Definition drive (p : nat) (prog : Prog AIAnalysisResult) (w : World) : World :=
  match prog with
  | Ret r =>
      {| now := now w; timers := timers w; timers_made := timers_made w;
         timeoutId := timeoutId w; currentController := currentController w;
         controllers_made := controllers_made w; aborted := aborted w;
         inflight := inflight w;
         promises := settle p (Resolved r) (promises w);
         dispatched := dispatched w |}
  | Throw t =>
      {| now := now w; timers := timers w; timers_made := timers_made w;
         timeoutId := timeoutId w; currentController := currentController w;
         controllers_made := controllers_made w; aborted := aborted w;
         inflight := inflight w;
         promises := settle p (Rejected t) (promises w);
         dispatched := dispatched w |}
  | Post req k =>
      {| now := now w; timers := timers w; timers_made := timers_made w;
         timeoutId := timeoutId w; currentController := currentController w;
         controllers_made := controllers_made w; aborted := aborted w;
         inflight := inflight w ++ [{| sent := req; waiter := p; resume := k |}];
         promises := promises w;
         dispatched := dispatched w ++ [req] |}
  end.

(** The timer callback. *)
Definition fire (config : EnvConfig) (w : World) (t : Timer) : World :=
  let c := S (controllers_made w) in
  let w1 :=
    {| now := now w; timers := timers w; timers_made := timers_made w;
       timeoutId := timeoutId w; currentController := Some c;
       controllers_made := c; aborted := aborted w;
       inflight := inflight w; promises := promises w;
       dispatched := dispatched w |} in
  drive (timer_promise t) (analyzeNutrition config (timer_text t)) w1.

(** One millisecond passes; the timers that are due run, oldest first. *)
Definition tick (config : EnvConfig) (w : World) : World :=
  let t := S (now w) in
  let due := filter (fun x => (deadline x <=? t)%nat) (timers w) in
  let rest := filter (fun x => negb (deadline x <=? t)%nat) (timers w) in
  fold_left (fire config)
    due
    {| now := t; timers := rest; timers_made := timers_made w;
       timeoutId := timeoutId w; currentController := currentController w;
       controllers_made := controllers_made w; aborted := aborted w;
       inflight := inflight w; promises := promises w;
       dispatched := dispatched w |}.

Fixpoint remove_nth {A} (i : nat) (l : list A) : list A :=
  match l, i with
  | [], _ => []
  | _ :: l', O => l'
  | x :: l', S i' => x :: remove_nth i' l'
  end.

(** The reply to the [i]-th request in flight arrives. *)
Definition reply (i : nat) (r : HttpReply) (w : World) : World :=
  match nth_error (inflight w) i with
  | None => w
  | Some f =>
      drive (waiter f) (resume f r)
        {| now := now w; timers := timers w; timers_made := timers_made w;
           timeoutId := timeoutId w; currentController := currentController w;
           controllers_made := controllers_made w; aborted := aborted w;
           inflight := remove_nth i (inflight w);
           promises := promises w; dispatched := dispatched w |}
  end.

Inductive event :=
| Call (mealText : jsstring)
| Wait (ms : nat)
| Reply (i : nat) (r : HttpReply).

Definition step (config : EnvConfig) (delayMs : nat) (w : World) (e : event) : World :=
  match e with
  | Call mealText => call delayMs mealText w
  | Wait ms => Nat.iter ms (tick config) w
  | Reply i r => reply i r w
  end.

Definition run_events (config : EnvConfig) (delayMs : nat) (es : list event) (w : World)
  : World :=
  fold_left (step config delayMs) es w.

Definition promise (w : World) (p : nat) : option promise_state :=
  nth_error (promises w) p.

End Debounce.
Import Debounce.

(** ** Vocabulary of the specification *)

Module Spec.

(** Empty or made of white space only. *)
Definition blank (mealText : jsstring) : bool := forallb is_space mealText.

(** The ten error kinds of the taxonomy. *)
Definition error_kinds : list string :=
  ["TIMEOUT"; "NETWORK_ERROR"; "AUTH_ERROR"; "RATE_LIMIT"; "SERVER_ERROR";
   "API_ERROR"; "EMPTY_RESPONSE"; "EMPTY_INPUT"; "PARSE_ERROR";
   "UNKNOWN_ERROR"]%string.

(** The kinds the classifier itself can answer. *)
Definition classifier_kinds : list string :=
  ["TIMEOUT"; "NETWORK_ERROR"; "AUTH_ERROR"; "RATE_LIMIT"; "SERVER_ERROR";
   "API_ERROR"; "UNKNOWN_ERROR"]%string.

(** The column [retryable] of the taxonomy. *)
Definition kind_retryable (kind : string) : bool :=
  if (kind =? "AUTH_ERROR")%string then false
  else if (kind =? "EMPTY_INPUT")%string then false
  else if (kind =? "PARSE_ERROR")%string then false
  else if (kind =? "UNKNOWN_ERROR")%string then false
  else true.

(** The error has this code and this flag. *)
Definition is_error (e : APIError) (kind : string) (retry : bool) : Prop :=
  code e = kind /\ retryable e = retry.

(** The code of the axios error says the connection was aborted or timed
    out. *)
Definition timed_out (e : AxiosError) : bool :=
  match ax_code e with
  | Some c => (c =? "ECONNABORTED")%string || (c =? "ETIMEDOUT")%string
  | None => false
  end.

(** A non-negative integer. *)
Definition nonneg_integer (n : number) : Prop :=
  exists z : Z, (0 <= z)%Z /\ n = Fin (inject_Z z).

Definition integer (n : number) : Prop :=
  exists z : Z, n = Fin (inject_Z z).

(** An integer or an infinity: what Math.round gives for a number that is
    not NaN. *)
Definition integer_or_infinite (n : number) : Prop :=
  integer n \/ exists b : bool, n = Inf b.

(** A non-negative integer or the positive infinity: what [parseInt] gives
    for a run of digits. *)
Definition natural_or_infinite (n : number) : Prop :=
  nonneg_integer n \/ n = Inf false.

(** The decoded value is not NaN and, when it is an object, has no member
    that is. *)
Definition nan_free (v : value) : Prop :=
  match v with
  | VNum x => x <> NaN
  | VObj o => Forall (fun m => snd m <> VNum NaN) o
  | _ => True
  end.

(** [n] is [q] rounded to the nearest integer, a tie going up. *)
Definition rounds_to (q : Q) (n : number) : Prop :=
  exists z : Z, n = Fin (inject_Z z)
                /\ (inject_Z z - (1 # 2) <= q)%Q /\ (q < inject_Z z + (1 # 2))%Q.

(** [n] is the number [x] rounded by Math.round: the nearest integer, a
    tie going up, when [x] is finite, and [x] itself when it is an
    infinity. *)
Definition rounded (x n : number) : Prop :=
  match x with
  | Fin q => rounds_to q n
  | Inf b => n = Inf b
  | NaN => False
  end.

(** A number of the interval [0,1]. *)
Definition unit_interval (v : value) : Prop :=
  exists q : Q, v = VNum (Fin q) /\ (0 <= q)%Q /\ (q <= 1)%Q.

(** The text of a capturing group that took part in the match and holds
    one decimal digit or more. *)
Definition digit_run (group1 : option jsstring) : Prop :=
  exists c d, group1 = Some (c :: d) /\ forallb is_digit (c :: d) = true.

(** The [try] block of the parser fails: the text is not JSON, or one of
    the four macro members of the decoded value is not a number (which
    covers a missing member, and a decoded value that is no object). *)
Definition strict_decoding_fails (content : jsstring) : Prop :=
  JSON_parse content = None
  \/ exists parsed k,
       JSON_parse content = Some parsed
       /\ In k [js "calories"; js "protein"; js "carbs"; js "fat"]
       /\ forall x, get parsed k <> Some (VNum x).

(** The member is missing from the decoded object. *)
Definition absent (parsed : value) (k : jsstring) : Prop :=
  get parsed k = Some VUndefined.

(** The JSON text and the regex text of the two worked examples. *)
Definition example_json : jsstring := jsq
  "{'calories':452.6,'protein':23.1,'carbs':33,'fat':25,'confidence':0.9,'sources':['USDA']}".

Definition example_text : jsstring :=
  js "This meal has about 450 kcal and 20g protein".

(** What the claim C1 promises of a result, and of an outcome. *)
Definition claimed_result (r : AIAnalysisResult) : Prop :=
  nonneg_integer (calories r) /\ nonneg_integer (protein r)
  /\ nonneg_integer (carbs r) /\ nonneg_integer (fat r)
  /\ unit_interval (confidence r).

Definition claimed_outcome (out : settled AIAnalysisResult) : Prop :=
  (exists r, out = Resolved r /\ claimed_result r)
  \/ (exists e, out = Rejected (ThrownAPIError e) /\ In (code e) error_kinds).

(** The two results agree on the macro fields, the confidence and the
    explanation. *)
Definition same_figures (r r0 : AIAnalysisResult) : Prop :=
  calories r = calories r0 /\ protein r = protein r0 /\ carbs r = carbs r0
  /\ fat r = fat r0 /\ confidence r = confidence r0
  /\ explanation r = explanation r0.

(** A result with the figures of the regex fallback on [content]: the
    calories are what [parseInt] makes of the group the calorie pattern
    captured, each other figure is what it makes of the group of its own
    pattern, or the default; each is a non-negative integer or the positive
    infinity, and the confidence is 0.6. *)
Definition fallback_result (content : jsstring) (r : AIAnalysisResult) : Prop :=
  natural_or_infinite (calories r) /\ natural_or_infinite (protein r)
  /\ natural_or_infinite (carbs r) /\ natural_or_infinite (fat r)
  /\ confidence r = VNum (number_for 0.6)
  /\ exists g,
       exec calorie_re content = Some g
       /\ calories r = parseInt_group g
       /\ protein r = match exec protein_re content with
                      | Some m => parseInt_group m
                      | None => Fin 20
                      end
       /\ carbs r = match exec carbs_re content with
                    | Some m => parseInt_group m
                    | None => Fin 30
                    end
       /\ fat r = match exec fat_re content with
                  | Some m => parseInt_group m
                  | None => Fin 10
                  end.

(** A result with the figures of the strict decoding of [content]: each
    macro field is a decoded number rounded, the confidence is the decoded
    member when that is truthy and 0.8 otherwise. *)
Definition strict_result (content : jsstring) (r : AIAnalysisResult) : Prop :=
  exists parsed qc qp qb qf vc,
    JSON_parse content = Some parsed
    /\ get parsed (js "calories") = Some (VNum qc)
    /\ get parsed (js "protein") = Some (VNum qp)
    /\ get parsed (js "carbs") = Some (VNum qb)
    /\ get parsed (js "fat") = Some (VNum qf)
    /\ get parsed (js "confidence") = Some vc
    /\ calories r = Math_round qc /\ protein r = Math_round qp
    /\ carbs r = Math_round qb /\ fat r = Math_round qf
    /\ confidence r = or_else vc (VNum (number_for 0.8)).

(** What the code guarantees of the result it makes of the text [content]
    of a reply: the figures of the strict decoding when that succeeds, those
    of the regex fallback when it fails. *)
Definition actual_result (content : jsstring) (r : AIAnalysisResult) : Prop :=
  integer_or_infinite (calories r) /\ integer_or_infinite (protein r)
  /\ integer_or_infinite (carbs r) /\ integer_or_infinite (fat r)
  /\ ((strict_decoding_fails content /\ fallback_result content r)
      \/ strict_result content r).

(** What the code guarantees of the outcome of a call whose request was
    answered by [reply]. *)
Definition actual_outcome (reply : HttpReply) (out : settled AIAnalysisResult) : Prop :=
  (exists data content r,
      reply = Response data /\ first_content data = Some (Some content)
      /\ content <> []
      /\ out = Resolved r /\ actual_result content r)
  \/ (exists e, out = Rejected (ThrownAPIError e)
                /\ In (code e) classifier_kinds /\ In (code e) error_kinds).

(** A text whose calorie figure is a run of 309 digits, and a JSON text
    whose calorie figure overflows binary64. *)
Definition long_run_text : jsstring := repeat (ch "9") 309 ++ js " kcal".

(** A text whose calorie figure is 2^53 + 1, which is no binary64 value. *)
Definition unsafe_run_text : jsstring := js "9007199254740993 kcal".

Definition overflow_json : jsstring := jsq
  "{'calories':1e400,'protein':1,'carbs':2,'fat':3}".

(** A JSON text whose calorie literal is nearer to the binary64 value 2.5
    than to any other, and whose confidence literal underflows to 0. *)
Definition rounding_json : jsstring := jsq
  "{'calories':2.4999999999999999999,'protein':1,'carbs':2,'fat':3,'confidence':1e-400}".

(** A JSON text with a negative calorie figure and a confidence of 5. *)
Definition negative_json : jsstring := jsq
  "{'calories':-5,'protein':1,'carbs':2,'fat':3,'confidence':5}".

(** The request [analyzeNutrition] sends for a meal text. *)
Definition request_for (config : EnvConfig) (mealText : jsstring) : Request :=
  let providerConfig := getCurrentProviderConfig config in
  match provider providerConfig with
  | openrouter => openrouter_request mealText providerConfig
  | perplexity => perplexity_request mealText providerConfig
  end.

(** The error every unclassified thrown value is turned into. *)
Definition unknown_error : APIError :=
  createAPIError (js "An unexpected error occurred") "UNKNOWN_ERROR" false.

(** The envelope of a successful completion whose assistant text is [c]. *)
Definition completion (c : jsstring) (cites : option (list value)) : ResponseData :=
  {| choices := Some [ {| choice_message := Some {| content := Some c |} |} ];
     citations := cites |}.

(** *** Bursts of calls *)

(** The calls that follow the first one of a burst, each after a pause. *)
Fixpoint burst_events (rest : list (nat * jsstring)) : list event :=
  match rest with
  | [] => []
  | (gap, mealText) :: rest' => Wait gap :: Call mealText :: burst_events rest'
  end.

Definition burst (first : jsstring) (rest : list (nat * jsstring)) : list event :=
  Call first :: burst_events rest.

(** The meal text of the last call of the burst. *)
Definition last_text (first : jsstring) (rest : list (nat * jsstring)) : jsstring :=
  last (map snd rest) first.

(** Each call comes before the timer of the call before it runs out. *)
Definition within_window (delayMs : nat) (rest : list (nat * jsstring)) : Prop :=
  Forall (fun p => fst p < delayMs) rest.

(** Events among which the analyzer is not called again. *)
Definition quiet (es : list event) : Prop :=
  Forall (fun e => match e with Call _ => False | _ => True end) es.

(** The time the events take. *)
Fixpoint waited (es : list event) : nat :=
  match es with
  | [] => 0
  | Wait ms :: es' => ms + waited es'
  | _ :: es' => waited es'
  end.

(** The continuation returns or throws; it does not send again. *)
Definition final_step (k : HttpReply -> Prog AIAnalysisResult) : Prop :=
  forall reply, (exists r, k reply = Ret r) \/ (exists t, k reply = Throw t).

(** Requests sent on behalf of earlier calls (promises below [n0]) and not
    answered yet. *)
Definition old_inflight (n0 : nat) (fs : list Inflight) : Prop :=
  Forall (fun f => waiter f < n0 /\ final_step (resume f)) fs.

(** What holds of every state an instance can reach: an armed timer and a
    request in flight belong to a promise that was handed out. *)
Definition well_formed (w : World) : Prop :=
  Forall (fun t => timer_promise t < List.length (promises w)) (timers w)
  /\ old_inflight (List.length (promises w)) (inflight w).

(** The state of the analyzer between the last call of a burst, made at
    time [t0] and holding promise number [n], and the end of that call: the
    timer is armed, or the request is in flight, or the call is over.
    [sent0] is what had been sent before the burst, [n0] the number of
    promises handed out before it. *)
Definition timer_armed (delayMs : nat) (sent0 : list Request) (n0 n : nat)
           (text : jsstring) (t0 : nat) (w : World) : Prop :=
  (exists id,
      timers w = [{| timer_id := id; deadline := t0 + delayMs;
                     timer_text := text; timer_promise := n |}]
      /\ timeoutId w = Some id)
  /\ old_inflight n0 (inflight w) /\ dispatched w = sent0
  /\ nth_error (promises w) n = Some Pending
  /\ (now w < t0 + delayMs \/ now w = t0).

Definition request_flying (config : EnvConfig) (delayMs : nat) (sent0 : list Request)
           (n0 n : nat) (text : jsstring) (t0 : nat) (w : World) : Prop :=
  timers w = [] /\ blank text = false
  /\ dispatched w = sent0 ++ [request_for config text]
  /\ (exists olds k,
        inflight w = olds ++ [{| sent := request_for config text; waiter := n;
                                 resume := k |}]
        /\ old_inflight n0 olds /\ final_step k)
  /\ nth_error (promises w) n = Some Pending
  /\ t0 + delayMs <= now w /\ t0 < now w.

Definition call_over (config : EnvConfig) (delayMs : nat) (sent0 : list Request)
           (n0 n : nat) (text : jsstring) (t0 : nat) (w : World) : Prop :=
  timers w = [] /\ old_inflight n0 (inflight w)
  /\ dispatched w = sent0 ++ (if blank text then [] else [request_for config text])
  /\ (exists s, nth_error (promises w) n = Some (Done s))
  /\ t0 + delayMs <= now w /\ t0 < now w.

Definition settling (config : EnvConfig) (delayMs : nat) (sent0 : list Request)
           (n0 n : nat) (text : jsstring) (t0 : nat) (w : World) : Prop :=
  List.length (promises w) = S n /\ n0 <= n
  /\ (forall p, n0 <= p < n -> nth_error (promises w) p = Some Pending)
  /\ t0 <= now w
  /\ (timer_armed delayMs sent0 n0 n text t0 w
      \/ request_flying config delayMs sent0 n0 n text t0 w
      \/ call_over config delayMs sent0 n0 n text t0 w).

End Spec.
Import Spec.

(** ** Further vocabulary: occurrences of a pattern *)

Module Occurrence.

(** The pattern matches somewhere in the text. *)
Definition occurs (r : regex) (s : jsstring) : Prop :=
  exists pre m post, s = pre ++ m ++ post /\ matches r m.

(** The pattern can match the empty text. *)
Fixpoint nullable (r : regex) : bool :=
  match r with
  | Eps | Opt _ | Many _ => true
  | Chr _ => false
  | Seq a b => nullable a && nullable b
  | Alt a b => nullable a || nullable b
  | Group a => nullable a
  end.

(** No text the pattern matches starts with a decimal digit. *)
Fixpoint no_digit_first (r : regex) : bool :=
  match r with
  | Eps => true
  | Chr Digit | Many Digit => false
  | Chr Space | Many Space => true
  | Chr (Lit a) | Many (Lit a) => negb (is_digit (canonicalize a))
  | Seq a b => no_digit_first a && (if nullable a then no_digit_first b else true)
  | Alt a b => no_digit_first a && no_digit_first b
  | Opt a | Group a => no_digit_first a
  end.

(** Some text the pattern matches may start with the code unit [c]. *)
Fixpoint starts (r : regex) (c : N) : bool :=
  match r with
  | Eps => false
  | Chr k | Many k => test k c
  | Seq a b => starts a c || (nullable a && starts b c)
  | Alt a b => starts a c || starts b c
  | Opt a | Group a => starts a c
  end.

(** The text holds no decimal digit. *)
Definition digit_free (s : jsstring) : bool := forallb (fun c => negb (is_digit c)) s.

(** The decoded value is no number and, when it is an object, has no member
    that is one. *)
Definition numberless (v : value) : Prop :=
  match v with
  | VNum _ => False
  | VObj o => Forall (fun m => is_number (snd m) = None) o
  | _ => True
  end.

(** The text does not end with a decimal digit. *)
Definition no_digit_last (s : jsstring) : Prop :=
  forall p c, s = p ++ [c] -> is_digit c = false.

(** The text is empty or starts with something other than a decimal digit. *)
Definition no_digit_head (s : jsstring) : Prop :=
  forall c q, s = c :: q -> is_digit c = false.

(** The two words are equal up to the case of their ASCII letters. *)
Definition same_word (w w' : jsstring) : Prop :=
  map canonicalize w = map canonicalize w'.

(** The error of a text from which no calorie figure is recovered. *)
Definition parse_error : thrown :=
  ThrownAPIError
    (createAPIError (js "Could not extract calorie information from AI response")
                    "PARSE_ERROR" false).

(** The units of the calorie pattern. *)
Definition calorie_words : list jsstring := [js "cal"; js "kcal"; js "calories"].

(** A pattern of the fallback: a captured digit run, then a unit that has no
    group, cannot be empty and cannot start with a digit. *)
Definition figure_pattern (unit : regex) : Prop :=
  groupless unit /\ nullable unit = false /\ no_digit_first unit = true.

(** What [parseInt] makes of the digit run [d]: the Number value for the
    value of the run, which is a non-negative integer or the positive
    infinity, and is the value of the run itself when that is below 2^53. *)
Definition run_number (d : jsstring) (x : number) : Prop :=
  x = number_for (inject_Z (digits_value 0 d))
  /\ natural_or_infinite x
  /\ ((digits_value 0 d < 2 ^ 53)%Z -> x = Fin (inject_Z (digits_value 0 d))).

(** How the fallback reads the macro [name] off a text: the default when
    the pattern of the macro occurs nowhere, and otherwise the number of a
    whole digit run that the unit follows, at the leftmost place where the
    pattern matches. *)
Definition macro_reading (name : string) (default : Q) (text : jsstring) (x : number)
  : Prop :=
  (~ occurs (macro_re name) text /\ x = Fin default)
  \/ exists pre d unit post,
       text = pre ++ d ++ unit ++ post
       /\ d <> [] /\ forallb is_digit d = true
       /\ no_digit_last pre /\ no_digit_head (unit ++ post)
       /\ matches (macro_unit name) unit
       /\ run_number d x
       /\ (forall p c q m post',
              pre = p ++ c :: q -> c :: q ++ d ++ unit ++ post = m ++ post' ->
              ~ matches (macro_re name) m).

(** The settings of the provider the configuration selects. *)
Definition active_settings (config : EnvConfig) : ProviderSettings :=
  match aiProvider config with
  | openrouter => openRouter config
  | perplexity => perplexity_ config
  end.

(** The codes [analyzeNutrition] can reject with. *)
Definition surfaced_kinds : list string := "EMPTY_INPUT"%string :: classifier_kinds.

End Occurrence.
Import Occurrence.

(** ** Further vocabulary: histories of an analyzer instance *)

Module History.

(** The meal texts of the calls among the events, in order. *)
Fixpoint called (es : list event) : list jsstring :=
  match es with
  | [] => []
  | Call mealText :: es' => mealText :: called es'
  | _ :: es' => called es'
  end.

(** The single slot of the coordinator: no timer is armed, or one is and
    [timeoutId] names it. *)
Definition single_slot (w : World) : Prop :=
  timers w = []
  \/ exists t, timers w = [t] /\ timeoutId w = Some (timer_id t).

(** The request was made for a meal text among [texts] that is not blank. *)
Definition request_of (config : EnvConfig) (texts : list jsstring) (req : Request)
  : Prop :=
  exists t, In t texts /\ blank t = false /\ req = request_for config t.

(** Every armed timer and every request sent comes from a call with one of
    [texts], and there are no more of them than texts. *)
Definition accounted (config : EnvConfig) (texts : list jsstring) (w : World) : Prop :=
  Forall (fun t => In (timer_text t) texts) (timers w)
  /\ Forall (request_of config texts) (dispatched w)
  /\ List.length (dispatched w) + List.length (timers w) <= List.length texts.

(** The clock moved on by [ms] and nothing else happened. *)
Definition advance (ms : nat) (w : World) : World :=
  {| now := now w + ms; timers := timers w; timers_made := timers_made w;
     timeoutId := timeoutId w; currentController := currentController w;
     controllers_made := controllers_made w; aborted := aborted w;
     inflight := inflight w; promises := promises w;
     dispatched := dispatched w |}.

(** The state in which the callback of the one armed timer starts, [ms]
    after [w]: the timer is gone and a new controller is current. *)
Definition fired (ms : nat) (w : World) : World :=
  {| now := now w + ms; timers := []; timers_made := timers_made w;
     timeoutId := timeoutId w;
     currentController := Some (S (controllers_made w));
     controllers_made := S (controllers_made w); aborted := aborted w;
     inflight := inflight w; promises := promises w;
     dispatched := dispatched w |}.

(** What a direct call of [analyzeNutrition] comes to when the network
    answers [r]. *)
Definition direct_outcome (config : EnvConfig) (mealText : jsstring) (r : HttpReply)
  : settled AIAnalysisResult :=
  snd (exec_prog (fun _ => r) (analyzeNutrition config mealText)).

End History.
Import History.

(** ** components/NutritionDetailsModal.tsx: the handlers of the edit form *)

(** The component keeps [isEditing] and the text of its four inputs in
    state.  A handler reads the props and the state of the render it was
    made in; it is modelled by the state of the next render together with the
    calls it makes of the props [onUpdate] and [onClose], in order. *)

Module Modal.

(** Modelled from the spec: the meal record the collaborators show and
    edit.  Of its fields (id, text, calories, protein, carbs, fat, timestamp)
    the handlers read the four figures; [None] is a figure that is
    [undefined], which the handlers allow for with [meal.protein || 0]. *)
Record MealEntry := {
  calories : number;
  protein : option number;
  carbs : option number;
  fat : option number
}.

(** [x || 0] *)
Definition or_zero (x : option number) : number :=
  match x with
  | Some n => if truthy_number n then n else Fin 0
  | None => Fin 0
  end.

(** [typed || current] *)
Definition or_current (typed : number) (current : option number) : option number :=
  if truthy_number typed then Some typed else current.

(** The decimal digits of [n], the most significant first; [fuel] bounds
    their number. *)
Fixpoint decimal (fuel : nat) (n : N) : jsstring :=
  match fuel with
  | O => []
  | S f =>
      if (n <? 10)%N then [(48 + n)%N]
      else decimal f (n / 10)%N ++ [(48 + n mod 10)%N]
  end.

(** [x.toString()] for NaN, for an infinity and for a safe integer (below
    2^53 in absolute value), which is printed as its decimal digits after an
    optional minus sign.  [None] elsewhere: there the digits are the shortest
    that identify the binary64 value, which this development does not
    compute. *)
Definition Number_toString (x : number) : option jsstring :=
  match x with
  | NaN => Some (js "NaN")
  | Inf false => Some (js "Infinity")
  | Inf true => Some (js "-Infinity")
  | Fin q =>
      let z := Qfloor q in
      if Qeq_bool q (inject_Z z) && (Z.abs z <? 2 ^ 53)%Z
      then Some ((if (z <? 0)%Z then [45%N] else []) ++ decimal 16 (Z.abs_N z))
      else None
  end.

(** The state of the component: [isEditing] and the four text inputs. *)
Record State := {
  isEditing : bool;
  editedCalories : jsstring;
  editedProtein : jsstring;
  editedCarbs : jsstring;
  editedFat : jsstring
}.

(** The calls of the props [onUpdate] and [onClose]. *)
Inductive effect :=
| OnUpdate (updates : MealEntry)
| OnClose.

Definition handleEdit (meal : MealEntry) (st : State) : option State :=
  match Number_toString (calories meal), Number_toString (or_zero (protein meal)),
        Number_toString (or_zero (carbs meal)), Number_toString (or_zero (fat meal)) with
  | Some c, Some p, Some b, Some f =>
      Some {| isEditing := true; editedCalories := c; editedProtein := p;
              editedCarbs := b; editedFat := f |}
  | _, _, _, _ => None
  end.

(** [onUpdate] is an optional prop: [has_onUpdate] says it was passed. *)
Definition handleSave (meal : MealEntry) (has_onUpdate : bool) (st : State)
  : State * list effect :=
  let updates :=
    {| calories := if truthy_number (parseInt (editedCalories st))
                   then parseInt (editedCalories st) else calories meal;
       protein := or_current (parseInt (editedProtein st)) (protein meal);
       carbs := or_current (parseInt (editedCarbs st)) (carbs meal);
       fat := or_current (parseInt (editedFat st)) (fat meal) |} in
  ({| isEditing := false; editedCalories := editedCalories st;
      editedProtein := editedProtein st; editedCarbs := editedCarbs st;
      editedFat := editedFat st |},
   (if has_onUpdate then [OnUpdate updates] else []) ++ [OnClose]).

Definition handleCancel (st : State) : State :=
  {| isEditing := false; editedCalories := editedCalories st;
     editedProtein := editedProtein st; editedCarbs := editedCarbs st;
     editedFat := editedFat st |}.

(** A number [toString] prints in full: NaN, or a safe integer. *)
Definition printed (x : number) : Prop :=
  x = NaN \/ exists z : Z, (Z.abs z < 2 ^ 53)%Z /\ x = Fin (inject_Z z).

Definition printed_opt (x : option number) : Prop :=
  forall n, x = Some n -> printed n.


End Modal.

(** * Properties *)

Unset Implicit Arguments.

(** ** Numbers *)

Lemma number_for_not_nan (q : Q) : number_for q <> NaN.
Proof.
  unfold number_for.
  destruct (Z.abs (Qnum q) =? 0)%Z; [discriminate|].
  destruct (0 <=? binary64_exponent (Z.abs (Qnum q)) (Zpos (Qden q)))%Z;
    [|discriminate].
  match goal with |- context [if ?b then _ else _] => destruct b end; discriminate.
Qed.

Lemma round_half_even_whole (n : Z) : round_half_even n 1 = n.
Proof.
  unfold round_half_even. rewrite Z.mod_1_r, Z.div_1_r. reflexivity.
Qed.

Lemma round_half_even_nonneg (n d : Z) :
  (0 <= n)%Z -> (0 < d)%Z -> (0 <= round_half_even n d)%Z.
Proof.
  intros Hn Hd. unfold round_half_even.
  pose proof (Z.div_pos n d Hn Hd) as P.
  destruct (2 * (n mod d) <? d)%Z; [exact P|].
  destruct (d <? 2 * (n mod d))%Z; [lia|].
  destruct (Z.even (n / d)); lia.
Qed.

Lemma binary64_exponent_integer (n : Z) :
  (0 < n)%Z -> binary64_exponent n 1 = Z.max (Z.log2 n - 52) (-1074).
Proof.
  intros P. unfold binary64_exponent.
  change (Z.log2 1) with 0%Z. rewrite Z.sub_0_r.
  pose proof (Z.log2_nonneg n) as L.
  destruct (0 <=? Z.log2 n)%Z eqn:K; [|apply Z.leb_gt in K; lia].
  destruct (Z.log2_spec n P) as [Lo _].
  destruct (1 * 2 ^ Z.log2 n <=? n)%Z eqn:A; [reflexivity|].
  apply Z.leb_gt in A. lia.
Qed.

Lemma Qred_scaled (z j : Z) :
  (0 <= j)%Z -> Qred (Qmake (z * 2 ^ j) (Z.to_pos (2 ^ j))) = inject_Z z.
Proof.
  intros J.
  assert (P : (0 < 2 ^ j)%Z) by (apply Z.pow_pos_nonneg; lia).
  rewrite <- (Qcanon.Qred_identity (inject_Z z)) by (cbn; apply Z.gcd_1_r).
  apply Qred_complete. unfold Qeq, inject_Z. cbn [Qnum Qden].
  rewrite Z2Pos.id by exact P. lia.
Qed.

Lemma round_half_even_floor (n d : Z) : (n / d <= round_half_even n d)%Z.
Proof.
  unfold round_half_even.
  destruct (2 * (n mod d) <? d)%Z; [lia|].
  destruct (d <? 2 * (n mod d))%Z; [lia|].
  destruct (Z.even (n / d)); lia.
Qed.

(** The Number value for an integer is an integer or an infinity, of the
    same sign, and is 0 only for 0. *)
Lemma number_for_integer (z : Z) :
  number_for (inject_Z z) = Inf (z <? 0)%Z
  \/ exists m : Z,
       number_for (inject_Z z) = Fin (inject_Z m)
       /\ ((0 <= z)%Z -> (0 <= m)%Z)
       /\ (z <> 0%Z -> m <> 0%Z).
Proof.
  unfold number_for, inject_Z. cbn [Qnum Qden].
  destruct (Z.abs z =? 0)%Z eqn:Z0.
  - right. exists 0%Z. apply Z.eqb_eq in Z0.
    split; [reflexivity|]. split; lia.
  - apply Z.eqb_neq in Z0.
    assert (P : (0 < Z.abs z)%Z) by lia.
    pose proof (binary64_exponent_integer _ P) as Ee.
    set (e := binary64_exponent (Z.abs z) 1) in *.
    destruct (0 <=? e)%Z eqn:E.
    + apply Z.leb_le in E.
      set (m := round_half_even (Z.abs z) (1 * 2 ^ e)).
      assert (M : (1 <= m)%Z).
      { pose proof (round_half_even_floor (Z.abs z) (1 * 2 ^ e)) as F. fold m in F.
        destruct (Z.log2_spec _ P) as [Lo _].
        assert (W : (2 ^ e <= 2 ^ Z.log2 (Z.abs z))%Z)
          by (apply Z.pow_le_mono_r; lia).
        assert (Q : (0 < Z.abs z / (1 * 2 ^ e))%Z).
        { apply Z.div_str_pos. split; [|lia].
          assert (0 < 2 ^ e)%Z by (apply Z.pow_pos_nonneg; lia). lia. }
        lia. }
      destruct (2 ^ 1024 <=? m * 2 ^ e)%Z; [left; reflexivity|].
      right. eexists. split; [reflexivity|].
      assert (T : (0 < m * 2 ^ e)%Z).
      { apply Z.mul_pos_pos; [lia | apply Z.pow_pos_nonneg; lia]. }
      split.
      * intros Pz. destruct (z <? 0)%Z eqn:N; [apply Z.ltb_lt in N; lia | lia].
      * intros _. destruct (z <? 0)%Z; lia.
    + apply Z.leb_gt in E. right. rewrite round_half_even_whole.
      exists z. split; [|auto].
      destruct (z <? 0)%Z eqn:N.
      * apply Z.ltb_lt in N.
        replace (- (Z.abs z * 2 ^ (- e)))%Z with (z * 2 ^ (- e))%Z by lia.
        rewrite Qred_scaled by lia. reflexivity.
      * apply Z.ltb_ge in N.
        replace (Z.abs z * 2 ^ (- e))%Z with (z * 2 ^ (- e))%Z by lia.
        rewrite Qred_scaled by lia. reflexivity.
Qed.



(** Below 2^53 in absolute value every integer is a binary64 value. *)
Lemma number_for_safe (z : Z) :
  (Z.abs z < 2 ^ 53)%Z -> number_for (inject_Z z) = Fin (inject_Z z).
Proof.
  intros B. unfold number_for, inject_Z. cbn [Qnum Qden].
  destruct (Z.abs z =? 0)%Z eqn:Z0.
  - apply Z.eqb_eq in Z0. replace z with 0%Z by lia. reflexivity.
  - apply Z.eqb_neq in Z0.
    assert (P : (0 < Z.abs z)%Z) by lia.
    rewrite (binary64_exponent_integer _ P).
    assert (L : (Z.log2 (Z.abs z) < 53)%Z) by (apply Z.log2_lt_pow2; assumption).
    pose proof (Z.log2_nonneg (Z.abs z)) as L0.
    replace (Z.max (Z.log2 (Z.abs z) - 52) (-1074)) with (Z.log2 (Z.abs z) - 52)%Z
      by lia.
    set (e := (Z.log2 (Z.abs z) - 52)%Z).
    assert (S : (if (z <? 0)%Z then - Z.abs z else Z.abs z)%Z = z).
    { destruct (z <? 0)%Z eqn:N; [apply Z.ltb_lt in N | apply Z.ltb_ge in N]; lia. }
    destruct (0 <=? e)%Z eqn:E.
    + apply Z.leb_le in E. assert (E0 : e = 0%Z) by lia. rewrite E0.
      change (1 * 2 ^ 0)%Z with 1%Z. rewrite round_half_even_whole.
      change (2 ^ 0)%Z with 1%Z. rewrite Z.mul_1_r.
      destruct (2 ^ 1024 <=? Z.abs z)%Z eqn:O.
      * apply Z.leb_le in O.
        assert (2 ^ 53 < 2 ^ 1024)%Z by reflexivity. lia.
      * destruct (z <? 0)%Z; rewrite <- S at 2; reflexivity.
    + apply Z.leb_gt in E. rewrite round_half_even_whole.
      destruct (z <? 0)%Z eqn:N.
      * apply Z.ltb_lt in N.
        replace (- (Z.abs z * 2 ^ (- e)))%Z with (z * 2 ^ (- e))%Z by lia.
        rewrite Qred_scaled by lia. reflexivity.
      * apply Z.ltb_ge in N.
        replace (Z.abs z * 2 ^ (- e))%Z with (z * 2 ^ (- e))%Z by lia.
        rewrite Qred_scaled by lia. reflexivity.
Qed.

(** ** Input guard *)

Lemma trim_start_blank (s : jsstring) :
  blank s = true -> trim_start s = [].
Proof.
  unfold blank. induction s as [|c s IH]; simpl; [reflexivity|].
  intros H. apply andb_true_iff in H as [Hc Hs]. rewrite Hc. auto.
Qed.

Lemma trim_start_nil_blank (s : jsstring) :
  trim_start s = [] -> blank s = true.
Proof.
  unfold blank. induction s as [|c s IH]; simpl; [reflexivity|].
  destruct (is_space c); [auto | discriminate].
Qed.

Lemma trim_start_head (s : jsstring) :
  trim_start s = [] \/ exists c r, trim_start s = c :: r /\ is_space c = false.
Proof.
  induction s as [|c s IH]; simpl; [now left|].
  destruct (is_space c) eqn:E; [exact IH|].
  right. exists c, s. auto.
Qed.

Lemma blank_rev (s : jsstring) : blank (rev s) = blank s.
Proof.
  unfold blank. induction s as [|c s IH]; simpl; [reflexivity|].
  rewrite forallb_app, IH. simpl. rewrite andb_true_r. apply andb_comm.
Qed.

Lemma trim_nil_iff (s : jsstring) : trim s = [] <-> blank s = true.
Proof.
  unfold trim. split.
  - intros H.
    assert (H1 : trim_start (rev (trim_start s)) = []).
    { destruct (trim_start (rev (trim_start s))) as [|x l]; [reflexivity|].
      simpl in H. apply app_eq_nil in H as [_ H]. discriminate. }
    apply trim_start_nil_blank in H1. rewrite blank_rev in H1.
    destruct (trim_start_head s) as [E | (c & r & E & Hc)].
    + now apply trim_start_nil_blank.
    + rewrite E in H1. unfold blank in H1. simpl in H1. rewrite Hc in H1. discriminate.
  - intros H. rewrite (trim_start_blank _ H). reflexivity.
Qed.

(** The test at the head of [analyzeNutrition] is exactly [blank]. *)
Lemma guard_blank (mealText : jsstring) :
  (match mealText with [] => true | _ => false end
   || (List.length (trim mealText) =? 0)%nat) = blank mealText.
Proof.
  destruct (blank mealText) eqn:B.
  - apply orb_true_iff. right. apply trim_nil_iff in B. rewrite B. reflexivity.
  - apply orb_false_iff. split.
    + destruct mealText; [discriminate B | reflexivity].
    + destruct (trim mealText) eqn:T; [|reflexivity].
      apply trim_nil_iff in T. congruence.
Qed.

Lemma analyzeNutrition_blank (config : EnvConfig) (mealText : jsstring) :
  blank mealText = true -> analyzeNutrition config mealText = Throw empty_input.
Proof.
  intros B. unfold analyzeNutrition. rewrite guard_blank, B. reflexivity.
Qed.

Lemma analyzeNutrition_nonblank (config : EnvConfig) (mealText : jsstring) :
  blank mealText = false ->
  analyzeNutrition config mealText =
  try_catch
    (match provider (getCurrentProviderConfig config) with
     | openrouter => analyzeWithOpenRouter mealText (getCurrentProviderConfig config)
     | perplexity => analyzeWithPerplexity mealText (getCurrentProviderConfig config)
     end)
    (fun error => Throw (ThrownAPIError (handleAPIError error))).
Proof.
  intros B. unfold analyzeNutrition. rewrite guard_blank, B. reflexivity.
Qed.

(** C3. An empty or whitespace-only meal text is rejected with code
    EMPTY_INPUT and retryable = false, and the program stops at the guard: it
    holds no HTTP request, so whatever the network would answer, nothing is
    sent. *)
Theorem C3_blank_input_rejected (config : EnvConfig) (mealText : jsstring) :
  blank mealText = true ->
  exists e : APIError,
    is_error e "EMPTY_INPUT" false
    /\ analyzeNutrition config mealText = Throw (ThrownAPIError e)
    /\ forall http : Request -> HttpReply,
         exec_prog http (analyzeNutrition config mealText)
         = ([], Rejected (ThrownAPIError e)).
Proof.
  intros B. exists (createAPIError (js "Meal text cannot be empty") "EMPTY_INPUT" false).
  rewrite (analyzeNutrition_blank config mealText B).
  repeat split.
Qed.

Lemma C3_blank_input_rejected_witness :
  blank (js "   ") = true
  /\ exists e : APIError,
       is_error e "EMPTY_INPUT" false
       /\ analyzeNutrition (config None None) (js "   ") = Throw (ThrownAPIError e)
       /\ forall http : Request -> HttpReply,
            exec_prog http (analyzeNutrition (config None None) (js "   "))
            = ([], Rejected (ThrownAPIError e)).
Proof.
  split; [reflexivity|].
  apply (C3_blank_input_rejected (config None None) (js "   ")). reflexivity.
Defined.

(** ** Error classifier *)

(** The answer of the classifier is one of seven kinds, and its flag is the
    one the taxonomy gives that kind. *)
Lemma handleAPIError_kind (error : thrown) :
  In (code (handleAPIError error)) classifier_kinds
  /\ retryable (handleAPIError error) = kind_retryable (code (handleAPIError error)).
Proof.
  destruct error as [e|msg|e|v]; try (split; [simpl; tauto | reflexivity]).
  unfold handleAPIError.
  destruct (match ax_code e with
            | Some c => (c =? "ECONNABORTED")%string || (c =? "ETIMEDOUT")%string
            | None => false
            end); [split; [simpl; tauto | reflexivity]|].
  destruct (ax_response e) as [status|]; [|split; [simpl; tauto | reflexivity]].
  destruct (status =? 401)%Z; [split; [simpl; tauto | reflexivity]|].
  destruct (status =? 429)%Z; [split; [simpl; tauto | reflexivity]|].
  destruct (status >=? 500)%Z; split; simpl; tauto.
Qed.

Lemma classifier_kinds_known (kind : string) :
  In kind classifier_kinds -> In kind error_kinds.
Proof. simpl. tauto. Qed.

(** C6. The classifier is a function on every thrown value; its answer is one
    of seven kinds, with the retryable flag of the taxonomy.  An axios error
    whose code says aborted or timed out is TIMEOUT; otherwise one without a
    response is NETWORK_ERROR; otherwise status 401 is AUTH_ERROR, 429 is
    RATE_LIMIT, 500 and above is SERVER_ERROR and any other status is
    API_ERROR; a value that is not an axios error is UNKNOWN_ERROR. *)
Theorem C6_classification_total :
  (forall error : thrown,
      In (code (handleAPIError error)) classifier_kinds
      /\ retryable (handleAPIError error)
         = kind_retryable (code (handleAPIError error)))
  /\ NoDup classifier_kinds
  /\ (forall e : AxiosError,
        timed_out e = true ->
        is_error (handleAPIError (ThrownAxios e)) "TIMEOUT" true)
  /\ (forall e : AxiosError,
        timed_out e = false -> ax_response e = None ->
        is_error (handleAPIError (ThrownAxios e)) "NETWORK_ERROR" true)
  /\ (forall (e : AxiosError) (status : Z),
        timed_out e = false -> ax_response e = Some status ->
        (status = 401%Z ->
         is_error (handleAPIError (ThrownAxios e)) "AUTH_ERROR" false)
        /\ (status = 429%Z ->
            is_error (handleAPIError (ThrownAxios e)) "RATE_LIMIT" true)
        /\ ((500 <= status)%Z ->
            is_error (handleAPIError (ThrownAxios e)) "SERVER_ERROR" true)
        /\ (status <> 401%Z -> status <> 429%Z -> (status < 500)%Z ->
            is_error (handleAPIError (ThrownAxios e)) "API_ERROR" true))
  /\ (forall error : thrown,
        (forall e : AxiosError, error <> ThrownAxios e) ->
        is_error (handleAPIError error) "UNKNOWN_ERROR" false).
Proof.
  assert (A : forall (e : AxiosError) (status : Z),
             timed_out e = false -> ax_response e = Some status ->
             handleAPIError (ThrownAxios e)
             = if (status =? 401)%Z then
                 createAPIError (js "Invalid API key. Please check your configuration.")
                                "AUTH_ERROR" false
               else if (status =? 429)%Z then
                 createAPIError (js "Rate limit exceeded. Please wait a moment.")
                                "RATE_LIMIT" true
               else if (status >=? 500)%Z then
                 createAPIError (js "AI service is temporarily unavailable.")
                                "SERVER_ERROR" true
               else createAPIError (js "API error: " ++ ax_message e) "API_ERROR" true).
  { intros e status T R. unfold handleAPIError. fold (timed_out e).
    rewrite T, R. reflexivity. }
  split; [|split; [|split; [|split; [|split]]]].
  - exact handleAPIError_kind.
  - unfold classifier_kinds.
    repeat (constructor; [simpl; intuition discriminate|]). constructor.
  - intros e T. unfold handleAPIError. fold (timed_out e). rewrite T. split; reflexivity.
  - intros e T R. unfold handleAPIError. fold (timed_out e). rewrite T, R.
    split; reflexivity.
  - intros e status T R. rewrite (A e status T R).
    split; [|split; [|split]].
    + intros ->. split; reflexivity.
    + intros ->. split; reflexivity.
    + intros G.
      destruct (status =? 401)%Z eqn:E1; [apply Z.eqb_eq in E1; lia|].
      destruct (status =? 429)%Z eqn:E2; [apply Z.eqb_eq in E2; lia|].
      destruct (status >=? 500)%Z eqn:E3; [split; reflexivity|].
      rewrite Z.geb_leb in E3. apply Z.leb_gt in E3. lia.
    + intros N1 N2 L.
      destruct (status =? 401)%Z eqn:E1; [apply Z.eqb_eq in E1; lia|].
      destruct (status =? 429)%Z eqn:E2; [apply Z.eqb_eq in E2; lia|].
      destruct (status >=? 500)%Z eqn:E3; [|split; reflexivity].
      rewrite Z.geb_leb in E3. apply Z.leb_le in E3. lia.
  - intros [e|msg|e|v] N; try (split; reflexivity).
    exfalso. apply (N e). reflexivity.
Qed.

Lemma C6_classification_total_witness :
  is_error (handleAPIError
              (ThrownAxios {| ax_code := Some "ECONNABORTED"%string;
                              ax_response := None; ax_message := [] |}))
           "TIMEOUT" true
  /\ is_error (handleAPIError
                 (ThrownAxios {| ax_code := Some "ERR_NETWORK"%string;
                                 ax_response := None; ax_message := [] |}))
              "NETWORK_ERROR" true
  /\ is_error (handleAPIError
                 (ThrownAxios {| ax_code := Some "ERR_BAD_REQUEST"%string;
                                 ax_response := Some 401%Z; ax_message := [] |}))
              "AUTH_ERROR" false
  /\ is_error (handleAPIError
                 (ThrownAxios {| ax_code := Some "ERR_BAD_REQUEST"%string;
                                 ax_response := Some 429%Z; ax_message := [] |}))
              "RATE_LIMIT" true
  /\ is_error (handleAPIError
                 (ThrownAxios {| ax_code := Some "ERR_BAD_RESPONSE"%string;
                                 ax_response := Some 503%Z; ax_message := [] |}))
              "SERVER_ERROR" true
  /\ is_error (handleAPIError
                 (ThrownAxios {| ax_code := Some "ERR_BAD_REQUEST"%string;
                                 ax_response := Some 404%Z; ax_message := [] |}))
              "API_ERROR" true
  /\ is_error (handleAPIError (ThrownOther (VStr (js "boom")))) "UNKNOWN_ERROR" false.
Proof.
  destruct C6_classification_total as (_ & _ & HT & HN & HS & HU).
  split; [apply HT; reflexivity|].
  split; [apply HN; reflexivity|].
  split; [apply (HS _ 401%Z); reflexivity|].
  split; [apply (HS _ 429%Z); reflexivity|].
  split; [apply (HS _ 503%Z); [reflexivity | reflexivity | lia]|].
  split; [apply (HS _ 404%Z); [reflexivity | reflexivity | lia | lia | lia]|].
  apply HU. intros e; discriminate.
Defined.

(** ** The regex fallback *)

Section MatcherFacts.
Variable A : Type.

(** What [k*] hands to its continuation is the text less a run of [k]. *)
Lemma many_inv (k : cls) (s : jsstring) (cont : jsstring -> option A) (a : A) :
  many k s cont = Some a ->
  exists pre s1, s = pre ++ s1 /\ forallb (test k) pre = true /\ cont s1 = Some a.
Proof.
  induction s as [|c s IH]; simpl; intros H.
  - exists [], []. auto.
  - destruct (test k c) eqn:T.
    + destruct (many k s cont) as [x|].
      * destruct (IH H) as (pre & s1 & E & F & C).
        exists (c :: pre), s1. simpl. rewrite T, F, E. auto.
      * exists [], (c :: s). auto.
    + exists [], (c :: s). auto.
Qed.

Lemma run_groupless (r : regex) :
  groupless r ->
  forall (s : jsstring) (cap : option jsstring)
         (cont : option jsstring -> jsstring -> option A) (a : A),
    run r s cap cont = Some a -> exists s1, cont cap s1 = Some a.
Proof.
  induction r as [|k|r1 IH1 r2 IH2|r1 IH1 r2 IH2|r IH|k|r IH];
    simpl; intros G s cap cont a H.
  - eauto.
  - destruct s as [|c s]; [discriminate|]. destruct (test k c); [eauto | discriminate].
  - destruct G as [G1 G2].
    destruct (IH1 G1 _ _ _ _ H) as (s1 & H1). eapply IH2; eauto.
  - destruct G as [G1 G2].
    destruct (run r1 s cap cont) as [x|] eqn:R1.
    + inversion H; subst x. eapply IH1; eauto.
    + eapply IH2; eauto.
  - destruct (run r s cap cont) as [x|] eqn:R1.
    + inversion H; subst x. eapply IH; eauto.
    + eauto.
  - destruct (many_inv _ _ _ _ H) as (pre & s1 & _ & _ & C). eauto.
  - contradiction.
Qed.

Lemma firstn_consumed (m s1 : jsstring) :
  firstn (List.length (m ++ s1) - List.length s1) (m ++ s1) = m.
Proof.
  rewrite length_app, Nat.add_sub, firstn_app, Nat.sub_diag, firstn_all.
  simpl. apply app_nil_r.
Qed.

(** A pattern without a capturing group leaves the capture as it found
    it; [(\d+)] captures a run of one digit or more. *)
Lemma digits1_inv (s : jsstring) (cap : option jsstring)
      (cont : option jsstring -> jsstring -> option A) (a : A) :
  run digits1 s cap cont = Some a ->
  exists c d s1, s = (c :: d) ++ s1 /\ forallb is_digit (c :: d) = true
                 /\ cont (Some (c :: d)) s1 = Some a.
Proof.
  unfold digits1. cbn [run]. destruct s as [|c s]; [discriminate|].
  cbn [test]. destruct (is_digit c) eqn:D; [|discriminate].
  intros H. apply many_inv in H as (pre & s1 & E & F & C).
  exists c, pre, s1. subst s. change (forallb is_digit pre = true) in F.
  change (c :: pre ++ s1) with ((c :: pre) ++ s1) in C.
  rewrite firstn_consumed in C.
  simpl. rewrite D, F. auto.
Qed.

(** The matcher is sound: what it consumes before calling its continuation
    is a text the pattern matches. *)
Lemma run_sound (r : regex) :
  forall (s : jsstring) (cap : option jsstring)
         (cont : option jsstring -> jsstring -> option A) (a : A),
    run r s cap cont = Some a ->
    exists m s1 cap1,
      s = m ++ s1 /\ matches r m /\ cont cap1 s1 = Some a
      /\ (groupless r -> cap1 = cap).
Proof.
  induction r as [|k|r1 IH1 r2 IH2|r1 IH1 r2 IH2|r IH|k|r IH];
    cbn [run groupless]; intros s cap cont a H.
  - exists [], s, cap. repeat split; [constructor | exact H].
  - destruct s as [|c s]; [discriminate|]. destruct (test k c) eqn:T; [|discriminate].
    exists [c], s, cap. repeat split; [constructor; exact T | exact H].
  - destruct (IH1 _ _ _ _ H) as (m1 & s1 & cap1 & E1 & M1 & H1 & G1).
    destruct (IH2 _ _ _ _ H1) as (m2 & s2 & cap2 & E2 & M2 & H2 & G2).
    exists (m1 ++ m2), s2, cap2. subst s s1. rewrite app_assoc.
    repeat split; [constructor; assumption | exact H2|].
    intros [Ga Gb]. rewrite (G2 Gb). apply G1, Ga.
  - destruct (run r1 s cap cont) as [x|] eqn:R1.
    + inversion H; subst x.
      destruct (IH1 _ _ _ _ R1) as (m & s1 & cap1 & E & M & H1 & G).
      exists m, s1, cap1. repeat split; try assumption; [now apply matches_alt_l|].
      intros [Ga _]. apply G, Ga.
    + destruct (IH2 _ _ _ _ H) as (m & s1 & cap1 & E & M & H1 & G).
      exists m, s1, cap1. repeat split; try assumption; [now apply matches_alt_r|].
      intros [_ Gb]. apply G, Gb.
  - destruct (run r s cap cont) as [x|] eqn:R1.
    + inversion H; subst x.
      destruct (IH _ _ _ _ R1) as (m & s1 & cap1 & E & M & H1 & G).
      exists m, s1, cap1. repeat split; try assumption. now apply matches_opt.
    + exists [], s, cap. repeat split; [apply matches_opt_none | exact H].
  - destruct (many_inv _ _ _ _ H) as (pre & s1 & E & F & C).
    exists pre, s1, cap. repeat split; try assumption. now constructor.
  - destruct (IH _ _ _ _ H) as (m & s1 & cap1 & E & M & H1 & _).
    exists m, s1, (Some (firstn (List.length s - List.length s1) s)).
    repeat split; try assumption; [now constructor | contradiction].
Qed.
End MatcherFacts.

Lemma groupless_lits (w : jsstring) : groupless (lits w).
Proof. induction w; simpl; auto. Qed.

(** A match of [(\d+)] followed by a pattern without groups: the capture is
    the digit run, and the text reads digits, then what the rest matches. *)
Lemma match_here_capture (rest : regex) (s : jsstring) (g : option jsstring) :
  groupless rest ->
  match_here (Seq digits1 rest) s = Some g ->
  exists d m post,
    g = Some d /\ s = d ++ m ++ post /\ d <> []
    /\ forallb is_digit d = true /\ matches rest m.
Proof.
  intros G H. unfold match_here in H. cbn [run] in H.
  apply digits1_inv in H as (c & d & s1 & E & D & H).
  apply run_sound in H as (m & s2 & cap1 & E1 & M & H & C).
  inversion H; subst g. rewrite (C G).
  exists (c :: d), m, s2. subst s s1. repeat split; try assumption. discriminate.
Qed.

Lemma exec_capture (rest : regex) (s : jsstring) (g : option jsstring) :
  groupless rest ->
  exec (Seq digits1 rest) s = Some g ->
  exists pre d m post,
    g = Some d /\ s = pre ++ d ++ m ++ post /\ d <> []
    /\ forallb is_digit d = true /\ matches rest m.
Proof.
  intros G. induction s as [|c s IH]; cbn [exec]; intros H.
  - destruct (match_here (Seq digits1 rest) []) eqn:M; [|discriminate].
    inversion H; subst.
    destruct (match_here_capture rest _ _ G M) as (d & m & post & E).
    exists [], d, m, post. exact E.
  - destruct (match_here (Seq digits1 rest) (c :: s)) eqn:M.
    + inversion H; subst.
      destruct (match_here_capture rest _ _ G M) as (d & m & post & E).
      exists [], d, m, post. exact E.
    + destruct (IH H) as (pre & d & m & post & E1 & E2 & E3).
      exists (c :: pre), d, m, post. rewrite E2. auto.
Qed.

Lemma groupless_calorie_unit : groupless calorie_unit.
Proof. simpl. repeat split. Qed.

Lemma groupless_macro_unit (name : string) : groupless (macro_unit name).
Proof. simpl. repeat split. apply groupless_lits. Qed.

Lemma match_here_digit_run (rest : regex) (s : jsstring) (g : option jsstring) :
  groupless rest ->
  match_here (Seq digits1 rest) s = Some g -> digit_run g.
Proof.
  intros G H. unfold match_here in H. cbn [run] in H.
  apply digits1_inv in H as (c & d & s1 & _ & D & H).
  apply (run_groupless _ rest G) in H as (s2 & H).
  inversion H; subst g. exists c, d. auto.
Qed.

Lemma exec_digit_run (rest : regex) (s : jsstring) (g : option jsstring) :
  groupless rest ->
  exec (Seq digits1 rest) s = Some g -> digit_run g.
Proof.
  intros G. induction s as [|c s IH]; cbn [exec]; intros H.
  - destruct (match_here (Seq digits1 rest) []) eqn:M; [|discriminate].
    inversion H; subst. eapply match_here_digit_run; eauto.
  - destruct (match_here (Seq digits1 rest) (c :: s)) eqn:M.
    + inversion H; subst. eapply match_here_digit_run; eauto.
    + auto.
Qed.

Lemma calorie_re_digit_run (text : jsstring) (g : option jsstring) :
  exec calorie_re text = Some g -> digit_run g.
Proof.
  apply exec_digit_run. simpl. repeat split.
Qed.

Lemma macro_re_digit_run (name : string) (text : jsstring) (g : option jsstring) :
  exec (macro_re name) text = Some g -> digit_run g.
Proof.
  apply exec_digit_run. simpl. repeat split. apply groupless_lits.
Qed.

Lemma is_digit_cases (c : N) :
  is_digit c = true ->
  (c = 48 \/ c = 49 \/ c = 50 \/ c = 51 \/ c = 52 \/ c = 53 \/ c = 54 \/ c = 55
   \/ c = 56 \/ c = 57)%N.
Proof.
  unfold is_digit. intros H. apply andb_true_iff in H as [L U].
  apply N.leb_le in L, U. lia.
Qed.

Lemma digits_value_nonneg (s : jsstring) :
  forall acc : Z, (0 <= acc)%Z -> (0 <= digits_value acc s)%Z.
Proof.
  induction s as [|c s IH]; cbn [digits_value]; intros acc H; [exact H|].
  destruct (is_digit c); [|exact H].
  apply IH. unfold digit_val. pose proof (N2Z.is_nonneg (c - 48)). lia.
Qed.

(** [parseInt] of a digit run is the Number value for the value of the
    run. *)
Lemma parseInt_digit_run (g : option jsstring) :
  digit_run g ->
  exists d, g = Some d
            /\ parseInt_group g = number_for (inject_Z (digits_value 0 d))
            /\ (0 <= digits_value 0 d)%Z.
Proof.
  intros (c & d & -> & D). exists (c :: d). split; [reflexivity|].
  split; [|apply digits_value_nonneg; lia].
  simpl in D. apply andb_true_iff in D as [Dc _].
  unfold parseInt_group, parseInt.
  assert (S : trim_start (c :: d) = c :: d).
  { simpl. destruct (is_digit_cases c Dc) as [E|[E|[E|[E|[E|[E|[E|[E|[E|E]]]]]]]]];
      subst c; reflexivity. }
  rewrite S.
  assert (M : (c =? 45)%N = false /\ (c =? 43)%N = false).
  { destruct (is_digit_cases c Dc) as [E|[E|[E|[E|[E|[E|[E|[E|[E|E]]]]]]]]];
      subst c; split; reflexivity. }
  destruct M as [M1 M2]. rewrite M1, M2, Dc. reflexivity.
Qed.

Lemma natural_or_infinite_number (z : Z) :
  (0 <= z)%Z -> natural_or_infinite (number_for (inject_Z z)).
Proof.
  intros P. destruct (number_for_integer z) as [I | (m & E & M & _)].
  - right. rewrite I. destruct (z <? 0)%Z eqn:N; [apply Z.ltb_lt in N; lia|].
    reflexivity.
  - left. exists m. split; [apply M, P | exact E].
Qed.

Lemma natural_or_infinite_group (g : option jsstring) :
  digit_run g -> natural_or_infinite (parseInt_group g).
Proof.
  intros D. destruct (parseInt_digit_run g D) as (d & _ & -> & P).
  apply natural_or_infinite_number, P.
Qed.

(** The shape of every result of the fallback. *)
Lemma extract_result (text : jsstring) (r : AIAnalysisResult) :
  extractNutritionFromText text = Ret r ->
  exists g,
    exec calorie_re text = Some g
    /\ r = {| calories := parseInt_group g;
              protein := match exec protein_re text with
                         | Some m => parseInt_group m
                         | None => Fin 20
                         end;
              carbs := match exec carbs_re text with
                       | Some m => parseInt_group m
                       | None => Fin 30
                       end;
              fat := match exec fat_re text with
                     | Some m => parseInt_group m
                     | None => Fin 10
                     end;
              explanation := VStr (substring0 500 text);
              confidence := VNum (number_for 0.6);
              sources := VArr [] |}.
Proof.
  unfold extractNutritionFromText. intros H.
  destruct (exec calorie_re text) as [g|]; [|discriminate].
  exists g. split; [reflexivity|]. inversion H. reflexivity.
Qed.

Lemma natural_or_infinite_const (z : Z) :
  (0 <= z)%Z -> natural_or_infinite (Fin (inject_Z z)).
Proof. intros H. left. exists z. auto. Qed.





(** ** JSON.parse never runs out of fuel *)

Lemma skip_ws_le (s : jsstring) : List.length (skip_ws s) <= List.length s.
Proof.
  induction s as [|c s IH]; cbn [skip_ws List.length]; [lia|].
  destruct (is_ws c); cbn [List.length]; lia.
Qed.

Lemma skip_ws_cons (s r : jsstring) (c : N) :
  skip_ws s = c :: r -> List.length r < List.length s.
Proof.
  intros H. pose proof (skip_ws_le s) as L. rewrite H in L. cbn [List.length] in L. lia.
Qed.

Lemma string_body_le (n : nat) :
  forall s acc str r,
    List.length s <= n ->
    string_body s acc = Some (str, r) -> List.length r <= List.length s.
Proof.
  induction n as [|n IH]; intros s acc str r L H.
  - destruct s; [discriminate | cbn [List.length] in L; lia].
  - destruct s as [|c s]; [discriminate|]. cbn [string_body] in H.
    cbn [List.length] in *.
    destruct (c =? 34)%N; [inversion H; subst; lia|].
    destruct (c =? 92)%N.
    + destruct s as [|e s]; [discriminate|]. cbn [List.length] in *.
      repeat match type of H with
             | (if ?b then _ else _) = _ =>
                 destruct b; [try (apply IH in H; lia)|]
             end; try discriminate.
      destruct s as [|h1 [|h2 [|h3 [|h4 s]]]]; try discriminate.
      destruct (hex4 h1 h2 h3 h4); [|discriminate].
      cbn [List.length] in *. apply IH in H; lia.
    + destruct (c <? 32)%N; [discriminate|]. apply IH in H; lia.
Qed.

Lemma strip_prefix_le (w s r : jsstring) :
  strip_prefix w s = Some r -> List.length r <= List.length s.
Proof.
  revert s. induction w as [|x w IH]; intros s H; cbn [strip_prefix] in H.
  - destruct s; inversion H; lia.
  - destruct s as [|y s]; [discriminate|].
    destruct (x =? y)%N; [|discriminate]. apply IH in H. cbn [List.length]. lia.
Qed.

Lemma span_digits_le (s d r : jsstring) :
  span_digits s = (d, r) -> List.length r <= List.length s.
Proof.
  revert d r. induction s as [|c s IH]; intros d r H; cbn [span_digits] in H.
  - inversion H. cbn. lia.
  - destruct (is_digit c).
    + destruct (span_digits s) as [d' r'] eqn:E. inversion H; subst.
      specialize (IH d' r eq_refl). cbn [List.length]. lia.
    + inversion H; subst. lia.
Qed.

Lemma span_digits_app (s d r : jsstring) :
  span_digits s = (d, r) -> s = d ++ r.
Proof.
  revert d r. induction s as [|c s IH]; intros d r H; cbn [span_digits] in H.
  - inversion H. reflexivity.
  - destruct (is_digit c).
    + destruct (span_digits s) as [d' r'] eqn:E. inversion H; subst.
      rewrite (IH d' r eq_refl) at 1. reflexivity.
    + inversion H; subst. reflexivity.
Qed.

Ltac break_matches H :=
  repeat match type of H with
         | context [match ?x with _ => _ end] => destruct x eqn:?
         | context [if ?b then _ else _] => destruct b eqn:?
         end;
  try discriminate.

Ltac lengths :=
  repeat match goal with
         | E : (_, _) = (_, _) |- _ => inversion E; clear E
         | E : Some _ = Some _ |- _ => inversion E; clear E
         | E : span_digits _ = _ |- _ =>
             let A := fresh "A" in
             pose proof (span_digits_app _ _ _ E) as A;
             apply (f_equal (@List.length N)) in A; clear E
         end;
  subst; repeat rewrite length_app in *; cbn [List.length] in *; try lia.

Lemma opt_minus_le (s r : jsstring) (b : bool) :
  opt_minus s = (b, r) -> List.length r <= List.length s.
Proof. unfold opt_minus. intros H. break_matches H; lengths. Qed.

Lemma opt_sign_le (s r : jsstring) (b : bool) :
  opt_sign s = (b, r) -> List.length r <= List.length s.
Proof. unfold opt_sign. intros H. break_matches H; lengths. Qed.

Lemma int_part_lt (s ip r : jsstring) :
  int_part s = Some (ip, r) -> List.length r < List.length s.
Proof. unfold int_part. intros H. break_matches H; lengths. Qed.

Lemma frac_part_le (s fp r : jsstring) :
  frac_part s = Some (fp, r) -> List.length r <= List.length s.
Proof. unfold frac_part. intros H. break_matches H; lengths. Qed.

Lemma exp_part_le (s r : jsstring) (e : Z) :
  exp_part s = Some (e, r) -> List.length r <= List.length s.
Proof.
  unfold exp_part. intros H. break_matches H;
    repeat match goal with
           | E : opt_sign _ = _ |- _ => apply opt_sign_le in E
           end; lengths.
Qed.

Lemma number_token_lt (s r : jsstring) (q : number) :
  number_token s = Some (q, r) -> List.length r < List.length s.
Proof.
  unfold number_token. intros H. break_matches H;
    inversion H; subst;
    repeat match goal with
           | E : opt_minus _ = _ |- _ => apply opt_minus_le in E
           | E : int_part _ = _ |- _ => apply int_part_lt in E
           | E : frac_part _ = _ |- _ => apply frac_part_le in E
           | E : exp_part _ = _ |- _ => apply exp_part_le in E
           end;
    lia.
Qed.

(** The parser returns a suffix of its input, and fuel above twice the
    length of the input is never used up. *)
Lemma parse_bounds (fuel : nat) :
  (forall s,
      (2 * List.length s + 1 <= fuel -> parse_value fuel s <> OutOfFuel)
      /\ (forall v r, parse_value fuel s = Ok (v, r) -> List.length r <= List.length s))
  /\ (forall s acc,
        (2 * List.length s + 2 <= fuel -> parse_elements fuel s acc <> OutOfFuel)
        /\ (forall v r, parse_elements fuel s acc = Ok (v, r) ->
                        List.length r <= List.length s))
  /\ (forall s acc,
        (2 * List.length s + 2 <= fuel -> parse_members fuel s acc <> OutOfFuel)
        /\ (forall v r, parse_members fuel s acc = Ok (v, r) ->
                        List.length r <= List.length s)).
Proof.
  induction fuel as [|f (IHv & IHe & IHm)].
  - repeat split; intros; cbn in *; try lia; discriminate.
  - split; [|split].
    + intros s. cbn [parse_value].
      destruct (skip_ws s) as [|c r] eqn:S; [split; intros; discriminate|].
      apply skip_ws_cons in S.
      destruct (c =? ch "{")%N.
      { destruct (skip_ws r) as [|c1 r1] eqn:S1; [split; intros; discriminate|].
        apply skip_ws_cons in S1.
        destruct (c1 =? ch "}")%N.
        - split; [discriminate|]. intros v r' H. inversion H; subst. lia.
        - destruct (IHm r []) as [F L]. split.
          + intros B. apply F. lia.
          + intros v r' H. apply L in H. lia. }
      destruct (c =? ch "[")%N.
      { destruct (skip_ws r) as [|c1 r1] eqn:S1; [split; intros; discriminate|].
        apply skip_ws_cons in S1.
        destruct (c1 =? ch "]")%N.
        - split; [discriminate|]. intros v r' H. inversion H; subst. lia.
        - destruct (IHe r []) as [F L]. split.
          + intros B. apply F. lia.
          + intros v r' H. apply L in H. lia. }
      destruct (c =? 34)%N.
      { destruct (string_body r []) as [[str r1]|] eqn:B; [|split; intros; discriminate].
        apply (string_body_le (List.length r) r [] str r1 (le_n _)) in B.
        split; [discriminate|]. intros v r' H. inversion H; subst. lia. }
      destruct (strip_prefix (js "true") (c :: r)) as [r1|] eqn:P1.
      { apply strip_prefix_le in P1. cbn [List.length] in P1.
        split; [discriminate|]. intros v r' H. inversion H; subst. lia. }
      destruct (strip_prefix (js "false") (c :: r)) as [r1|] eqn:P2.
      { apply strip_prefix_le in P2. cbn [List.length] in P2.
        split; [discriminate|]. intros v r' H. inversion H; subst. lia. }
      destruct (strip_prefix (js "null") (c :: r)) as [r1|] eqn:P3.
      { apply strip_prefix_le in P3. cbn [List.length] in P3.
        split; [discriminate|]. intros v r' H. inversion H; subst. lia. }
      destruct (number_token (c :: r)) as [[q r1]|] eqn:T;
        [|split; intros; discriminate].
      apply number_token_lt in T. cbn [List.length] in T.
      split; [discriminate|]. intros v r' H. inversion H; subst. lia.
    + intros s acc. cbn [parse_elements].
      destruct (IHv s) as [Fv Lv].
      destruct (parse_value f s) as [[v s1]| |] eqn:V.
      * specialize (Lv v s1 eq_refl).
        destruct (skip_ws s1) as [|c s2] eqn:S; [split; intros; discriminate|].
        apply skip_ws_cons in S.
        destruct (c =? ch ",")%N.
        -- destruct (IHe s2 (v :: acc)) as [F L]. split.
           ++ intros B. apply F. lia.
           ++ intros v' r' H. apply L in H. lia.
        -- destruct (c =? ch "]")%N; [|split; intros; discriminate].
           split; [discriminate|]. intros v' r' H. inversion H; subst. lia.
      * split; intros; discriminate.
      * split; [|intros; discriminate]. intros B _. apply Fv; [lia | reflexivity].
    + intros s acc. cbn [parse_members].
      destruct (skip_ws s) as [|c r] eqn:S; [split; intros; discriminate|].
      apply skip_ws_cons in S.
      destruct (c =? 34)%N; [|split; intros; discriminate].
      destruct (string_body r []) as [[k r1]|] eqn:B; [|split; intros; discriminate].
      apply (string_body_le (List.length r) r [] k r1 (le_n _)) in B.
      destruct (skip_ws r1) as [|c1 r2] eqn:S1; [split; intros; discriminate|].
      apply skip_ws_cons in S1.
      destruct (c1 =? ch ":")%N; [|split; intros; discriminate].
      destruct (IHv r2) as [Fv Lv].
      destruct (parse_value f r2) as [[v s1]| |] eqn:V.
      * specialize (Lv v s1 eq_refl).
        destruct (skip_ws s1) as [|c2 s2] eqn:S2; [split; intros; discriminate|].
        apply skip_ws_cons in S2.
        destruct (c2 =? ch ",")%N.
        -- destruct (IHm s2 ((k, v) :: acc)) as [F L]. split.
           ++ intros Bd. apply F. lia.
           ++ intros v' r' H. apply L in H. lia.
        -- destruct (c2 =? ch "}")%N; [|split; intros; discriminate].
           split; [discriminate|]. intros v' r' H. inversion H; subst. lia.
      * split; intros; discriminate.
      * split; [|intros; discriminate]. intros Bd _. apply Fv; [lia | reflexivity].
Qed.

(** JSON.parse decides every text: the fuel it starts with is enough. *)
Lemma JSON_parse_fuel (s : jsstring) : parse_value (fuel_for s) s <> OutOfFuel.
Proof.
  apply (proj1 (proj1 (parse_bounds (fuel_for s)) s)). unfold fuel_for. lia.
Qed.

(** So a text JSON.parse rejects has a syntax error, or something other than
    white space after its value. *)
Lemma JSON_parse_none (s : jsstring) :
  JSON_parse s = None ->
  parse_value (fuel_for s) s = SyntaxError
  \/ exists v r, parse_value (fuel_for s) s = Ok (v, r) /\ skip_ws r <> [].
Proof.
  unfold JSON_parse. intros H. pose proof (JSON_parse_fuel s) as F.
  destruct (parse_value (fuel_for s) s) as [[v r]| |]; [|now left | congruence].
  right. exists v, r. split; [reflexivity|].
  destruct (skip_ws r); [discriminate | discriminate].
Qed.

(** ** JSON.parse yields no NaN *)

Lemma nan_free_member (v : value) : nan_free v -> v <> VNum NaN.
Proof. destruct v; cbn; intros H E; try discriminate. inversion E. contradiction. Qed.

Lemma number_token_not_nan (s r : jsstring) (x : number) :
  number_token s = Some (x, r) -> x <> NaN.
Proof.
  unfold number_token. intros H.
  break_matches H; inversion H; apply number_for_not_nan.
Qed.

Lemma parse_nan_free (fuel : nat) :
  (forall s v r, parse_value fuel s = Ok (v, r) -> nan_free v)
  /\ (forall s acc v r, parse_elements fuel s acc = Ok (v, r) -> nan_free v)
  /\ (forall s acc v r,
        Forall (fun m => snd m <> VNum NaN) acc ->
        parse_members fuel s acc = Ok (v, r) -> nan_free v).
Proof.
  induction fuel as [|f (IHv & IHe & IHm)].
  - repeat split; intros; cbn in *; discriminate.
  - split; [|split].
    + intros s v r' H. cbn [parse_value] in H.
      destruct (skip_ws s) as [|c r]; [discriminate|].
      destruct (c =? ch "{")%N.
      { destruct (skip_ws r) as [|c1 r1]; [discriminate|].
        destruct (c1 =? ch "}")%N.
        - injection H as <- <-. constructor.
        - apply (IHm r [] v r' (Forall_nil _) H). }
      destruct (c =? ch "[")%N.
      { destruct (skip_ws r) as [|c1 r1]; [discriminate|].
        destruct (c1 =? ch "]")%N.
        - injection H as <- <-. exact I.
        - apply (IHe r [] v r' H). }
      destruct (c =? 34)%N.
      { destruct (string_body r []) as [[str r1]|]; [|discriminate].
        injection H as <- <-. exact I. }
      destruct (strip_prefix (js "true") (c :: r)) as [r1|];
        [injection H as <- <-; exact I|].
      destruct (strip_prefix (js "false") (c :: r)) as [r1|];
        [injection H as <- <-; exact I|].
      destruct (strip_prefix (js "null") (c :: r)) as [r1|];
        [injection H as <- <-; exact I|].
      destruct (number_token (c :: r)) as [[x r1]|] eqn:T; [|discriminate].
      injection H as <- <-. cbn [nan_free]. apply (number_token_not_nan _ _ _ T).
    + intros s acc v' r' H. cbn [parse_elements] in H.
      destruct (parse_value f s) as [[v s1]| |]; try discriminate.
      destruct (skip_ws s1) as [|c s2]; [discriminate|].
      destruct (c =? ch ",")%N; [apply (IHe s2 (v :: acc) v' r' H)|].
      destruct (c =? ch "]")%N; [|discriminate].
      injection H as <- <-. exact I.
    + intros s acc v' r' A H. cbn [parse_members] in H.
      destruct (skip_ws s) as [|c r]; [discriminate|].
      destruct (c =? 34)%N; [|discriminate].
      destruct (string_body r []) as [[k r1]|]; [|discriminate].
      destruct (skip_ws r1) as [|c1 r2]; [discriminate|].
      destruct (c1 =? ch ":")%N; [|discriminate].
      destruct (parse_value f r2) as [[v s1]| |] eqn:V; try discriminate.
      pose proof (IHv r2 v s1 V) as Nv.
      destruct (skip_ws s1) as [|c2 s2]; [discriminate|].
      assert (A' : Forall (fun m => snd m <> VNum NaN) ((k, v) :: acc)).
      { constructor; [apply nan_free_member, Nv | exact A]. }
      destruct (c2 =? ch ",")%N; [apply (IHm s2 _ v' r' A' H)|].
      destruct (c2 =? ch "}")%N; [|discriminate].
      injection H as <- <-.
      change (Forall (fun m => snd m <> VNum NaN) (rev ((k, v) :: acc))).
      apply Forall_rev. exact A'.
Qed.

Lemma lookup_member (k : jsstring) (o : list (jsstring * value)) (w : value) :
  lookup k o = Some w -> exists k', In (k', w) o.
Proof.
  induction o as [|[k' v] o IH]; cbn [lookup]; [discriminate|].
  destruct (lookup k o) as [w'|].
  - intros H. inversion H; subst. destruct (IH eq_refl) as (k0 & I).
    exists k0. right. exact I.
  - destruct (str_eqb k k'); [|discriminate]. intros H. inversion H; subst.
    exists k'. left. reflexivity.
Qed.

(** A member of a decoded object that is a number is not NaN. *)
Lemma JSON_parse_not_nan (content : jsstring) (parsed : value) (k : jsstring)
      (x : number) :
  JSON_parse content = Some parsed -> get parsed k = Some (VNum x) -> x <> NaN.
Proof.
  unfold JSON_parse. intros P G.
  destruct (parse_value (fuel_for content) content) as [[v r]| |] eqn:V;
    try discriminate.
  pose proof (proj1 (parse_nan_free (fuel_for content)) content v r V) as Nv.
  destruct (skip_ws r); [|discriminate]. inversion P; subst parsed.
  destruct v; cbn [get] in G; try discriminate.
  destruct (lookup k o) as [w|] eqn:Lk; [|discriminate].
  inversion G; subst w. apply lookup_member in Lk as (k' & I).
  cbn [nan_free] in Nv. rewrite Forall_forall in Nv.
  intros ->. apply (Nv _ I). reflexivity.
Qed.

(** ** Strict decoding *)

Lemma Math_round_rounds (q : Q) : rounds_to q (Math_round (Fin q)).
Proof.
  exists (Qfloor (q + (1 # 2))). split; [reflexivity|].
  pose proof (Qfloor_le (q + (1 # 2))) as L.
  pose proof (Qlt_floor (q + (1 # 2))) as U.
  rewrite inject_Z_plus in U. change (inject_Z 1) with 1%Q in U.
  generalize dependent (inject_Z (Qfloor (q + (1 # 2)))). intros x L U.
  split; lra.
Qed.

Lemma Math_round_rounded (x : number) : x <> NaN -> rounded x (Math_round x).
Proof.
  destruct x as [q|b|]; intros N; cbn [rounded Math_round];
    [apply Math_round_rounds | reflexivity | congruence].
Qed.

Lemma Math_round_whole (x : number) :
  x <> NaN -> integer_or_infinite (Math_round x).
Proof.
  destruct x as [q|b|]; intros N; cbn [Math_round].
  - left. eexists. reflexivity.
  - right. eexists. reflexivity.
  - congruence.
Qed.

(** A value with a numeric member is an object, so reading any other member
    of it does not throw. *)
Lemma get_total (parsed : value) (k : jsstring) (x : number) :
  get parsed k = Some (VNum x) -> forall k', exists v, get parsed k' = Some v.
Proof.
  destruct parsed; cbn [get]; intros H k'; try discriminate; eauto.
Qed.

(** What the [try] block returns when the four macro members are numbers. *)
Lemma decode_numeric (content : jsstring) (parsed : value) (qc qp qb qf : number) :
  JSON_parse content = Some parsed ->
  get parsed (js "calories") = Some (VNum qc) ->
  get parsed (js "protein") = Some (VNum qp) ->
  get parsed (js "carbs") = Some (VNum qb) ->
  get parsed (js "fat") = Some (VNum qf) ->
  exists ve vc vs,
    get parsed (js "explanation") = Some ve
    /\ get parsed (js "confidence") = Some vc
    /\ get parsed (js "sources") = Some vs
    /\ decode content
       = Some {| calories := Math_round qc; protein := Math_round qp;
                 carbs := Math_round qb; fat := Math_round qf;
                 explanation := or_else ve (VStr (js "No explanation provided"));
                 confidence := or_else vc (VNum (number_for 0.8));
                 sources := or_else vs (VArr []) |}.
Proof.
  intros P Hc Hp Hb Hf.
  destruct (get_total parsed _ qc Hc (js "explanation")) as (ve & He).
  destruct (get_total parsed _ qc Hc (js "confidence")) as (vc & Hv).
  destruct (get_total parsed _ qc Hc (js "sources")) as (vs & Hs).
  exists ve, vc, vs. repeat split; try assumption.
  unfold decode. rewrite P, Hc, Hp, Hb, Hf. cbn [is_number]. rewrite He, Hv, Hs.
  reflexivity.
Qed.

(** C7 as the specification states it fails: a calorie literal beyond the
    range of binary64 decodes to Infinity, which is a number, and is returned
    as Infinity, which is no integer. *)
Lemma C7_counterexample :
  exists (parsed : value) (r : AIAnalysisResult),
    JSON_parse overflow_json = Some parsed
    /\ get parsed (js "calories") = Some (VNum (Inf false))
    /\ get parsed (js "protein") = Some (VNum (Fin 1))
    /\ get parsed (js "carbs") = Some (VNum (Fin 2))
    /\ get parsed (js "fat") = Some (VNum (Fin 3))
    /\ parseAIResponse overflow_json = Ret r
    /\ calories r = Inf false
    /\ ~ integer (calories r).
Proof.
  eexists. eexists.
  split; [vm_compute; reflexivity|].
  split; [reflexivity|]. split; [reflexivity|]. split; [reflexivity|].
  split; [reflexivity|].
  split; [vm_compute; reflexivity|].
  split; [reflexivity|]. intros (z & E). discriminate.
Qed.

(** C7, amended. When the raw text decodes as JSON with numeric calories,
    protein, carbs and fat, the parser returns each of those four decoded
    numbers rounded to the nearest integer, a tie going up, when it is
    finite, and as it is when it is an infinity (the decoded number is the
    binary64 value of the literal, so a literal beyond the range of binary64
    is an infinity); the explanation is the placeholder when the member is
    absent, the confidence is 0.8 when the member is absent or falsy, the
    sources are the empty sequence when the member is absent, and a member
    that is there and truthy is returned as decoded.  The example text yields
    453, 23, 33, 25, confidence 0.9 and sources [USDA]; a calorie literal
    2.4999999999999999999 is the number 2.5 and yields 3, and a confidence
    literal 1e-400 is the number 0 and yields 0.8. *)
Theorem C7_strict_decoding_amended :
  (forall (content : jsstring) (parsed : value) (qc qp qb qf : number),
      JSON_parse content = Some parsed ->
      get parsed (js "calories") = Some (VNum qc) ->
      get parsed (js "protein") = Some (VNum qp) ->
      get parsed (js "carbs") = Some (VNum qb) ->
      get parsed (js "fat") = Some (VNum qf) ->
      exists r : AIAnalysisResult,
        parseAIResponse content = Ret r
        /\ calories r = Math_round qc /\ rounded qc (calories r)
        /\ protein r = Math_round qp /\ rounded qp (protein r)
        /\ carbs r = Math_round qb /\ rounded qb (carbs r)
        /\ fat r = Math_round qf /\ rounded qf (fat r)
        /\ (absent parsed (js "explanation") ->
            explanation r = VStr (js "No explanation provided"))
        /\ (forall v, get parsed (js "confidence") = Some v -> truthy v = false ->
            confidence r = VNum (number_for 0.8))
        /\ (absent parsed (js "confidence") -> confidence r = VNum (number_for 0.8))
        /\ (absent parsed (js "sources") -> sources r = VArr [])
        /\ (forall v, get parsed (js "explanation") = Some v -> truthy v = true ->
            explanation r = v)
        /\ (forall v, get parsed (js "confidence") = Some v -> truthy v = true ->
            confidence r = v)
        /\ (forall v, get parsed (js "sources") = Some v -> truthy v = true ->
            sources r = v))
  /\ parseAIResponse example_json
     = Ret {| calories := Fin 453; protein := Fin 23; carbs := Fin 33; fat := Fin 25;
              explanation := VStr (js "No explanation provided");
              confidence := VNum (number_for 0.9);
              sources := VArr [VStr (js "USDA")] |}
  /\ parseAIResponse rounding_json
     = Ret {| calories := Fin 3; protein := Fin 1; carbs := Fin 2; fat := Fin 3;
              explanation := VStr (js "No explanation provided");
              confidence := VNum (number_for 0.8);
              sources := VArr [] |}.
Proof.
  split; [|split; vm_compute; reflexivity].
  intros content parsed qc qp qb qf P Hc Hp Hb Hf.
  destruct (decode_numeric content parsed qc qp qb qf P Hc Hp Hb Hf)
    as (ve & vc & vs & He & Hv & Hs & D).
  pose proof (JSON_parse_not_nan content parsed _ qc P Hc) as Nc.
  pose proof (JSON_parse_not_nan content parsed _ qp P Hp) as Np.
  pose proof (JSON_parse_not_nan content parsed _ qb P Hb) as Nb.
  pose proof (JSON_parse_not_nan content parsed _ qf P Hf) as Nf.
  eexists. unfold parseAIResponse. rewrite D. split; [reflexivity|].
  cbn [calories protein carbs fat explanation confidence sources].
  unfold absent. rewrite He, Hv, Hs.
  repeat (split; [first [reflexivity | apply Math_round_rounded; assumption]|]).
  split; [intros E; inversion E; reflexivity|].
  split; [intros v E T; inversion E; subst v; unfold or_else; rewrite T; reflexivity|].
  split; [intros E; inversion E; reflexivity|].
  split; [intros E; inversion E; reflexivity|].
  split; [intros v E T; inversion E; subst v; unfold or_else; rewrite T; reflexivity|].
  split; intros v E T; inversion E; subst v; unfold or_else; rewrite T; reflexivity.
Qed.

Lemma C7_strict_decoding_amended_witness :
  exists r : AIAnalysisResult,
    parseAIResponse example_json = Ret r
    /\ calories r = Fin 453 /\ protein r = Fin 23 /\ carbs r = Fin 33 /\ fat r = Fin 25
    /\ explanation r = VStr (js "No explanation provided")
    /\ confidence r = VNum (number_for 0.9)
    /\ sources r = VArr [VStr (js "USDA")].
Proof.
  assert (P : JSON_parse example_json
              = Some (VObj [(js "calories", VNum (number_for (2263 # 5)));
                            (js "protein", VNum (number_for (231 # 10)));
                            (js "carbs", VNum (Fin 33)); (js "fat", VNum (Fin 25));
                            (js "confidence", VNum (number_for 0.9));
                            (js "sources", VArr [VStr (js "USDA")])]))
    by (vm_compute; reflexivity).
  destruct (proj1 C7_strict_decoding_amended example_json _
              (number_for (2263 # 5)) (number_for (231 # 10)) (Fin 33) (Fin 25)
              P eq_refl eq_refl eq_refl eq_refl)
    as (r & R & C & _ & Pr & _ & B & _ & F & _ & E & _ & _ & _ & _ & V & S).
  exists r. split; [exact R|].
  split; [rewrite C; vm_compute; reflexivity|].
  split; [rewrite Pr; vm_compute; reflexivity|].
  split; [exact B|]. split; [exact F|].
  split; [apply E; reflexivity|].
  split; [apply (V (VNum (number_for 0.9))); [reflexivity | vm_compute; reflexivity]|].
  apply (S (VArr [VStr (js "USDA")])); reflexivity.
Defined.

(** The [try] block yields nothing exactly when strict decoding fails. *)
Lemma decode_none_iff (content : jsstring) :
  decode content = None <-> strict_decoding_fails content.
Proof.
  unfold strict_decoding_fails. split.
  - intros D. destruct (JSON_parse content) as [parsed|] eqn:P; [|now left].
    right. exists parsed.
    assert (N : forall k, (forall q, get parsed k <> Some (VNum q))
                          \/ exists q, get parsed k = Some (VNum q)).
    { intros k. destruct (get parsed k) as [[| | | q | | |]|];
        try (left; intros q'; discriminate). right. eauto. }
    destruct (N (js "calories")) as [Hc | (qc & Hc)];
      [exists (js "calories"); split; [reflexivity | split; [simpl; tauto | assumption]]|].
    destruct (N (js "protein")) as [Hp | (qp & Hp)];
      [exists (js "protein"); split; [reflexivity | split; [simpl; tauto | assumption]]|].
    destruct (N (js "carbs")) as [Hb | (qb & Hb)];
      [exists (js "carbs"); split; [reflexivity | split; [simpl; tauto | assumption]]|].
    destruct (N (js "fat")) as [Hf | (qf & Hf)];
      [exists (js "fat"); split; [reflexivity | split; [simpl; tauto | assumption]]|].
    destruct (decode_numeric content parsed qc qp qb qf P Hc Hp Hb Hf)
      as (ve & vc & vs & _ & _ & _ & E).
    congruence.
  - intros [P | (parsed & k & P & K & N)]; unfold decode; rewrite P; [reflexivity|].
    destruct (get parsed (js "calories")) as [v1|] eqn:G1; [|reflexivity].
    destruct (get parsed (js "protein")) as [v2|] eqn:G2; [|reflexivity].
    destruct (get parsed (js "carbs")) as [v3|] eqn:G3; [|reflexivity].
    destruct (get parsed (js "fat")) as [v4|] eqn:G4; [|reflexivity].
    destruct K as [<-|[<-|[<-|[<-|[]]]]].
    + destruct v1; try reflexivity. exfalso. eapply N; eauto.
    + destruct v2; try (destruct v1; reflexivity). exfalso. eapply N; eauto.
    + destruct v3; try (destruct v1, v2; reflexivity). exfalso. eapply N; eauto.
    + destruct v4; try (destruct v1, v2, v3; reflexivity). exfalso. eapply N; eauto.
Qed.

(** C8 as the specification states it fails: a calorie figure written as
    a run of 309 nines is matched by the pattern, but what the parser returns
    is Infinity, not the matched figure. *)
Lemma C8_counterexample :
  strict_decoding_fails long_run_text
  /\ exec calorie_re long_run_text = Some (Some (repeat (ch "9") 309))
  /\ exists r : AIAnalysisResult,
       parseAIResponse long_run_text = Ret r
       /\ calories r = Inf false
       /\ calories r <> Fin (inject_Z (digits_value 0 (repeat (ch "9") 309))).
Proof.
  split; [left; vm_compute; reflexivity|].
  split; [vm_compute; reflexivity|].
  eexists. split; [vm_compute; reflexivity|].
  split; [reflexivity | discriminate].
Qed.

(** C8, amended. When strict decoding of the raw text fails and the calorie
    pattern matches, the parser returns as calories the Number value for the
    digit run the pattern captured (which stands in the text before optional
    white space and cal, kcal or calories in any case): the value of the run
    itself when that is below 2^53, and in any case a non-negative integer or
    Infinity; protein, carbs and fat are read in the same way from their own
    patterns, or are 20, 30 and 10 when a pattern finds nothing; the
    explanation is the first 500 code units of the text, the confidence 0.6,
    and there are no sources.  The example text yields 450, 20, 30, 10 and
    confidence 0.6; a figure 9007199254740993 (2^53 + 1) yields
    9007199254740992. *)
Theorem C8_regex_fallback_amended :
  (forall (text : jsstring) (g : option jsstring),
      strict_decoding_fails text ->
      exec calorie_re text = Some g ->
      exists (r : AIAnalysisResult) (digits : jsstring),
        parseAIResponse text = Ret r
        /\ g = Some digits
        /\ (exists pre unit post,
              text = pre ++ digits ++ unit ++ post
              /\ digits <> [] /\ forallb is_digit digits = true
              /\ matches calorie_unit unit)
        /\ calories r = number_for (inject_Z (digits_value 0 digits))
        /\ ((digits_value 0 digits < 2 ^ 53)%Z ->
            calories r = Fin (inject_Z (digits_value 0 digits)))
        /\ natural_or_infinite (calories r)
        /\ protein r = match exec protein_re text with
                       | Some m => parseInt_group m
                       | None => Fin 20
                       end
        /\ carbs r = match exec carbs_re text with
                     | Some m => parseInt_group m
                     | None => Fin 30
                     end
        /\ fat r = match exec fat_re text with
                   | Some m => parseInt_group m
                   | None => Fin 10
                   end
        /\ explanation r = VStr (firstn 500 text)
        /\ confidence r = VNum (number_for 0.6)
        /\ sources r = VArr [])
  /\ (forall (name : string) (text : jsstring) (m : option jsstring),
        exec (macro_re name) text = Some m ->
        exists digits pre unit post,
          m = Some digits
          /\ text = pre ++ digits ++ unit ++ post
          /\ digits <> [] /\ forallb is_digit digits = true
          /\ matches (macro_unit name) unit
          /\ parseInt_group m = number_for (inject_Z (digits_value 0 digits))
          /\ ((digits_value 0 digits < 2 ^ 53)%Z ->
              parseInt_group m = Fin (inject_Z (digits_value 0 digits)))
          /\ natural_or_infinite (parseInt_group m))
  /\ parseAIResponse example_text
     = Ret {| calories := Fin 450; protein := Fin 20; carbs := Fin 30; fat := Fin 10;
              explanation := VStr example_text;
              confidence := VNum (number_for 0.6); sources := VArr [] |}
  /\ parseAIResponse (js "Roughly 300 KCAL, 12 Grams of Protein, 40g CARBS, 9 g Fat")
     = Ret {| calories := Fin 300; protein := Fin 12; carbs := Fin 40; fat := Fin 9;
              explanation :=
                VStr (js "Roughly 300 KCAL, 12 Grams of Protein, 40g CARBS, 9 g Fat");
              confidence := VNum (number_for 0.6); sources := VArr [] |}
  /\ parseAIResponse unsafe_run_text
     = Ret {| calories := Fin 9007199254740992; protein := Fin 20; carbs := Fin 30;
              fat := Fin 10; explanation := VStr unsafe_run_text;
              confidence := VNum (number_for 0.6); sources := VArr [] |}.
Proof.
  assert (S : forall d, (0 <= digits_value 0 d)%Z -> (digits_value 0 d < 2 ^ 53)%Z ->
                        number_for (inject_Z (digits_value 0 d))
                        = Fin (inject_Z (digits_value 0 d))).
  { intros d P B. apply number_for_safe. lia. }
  split; [|split; [|split; [|split]; vm_compute; reflexivity]].
  - intros text g F C. apply decode_none_iff in F.
    destruct (parseInt_digit_run g (calorie_re_digit_run text g C)) as (d & -> & E & P).
    eexists _, d. unfold parseAIResponse. rewrite F.
    unfold extractNutritionFromText. rewrite C.
    split; [reflexivity|]. cbn [calories protein carbs fat explanation confidence sources].
    rewrite E. split; [reflexivity|].
    split; [|split; [reflexivity|split; [apply S, P|split;
                    [apply natural_or_infinite_number, P|repeat split]]]].
    destruct (exec_capture calorie_unit text (Some d) groupless_calorie_unit C)
      as (pre & d' & unit & post & Ed & Et & Nd & Dd & Mu).
    inversion Ed; subst d'. exists pre, unit, post. auto.
  - intros name text m M.
    destruct (parseInt_digit_run m (macro_re_digit_run name text m M)) as (d & -> & E & P).
    destruct (exec_capture (macro_unit name) text (Some d) (groupless_macro_unit name) M)
      as (pre & d' & unit & post & Ed & Et & Nd & Dd & Mu).
    inversion Ed; subst d'. exists d, pre, unit, post. rewrite E.
    repeat split; try assumption.
    + apply S, P.
    + apply natural_or_infinite_number, P.
Qed.

Lemma C8_regex_fallback_amended_witness :
  strict_decoding_fails example_text
  /\ exec calorie_re example_text = Some (Some (js "450"))
  /\ exists (r : AIAnalysisResult) (digits : jsstring),
       parseAIResponse example_text = Ret r
       /\ Some (js "450") = Some digits
       /\ (exists pre unit post,
             example_text = pre ++ digits ++ unit ++ post
             /\ digits <> [] /\ forallb is_digit digits = true
             /\ matches calorie_unit unit)
       /\ calories r = number_for (inject_Z (digits_value 0 digits))
       /\ ((digits_value 0 digits < 2 ^ 53)%Z ->
           calories r = Fin (inject_Z (digits_value 0 digits)))
       /\ natural_or_infinite (calories r)
       /\ protein r = match exec protein_re example_text with
                      | Some m => parseInt_group m
                      | None => Fin 20
                      end
       /\ carbs r = match exec carbs_re example_text with
                    | Some m => parseInt_group m
                    | None => Fin 30
                    end
       /\ fat r = match exec fat_re example_text with
                  | Some m => parseInt_group m
                  | None => Fin 10
                  end
       /\ explanation r = VStr (firstn 500 example_text)
       /\ confidence r = VNum (number_for 0.6)
       /\ sources r = VArr [].
Proof.
  assert (F : strict_decoding_fails example_text) by (left; reflexivity).
  split; [exact F|]. split; [reflexivity|].
  apply (proj1 C8_regex_fallback_amended example_text (Some (js "450")) F). reflexivity.
Defined.

(** ** The entry point *)

Lemma natural_is_whole (n : number) :
  natural_or_infinite n -> integer_or_infinite n.
Proof.
  intros [(z & _ & ->) | ->]; [left | right]; eexists; reflexivity.
Qed.

(** The parser returns or throws PARSE_ERROR; it sends nothing. *)
Lemma parseAIResponse_cases (content : jsstring) :
  (exists r, parseAIResponse content = Ret r /\ actual_result content r)
  \/ (parseAIResponse content
      = Throw (ThrownAPIError
                 (createAPIError
                    (js "Could not extract calorie information from AI response")
                    "PARSE_ERROR" false))
      /\ strict_decoding_fails content /\ exec calorie_re content = None).
Proof.
  unfold parseAIResponse. destruct (decode content) as [r|] eqn:D.
  - left. exists r. split; [reflexivity|].
    unfold decode in D.
    destruct (JSON_parse content) as [parsed|] eqn:P; [|discriminate].
    destruct (get parsed (js "calories")) as [v1|] eqn:G1; [|discriminate].
    destruct (get parsed (js "protein")) as [v2|] eqn:G2; [|discriminate].
    destruct (get parsed (js "carbs")) as [v3|] eqn:G3; [|discriminate].
    destruct (get parsed (js "fat")) as [v4|] eqn:G4; [|discriminate].
    destruct v1 as [| | | qc | | |]; try discriminate.
    destruct v2 as [| | | qp | | |]; try discriminate.
    destruct v3 as [| | | qb | | |]; try discriminate.
    destruct v4 as [| | | qf | | |]; try discriminate.
    cbn [is_number] in D.
    destruct (get parsed (js "explanation")) as [ve|]; [|discriminate].
    destruct (get parsed (js "confidence")) as [vc|] eqn:GC; [|discriminate].
    destruct (get parsed (js "sources")) as [vs|]; [|discriminate].
    inversion D; subst r. cbn [calories protein carbs fat].
    split; [apply Math_round_whole, (JSON_parse_not_nan content parsed _ qc P G1)|].
    split; [apply Math_round_whole, (JSON_parse_not_nan content parsed _ qp P G2)|].
    split; [apply Math_round_whole, (JSON_parse_not_nan content parsed _ qb P G3)|].
    split; [apply Math_round_whole, (JSON_parse_not_nan content parsed _ qf P G4)|].
    right. exists parsed, qc, qp, qb, qf, vc. repeat split; assumption.
  - destruct (extractNutritionFromText content) as [r|t|req k] eqn:E.
    + left. exists r. split; [reflexivity|].
      apply extract_result in E as (g & C & ->).
      cbn [calories protein carbs fat].
      assert (N1 : natural_or_infinite (parseInt_group g))
        by apply natural_or_infinite_group, (calorie_re_digit_run content g C).
      assert (N2 : natural_or_infinite match exec protein_re content with
                                       | Some m => parseInt_group m
                                       | None => Fin 20
                                       end).
      { destruct (exec protein_re content) as [m|] eqn:M.
        - apply natural_or_infinite_group, (macro_re_digit_run "protein" content m M).
        - apply (natural_or_infinite_const 20). lia. }
      assert (N3 : natural_or_infinite match exec carbs_re content with
                                       | Some m => parseInt_group m
                                       | None => Fin 30
                                       end).
      { destruct (exec carbs_re content) as [m|] eqn:M.
        - apply natural_or_infinite_group, (macro_re_digit_run "carb" content m M).
        - apply (natural_or_infinite_const 30). lia. }
      assert (N4 : natural_or_infinite match exec fat_re content with
                                       | Some m => parseInt_group m
                                       | None => Fin 10
                                       end).
      { destruct (exec fat_re content) as [m|] eqn:M.
        - apply natural_or_infinite_group, (macro_re_digit_run "fat" content m M).
        - apply (natural_or_infinite_const 10). lia. }
      repeat (split; [apply natural_is_whole; assumption|]).
      left. split; [apply decode_none_iff, D|].
      split; [exact N1|]. split; [exact N2|]. split; [exact N3|]. split; [exact N4|].
      split; [reflexivity|]. exists g. auto.
    + right. unfold extractNutritionFromText in E.
      destruct (exec calorie_re content) as [g|] eqn:C; [discriminate|].
      inversion E. split; [reflexivity|]. split; [|reflexivity].
      apply decode_none_iff, D.
    + unfold extractNutritionFromText in E.
      destruct (exec calorie_re content); discriminate.
Qed.

(** The shape of a call with a meal text that is not blank: one request,
    and after its reply a result or a classified error, nothing more. *)
Lemma analyzeNutrition_shape (config : EnvConfig) (mealText : jsstring) :
  blank mealText = false ->
  exists k : HttpReply -> Prog AIAnalysisResult,
    analyzeNutrition config mealText = Post (request_for config mealText) k
    /\ (forall t, k (Failure t) = Throw (ThrownAPIError (handleAPIError t)))
    /\ (forall data,
          first_content data = None ->
          k (Response data) = Throw (ThrownAPIError (handleAPIError type_error)))
    /\ (forall data,
          first_content data = Some None \/ first_content data = Some (Some []) ->
          k (Response data) = Throw (ThrownAPIError (handleAPIError empty_response)))
    /\ (forall data content t,
          first_content data = Some (Some content) -> content <> [] ->
          parseAIResponse content = Throw t ->
          k (Response data) = Throw (ThrownAPIError (handleAPIError t)))
    /\ (forall data content r,
          first_content data = Some (Some content) -> content <> [] ->
          parseAIResponse content = Ret r ->
          exists r', k (Response data) = Ret r' /\ same_figures r' r).
Proof.
  intros B. rewrite (analyzeNutrition_nonblank config mealText B).
  unfold request_for.
  destruct (provider (getCurrentProviderConfig config)).
  - unfold analyzeWithOpenRouter. cbn [bind axios_post try_catch].
    eexists. split; [reflexivity|]. cbn beta.
    split; [intros t; reflexivity|].
    split; [intros data F; cbn [bind try_catch]; rewrite F; reflexivity|].
    split; [intros data [F|F]; cbn [bind try_catch]; rewrite F; reflexivity|].
    split.
    + intros data content t F N P. cbn [bind try_catch]. rewrite F.
      destruct content as [|c content]; [congruence|]. rewrite P. reflexivity.
    + intros data content r F N P. cbn [bind try_catch]. rewrite F.
      destruct content as [|c content]; [congruence|]. rewrite P.
      exists r. split; [reflexivity|]. repeat split.
  - unfold analyzeWithPerplexity. cbn [bind axios_post try_catch].
    eexists. split; [reflexivity|]. cbn beta.
    split; [intros t; reflexivity|].
    split; [intros data F; cbn [bind try_catch]; rewrite F; reflexivity|].
    split; [intros data [F|F]; cbn [bind try_catch]; rewrite F; reflexivity|].
    split.
    + intros data content t F N P. cbn [bind try_catch]. rewrite F.
      destruct content as [|c content]; [congruence|]. rewrite P. reflexivity.
    + intros data content r F N P. cbn [bind try_catch]. rewrite F.
      destruct content as [|c content]; [congruence|]. rewrite P. cbn [bind].
      match goal with
      | |- context [if ?b then _ else _] => destruct b
      end; cbn [try_catch]; eexists; (split; [reflexivity|]); repeat split.
Qed.

Lemma exec_prog_post {A : Type} (http : Request -> HttpReply) (req : Request)
      (k : HttpReply -> Prog A) :
  exec_prog http (Post req k)
  = (req :: fst (exec_prog http (k (http req))), snd (exec_prog http (k (http req)))).
Proof.
  cbn [exec_prog]. destruct (exec_prog http (k (http req))). reflexivity.
Qed.

(** C1 as the specification states it fails: a reply whose JSON carries a
    negative calorie figure and a confidence of 5 is returned as it is. *)
Lemma C1_counterexample :
  blank (js "apple") = false
  /\ snd (exec_prog (fun _ => Response (completion negative_json None))
                    (analyzeNutrition (config None None) (js "apple")))
     = Resolved {| calories := Fin (-5); protein := Fin 1; carbs := Fin 2; fat := Fin 3;
                   explanation := VStr (js "No explanation provided");
                   confidence := VNum (Fin 5); sources := VArr [] |}
  /\ ~ claimed_outcome
         (snd (exec_prog (fun _ => Response (completion negative_json None))
                         (analyzeNutrition (config None None) (js "apple")))).
Proof.
  split; [reflexivity|].
  assert (E : snd (exec_prog (fun _ => Response (completion negative_json None))
                             (analyzeNutrition (config None None) (js "apple")))
              = Resolved {| calories := Fin (-5); protein := Fin 1; carbs := Fin 2;
                            fat := Fin 3;
                            explanation := VStr (js "No explanation provided");
                            confidence := VNum (Fin 5); sources := VArr [] |})
    by (vm_compute; reflexivity).
  split; [exact E|]. rewrite E.
  intros [(r & R & (z & Z0 & C) & _) | (e & R & _)]; [|discriminate].
  inversion R; subst r. cbn [calories] in C. inversion C. lia.
Qed.

(** C1, amended. For every meal text that is not blank, [analyzeNutrition]
    sends one request and either resolves or rejects.  It resolves only on a
    response whose first choice carries a text that is not empty, to a result
    made of that text, whose four macro fields are integers or infinities:
    when the text passes the strict JSON decoding, its decoded numbers
    rounded, of either sign, with the decoded confidence when truthy and 0.8
    when not; when it does not, the figures of the regex fallback, each a
    non-negative integer or the positive infinity, with confidence 0.6.  It
    rejects with an error whose code is one of the ten defined kinds (one of
    the seven the classifier answers). *)
Theorem C1_outcome_amended (config : EnvConfig) (http : Request -> HttpReply)
        (mealText : jsstring) :
  blank mealText = false ->
  fst (exec_prog http (analyzeNutrition config mealText)) = [request_for config mealText]
  /\ actual_outcome (http (request_for config mealText))
                    (snd (exec_prog http (analyzeNutrition config mealText))).
Proof.
  intros B.
  destruct (analyzeNutrition_shape config mealText B)
    as (k & E & KF & KT & KE & KP & KR).
  rewrite E, exec_prog_post. cbn [fst snd].
  assert (O : forall reply t,
             actual_outcome reply
               (Rejected (A := AIAnalysisResult) (ThrownAPIError (handleAPIError t)))).
  { intros reply t. right. eexists. split; [reflexivity|].
    pose proof (proj1 (handleAPIError_kind t)) as K.
    split; [exact K | apply classifier_kinds_known, K]. }
  destruct (http (request_for config mealText)) as [data|t] eqn:H.
  - destruct (first_content data) as [[content|]|] eqn:F.
    + destruct content as [|c content].
      * rewrite (KE data (or_intror F)). cbn [exec_prog fst snd]. auto.
      * destruct (parseAIResponse_cases (c :: content)) as [(r & P & R) | (P & _)].
        -- destruct (KR data (c :: content) r F ltac:(discriminate) P)
             as (r' & -> & S).
           cbn [exec_prog fst snd]. split; [reflexivity|].
           left. exists data, (c :: content), r'.
           split; [reflexivity|]. split; [exact F|]. split; [discriminate|].
           split; [reflexivity|].
           destruct S as (S1 & S2 & S3 & S4 & S5 & _).
           destruct R as (I1 & I2 & I3 & I4 & R).
           unfold actual_result, fallback_result, strict_result in *.
           rewrite S1, S2, S3, S4, S5. auto.
        -- rewrite (KP data (c :: content) _ F ltac:(discriminate) P).
           cbn [exec_prog fst snd]. auto.
    + rewrite (KE data (or_introl F)). cbn [exec_prog fst snd]. auto.
    + rewrite (KT data F). cbn [exec_prog fst snd]. auto.
  - rewrite (KF t). cbn [exec_prog fst snd]. auto.
Qed.

Lemma C1_outcome_amended_witness :
  blank (js "apple") = false
  /\ fst (exec_prog (fun _ => Response (completion negative_json None))
                    (analyzeNutrition (config None None) (js "apple")))
     = [request_for (config None None) (js "apple")]
  /\ actual_outcome
       (Response (completion negative_json None))
       (snd (exec_prog (fun _ => Response (completion negative_json None))
                       (analyzeNutrition (config None None) (js "apple")))).
Proof.
  split; [reflexivity|].
  apply (C1_outcome_amended (config None None)
           (fun _ => Response (completion negative_json None)) (js "apple")).
  reflexivity.
Defined.

(** C2 fails on the code. When the reply carries no assistant content, or
    content from which neither decoding nor the calorie pattern recovers a
    figure, the error thrown inside ([EMPTY_RESPONSE], [PARSE_ERROR]) is caught
    by the handler of [analyzeNutrition] itself and classified again: the
    caller receives UNKNOWN_ERROR with retryable = false in both cases. *)
Theorem C2_inner_errors_reclassified (config : EnvConfig) (http : Request -> HttpReply)
        (mealText : jsstring) (data : ResponseData) :
  blank mealText = false ->
  http (request_for config mealText) = Response data ->
  (first_content data = Some None \/ first_content data = Some (Some []))
  \/ (exists content,
        first_content data = Some (Some content) /\ content <> []
        /\ strict_decoding_fails content /\ exec calorie_re content = None) ->
  exec_prog http (analyzeNutrition config mealText)
  = ([request_for config mealText], Rejected (ThrownAPIError unknown_error))
  /\ is_error unknown_error "UNKNOWN_ERROR" false.
Proof.
  intros B H C. split; [|split; reflexivity].
  destruct (analyzeNutrition_shape config mealText B)
    as (k & E & _ & _ & KE & KP & _).
  rewrite E, exec_prog_post, H.
  destruct C as [C | (content & F & N & D & X)].
  - rewrite (KE data C). reflexivity.
  - destruct (parseAIResponse_cases content) as [(r & P & _) | (P & _)].
    + exfalso. unfold parseAIResponse in P. apply decode_none_iff in D.
      rewrite D in P. unfold extractNutritionFromText in P. rewrite X in P.
      discriminate.
    + rewrite (KP data content _ F N P). reflexivity.
Qed.

Lemma C2_inner_errors_reclassified_witness :
  (exec_prog (fun _ => Response (completion (js "I cannot determine this.") None))
             (analyzeNutrition (config None None) (js "apple"))
   = ([request_for (config None None) (js "apple")],
      Rejected (ThrownAPIError unknown_error))
   /\ is_error unknown_error "UNKNOWN_ERROR" false)
  /\ (exec_prog (fun _ => Response {| choices := Some [ {| choice_message :=
                                        Some {| content := None |} |} ];
                                      citations := None |})
                (analyzeNutrition (config None None) (js "apple"))
      = ([request_for (config None None) (js "apple")],
         Rejected (ThrownAPIError unknown_error))
      /\ is_error unknown_error "UNKNOWN_ERROR" false).
Proof.
  split.
  - apply (C2_inner_errors_reclassified (config None None)
             (fun _ => Response (completion (js "I cannot determine this.") None))
             (js "apple") (completion (js "I cannot determine this.") None)).
    + reflexivity.
    + reflexivity.
    + right. exists (js "I cannot determine this.").
      split; [reflexivity|]. split; [discriminate|].
      split; [left; reflexivity | reflexivity].
  - apply (C2_inner_errors_reclassified (config None None)
             (fun _ => Response {| choices := Some [ {| choice_message :=
                                     Some {| content := None |} |} ];
                                   citations := None |})
             (js "apple")
             {| choices := Some [ {| choice_message := Some {| content := None |} |} ];
                citations := None |}).
    + reflexivity.
    + reflexivity.
    + left. left. reflexivity.
Defined.

(** ** Provider B *)

(** C9. On a successful analysis by the second provider: when the parsed
    result carries no sources (its list is empty, which is also what an absent
    member decodes to) and the envelope has a non-empty citations list, the
    returned result is the parsed one with that list as its sources; when the
    parsed result carries a non-empty list of sources (or any truthy value
    whose length is not 0), or the envelope has no citations, the parsed
    result is returned unchanged. *)
Theorem C9_citations_backfill (mealText : jsstring) (providerConfig : ProviderConfig)
        (http : Request -> HttpReply) (data : ResponseData) (content : jsstring)
        (r : AIAnalysisResult) :
  http (perplexity_request mealText providerConfig) = Response data ->
  first_content data = Some (Some content) ->
  content <> [] ->
  parseAIResponse content = Ret r ->
  (forall c cs,
      citations data = Some (c :: cs) ->
      sources r = VArr [] \/ truthy (sources r) = false ->
      exec_prog http (analyzeWithPerplexity mealText providerConfig)
      = ([perplexity_request mealText providerConfig],
         Resolved (set_sources r (VArr (c :: cs))))
      /\ sources (set_sources r (VArr (c :: cs))) = VArr (c :: cs)
      /\ same_figures (set_sources r (VArr (c :: cs))) r)
  /\ (forall s ss,
        sources r = VArr (s :: ss) ->
        exec_prog http (analyzeWithPerplexity mealText providerConfig)
        = ([perplexity_request mealText providerConfig], Resolved r))
  /\ (truthy (sources r) = true -> length_is_zero (sources r) = false ->
      exec_prog http (analyzeWithPerplexity mealText providerConfig)
      = ([perplexity_request mealText providerConfig], Resolved r))
  /\ (citations data = None \/ citations data = Some [] ->
      exec_prog http (analyzeWithPerplexity mealText providerConfig)
      = ([perplexity_request mealText providerConfig], Resolved r)).
Proof.
  intros H F N P.
  assert (E : exec_prog http (analyzeWithPerplexity mealText providerConfig)
              = ([perplexity_request mealText providerConfig],
                 Resolved
                   (if (0 <? List.length match citations data with
                                         | Some l => l
                                         | None => []
                                         end)%nat
                       && (negb (truthy (sources r)) || length_is_zero (sources r))
                    then set_sources r (VArr match citations data with
                                             | Some l => l
                                             | None => []
                                             end)
                    else r))).
  { unfold analyzeWithPerplexity. cbn [bind axios_post]. rewrite exec_prog_post, H.
    cbn [bind]. rewrite F. destruct content as [|c content]; [congruence|].
    rewrite P. cbn [bind].
    match goal with
    | |- context [if ?b then _ else _] => destruct b
    end; reflexivity. }
  rewrite E. split; [|split; [|split]].
  - intros c cs C [S|S]; rewrite C, S; repeat split.
  - intros s ss S. rewrite S. cbn [truthy negb orb length_is_zero get_length].
    replace (Qeq_bool (inject_Z (Z.of_nat (List.length (s :: ss)))) 0) with false.
    + rewrite andb_false_r. reflexivity.
    + symmetry. apply not_true_is_false. intros Q. apply Qeq_bool_eq in Q.
      unfold Qeq in Q. simpl in Q. lia.
  - intros T Z. rewrite T, Z. cbn [negb orb]. rewrite andb_false_r. reflexivity.
  - intros [C|C]; rewrite C; reflexivity.
Qed.

Lemma C9_citations_backfill_witness :
  let content := jsq "{'calories':95,'protein':0.5,'carbs':25,'fat':0.3}" in
  let cited := jsq "{'calories':95,'protein':0.5,'carbs':25,'fat':0.3,'sources':['USDA']}" in
  let cites := [VStr (js "https://fdc.nal.usda.gov")] in
  let pc := getCurrentProviderConfig (config None None) in
  exec_prog (fun _ => Response (completion content (Some cites)))
            (analyzeWithPerplexity (js "apple") pc)
  = ([perplexity_request (js "apple") pc],
     Resolved {| calories := Fin 95; protein := Fin 1; carbs := Fin 25; fat := Fin 0;
                 explanation := VStr (js "No explanation provided");
                 confidence := VNum (number_for 0.8); sources := VArr cites |})
  /\ exec_prog (fun _ => Response (completion cited (Some cites)))
               (analyzeWithPerplexity (js "apple") pc)
     = ([perplexity_request (js "apple") pc],
        Resolved {| calories := Fin 95; protein := Fin 1; carbs := Fin 25; fat := Fin 0;
                    explanation := VStr (js "No explanation provided");
                    confidence := VNum (number_for 0.8); sources := VArr [VStr (js "USDA")] |}).
Proof.
  intros content cited cites pc. split.
  - apply (proj1 (C9_citations_backfill (js "apple") pc
                    (fun _ => Response (completion content (Some cites)))
                    (completion content (Some cites)) content
                    {| calories := Fin 95; protein := Fin 1; carbs := Fin 25;
                       fat := Fin 0;
                       explanation := VStr (js "No explanation provided");
                       confidence := VNum (number_for 0.8); sources := VArr [] |}
                    eq_refl eq_refl ltac:(discriminate) eq_refl)
             (VStr (js "https://fdc.nal.usda.gov")) []).
    + reflexivity.
    + left. reflexivity.
  - apply (proj1 (proj2 (C9_citations_backfill (js "apple") pc
                    (fun _ => Response (completion cited (Some cites)))
                    (completion cited (Some cites)) cited
                    {| calories := Fin 95; protein := Fin 1; carbs := Fin 25;
                       fat := Fin 0;
                       explanation := VStr (js "No explanation provided");
                       confidence := VNum (number_for 0.8); sources := VArr [VStr (js "USDA")] |}
                    eq_refl eq_refl ltac:(discriminate) eq_refl))
             (VStr (js "USDA")) []).
    reflexivity.
Defined.

(** ** Debounce coordinator *)

Lemma settle_length (p : nat) (s : settled AIAnalysisResult) (ps : list promise_state) :
  List.length (settle p s ps) = List.length ps.
Proof.
  revert p. induction ps as [|x ps IH]; intros p; [destruct p; reflexivity|].
  destruct p as [|p]; cbn [settle].
  - destruct x; reflexivity.
  - destruct x; cbn [List.length]; rewrite IH; reflexivity.
Qed.

Lemma settle_other (p q : nat) (s : settled AIAnalysisResult) (ps : list promise_state) :
  p <> q -> nth_error (settle q s ps) p = nth_error ps p.
Proof.
  revert p q. induction ps as [|x ps IH]; intros p q N; [destruct q; reflexivity|].
  destruct q as [|q]; cbn [settle].
  - destruct p as [|p]; [congruence|]. destruct x; reflexivity.
  - destruct p as [|p]; [destruct x; reflexivity|].
    destruct x; cbn [nth_error]; apply IH; congruence.
Qed.

Lemma settle_pending (q : nat) (s : settled AIAnalysisResult) (ps : list promise_state) :
  nth_error ps q = Some Pending -> nth_error (settle q s ps) q = Some (Done s).
Proof.
  revert q. induction ps as [|x ps IH]; intros q H; [destruct q; discriminate|].
  destruct q as [|q]; cbn [settle nth_error] in *.
  - inversion H; subst x. reflexivity.
  - destruct x; cbn [nth_error]; apply IH, H.
Qed.

Lemma analyzeNutrition_final (config : EnvConfig) (text : jsstring) :
  blank text = false ->
  exists k, analyzeNutrition config text = Post (request_for config text) k
            /\ final_step k.
Proof.
  intros B.
  destruct (analyzeNutrition_shape config text B) as (k & E & KF & KT & KE & KP & KR).
  exists k. split; [exact E|].
  intros [data|t]; [|right; eexists; apply KF].
  destruct (first_content data) as [[content|]|] eqn:F.
  - destruct content as [|c content].
    + right. eexists. apply KE. auto.
    + destruct (parseAIResponse_cases (c :: content)) as [(r & P & _) | (P & _)].
      * destruct (KR data (c :: content) r F ltac:(discriminate) P) as (r' & R & _).
        left. eauto.
      * right. eexists. apply (KP data (c :: content) _ F ltac:(discriminate) P).
  - right. eexists. apply KE. auto.
  - right. eexists. apply KT, F.
Qed.

Lemma filter_due_none (t : nat) (l : list Timer) :
  Forall (fun x => t < deadline x) l ->
  filter (fun x => (deadline x <=? t)%nat) l = []
  /\ filter (fun x => negb (deadline x <=? t)%nat) l = l.
Proof.
  induction 1 as [|x l Hx Hl [IH1 IH2]]; [split; reflexivity|].
  cbn [filter]. apply Nat.leb_gt in Hx. rewrite Hx. cbn [negb].
  rewrite IH1, IH2. split; reflexivity.
Qed.

(** A tick with no timer due only moves the clock. *)
Lemma tick_idle (config : EnvConfig) (w : World) :
  Forall (fun x => S (now w) < deadline x) (timers w) ->
  tick config w
  = {| now := S (now w); timers := timers w; timers_made := timers_made w;
       timeoutId := timeoutId w; currentController := currentController w;
       controllers_made := controllers_made w; aborted := aborted w;
       inflight := inflight w; promises := promises w;
       dispatched := dispatched w |}.
Proof.
  intros H. unfold tick.
  destruct (filter_due_none (S (now w)) (timers w) H) as [D R].
  rewrite D, R. reflexivity.
Qed.

(** A tick at which the one armed timer is due runs its callback. *)
Lemma tick_fire (config : EnvConfig) (w : World) (t : Timer) :
  timers w = [t] -> deadline t <= S (now w) ->
  tick config w
  = drive (timer_promise t) (analyzeNutrition config (timer_text t))
      {| now := S (now w); timers := []; timers_made := timers_made w;
         timeoutId := timeoutId w;
         currentController := Some (S (controllers_made w));
         controllers_made := S (controllers_made w); aborted := aborted w;
         inflight := inflight w; promises := promises w;
         dispatched := dispatched w |}.
Proof.
  intros T D. unfold tick. rewrite T. cbn [filter].
  apply Nat.leb_le in D. rewrite D. cbn [negb fold_left]. reflexivity.
Qed.

Lemma remove_nth_Forall {A : Type} (P : A -> Prop) (i : nat) (l : list A) :
  Forall P l -> Forall P (remove_nth i l).
Proof.
  intros H. revert i. induction H as [|x l Hx Hl IH]; intros i.
  - destruct i; constructor.
  - destruct i as [|i]; cbn [remove_nth]; [exact Hl|]. constructor; auto.
Qed.

Lemma remove_nth_app {A : Type} (i : nat) (l l' : list A) :
  i < List.length l -> remove_nth i (l ++ l') = remove_nth i l ++ l'.
Proof.
  revert i. induction l as [|x l IH]; intros i H; cbn [List.length] in H; [lia|].
  destruct i as [|i]; cbn [remove_nth app]; [reflexivity|].
  rewrite IH by lia. reflexivity.
Qed.

Lemma remove_nth_last {A : Type} (l : list A) (x : A) :
  remove_nth (List.length l) (l ++ [x]) = l.
Proof.
  induction l as [|y l IH]; cbn [List.length remove_nth app]; [reflexivity|].
  rewrite IH. reflexivity.
Qed.

Lemma old_inflight_nth (n0 : nat) (fs : list Inflight) (i : nat) (f : Inflight) :
  old_inflight n0 fs -> nth_error fs i = Some f ->
  waiter f < n0 /\ final_step (resume f).
Proof.
  intros H E. apply nth_error_In in E.
  unfold old_inflight in H. rewrite Forall_forall in H. apply H, E.
Qed.

Lemma old_inflight_mono (n0 n1 : nat) (fs : list Inflight) :
  n0 <= n1 -> old_inflight n0 fs -> old_inflight n1 fs.
Proof.
  intros L H. unfold old_inflight in *. eapply Forall_impl; [|exact H].
  intros f [W K]. split; [lia | exact K].
Qed.

(** The reply to a request of an earlier call settles that call's promise
    and touches nothing else. *)
Lemma reply_old (i : nat) (r : HttpReply) (w : World) (f : Inflight) :
  nth_error (inflight w) i = Some f -> final_step (resume f) ->
  exists s,
    reply i r w
    = {| now := now w; timers := timers w; timers_made := timers_made w;
         timeoutId := timeoutId w; currentController := currentController w;
         controllers_made := controllers_made w; aborted := aborted w;
         inflight := remove_nth i (inflight w);
         promises := settle (waiter f) s (promises w);
         dispatched := dispatched w |}.
Proof.
  intros E K. unfold reply. rewrite E.
  destruct (K r) as [(res & ->) | (t & ->)]; cbn [drive now timers timers_made
    timeoutId currentController controllers_made aborted inflight promises dispatched];
    eexists; reflexivity.
Qed.

Section Settling.
Variables (config : EnvConfig) (delayMs : nat) (sent0 : list Request) (n0 n : nat)
          (text : jsstring) (t0 : nat).

Ltac open_settling :=
  unfold settling, timer_armed, request_flying, call_over;
  cbn [now timers timeoutId inflight dispatched promises].

Lemma settling_tick (w : World) :
  settling config delayMs sent0 n0 n text t0 w ->
  settling config delayMs sent0 n0 n text t0 (tick config w)
  /\ now (tick config w) = S (now w).
Proof.
  intros (L & Ln & P & T & [A | [F | O]]).
  - destruct A as ((id & Ti & Id) & I & D & Pn & N).
    destruct (Nat.le_gt_cases (t0 + delayMs) (S (now w))) as [Due | Early].
    + rewrite (tick_fire config w _ Ti Due). cbn [timer_promise timer_text].
      destruct (blank text) eqn:B.
      * rewrite (analyzeNutrition_blank config text B). unfold empty_input.
        cbn [drive]. open_settling. rewrite B, D.
        split; [|reflexivity].
        split; [rewrite settle_length; exact L|]. split; [exact Ln|].
        split; [intros p Hp; rewrite settle_other by lia; apply P, Hp|].
        split; [lia|].
        right. right. rewrite app_nil_r. repeat split; try lia; try assumption.
        eexists. apply settle_pending, Pn.
      * destruct (analyzeNutrition_final config text B) as (k & E & K).
        rewrite E. cbn [drive]. open_settling. rewrite D.
        split; [|reflexivity].
        split; [exact L|]. split; [exact Ln|]. split; [exact P|]. split; [lia|].
        right. left. repeat split; try lia; try assumption.
        exists (inflight w), k. repeat split; assumption.
    + rewrite tick_idle by (rewrite Ti; repeat constructor; exact Early).
      open_settling. split; [|reflexivity].
      split; [exact L|]. split; [exact Ln|]. split; [exact P|]. split; [lia|].
      left. repeat split; try assumption; [exists id; auto | lia].
  - destruct F as (Ti & B & D & K & Pn & N1 & N2).
    rewrite tick_idle by (rewrite Ti; constructor).
    open_settling. split; [|reflexivity].
    split; [exact L|]. split; [exact Ln|]. split; [exact P|]. split; [lia|].
    right. left. repeat split; try assumption; lia.
  - destruct O as (Ti & I & D & S & N1 & N2).
    rewrite tick_idle by (rewrite Ti; constructor).
    open_settling. split; [|reflexivity].
    split; [exact L|]. split; [exact Ln|]. split; [exact P|]. split; [lia|].
    right. right. repeat split; try assumption; lia.
Qed.

Lemma settling_wait (ms : nat) (w : World) :
  settling config delayMs sent0 n0 n text t0 w ->
  settling config delayMs sent0 n0 n text t0 (Nat.iter ms (tick config) w)
  /\ now (Nat.iter ms (tick config) w) = now w + ms.
Proof.
  intros H. induction ms as [|ms [IH N]].
  - change (Nat.iter 0 (tick config) w) with w. split; [exact H | lia].
  - rewrite Nat.iter_succ.
    destruct (settling_tick _ IH) as [S1 S2]. split; [exact S1 | lia].
Qed.

Lemma settling_reply (i : nat) (r : HttpReply) (w : World) :
  settling config delayMs sent0 n0 n text t0 w ->
  settling config delayMs sent0 n0 n text t0 (reply i r w)
  /\ now (reply i r w) = now w.
Proof.
  intros H. pose proof H as (L & Ln & P & T & C).
  destruct (nth_error (inflight w) i) as [f|] eqn:E;
    [|unfold reply; rewrite E; split; [exact H | reflexivity]].
  (* the reply to a request of an earlier call *)
  assert (Old : forall olds,
             old_inflight n0 olds -> nth_error olds i = Some f ->
             nth_error olds i = nth_error (inflight w) i ->
             exists s,
               reply i r w
               = {| now := now w; timers := timers w; timers_made := timers_made w;
                    timeoutId := timeoutId w;
                    currentController := currentController w;
                    controllers_made := controllers_made w; aborted := aborted w;
                    inflight := remove_nth i (inflight w);
                    promises := settle (waiter f) s (promises w);
                    dispatched := dispatched w |}
               /\ waiter f < n0).
  { intros olds O Ef _. destruct (old_inflight_nth n0 olds i f O Ef) as [Wf Kf].
    destruct (reply_old i r w f E Kf) as (s & R). exists s. auto. }
  destruct C as [A | [F | O]].
  - destruct A as (Ti & I & D & Pn & N).
    destruct (Old (inflight w) I E eq_refl) as (s & -> & Wf).
    open_settling. split; [|reflexivity].
    split; [rewrite settle_length; exact L|]. split; [exact Ln|].
    split; [intros p Hp; rewrite settle_other by lia; apply P, Hp|].
    split; [exact T|]. left. repeat split; try assumption.
    + apply remove_nth_Forall, I.
    + rewrite settle_other by lia. exact Pn.
  - destruct F as (Ti & B & D & (olds & k & I & Io & K) & Pn & N1 & N2).
    destruct (Nat.lt_ge_cases i (List.length olds)) as [Lt | Ge].
    + assert (Eo : nth_error olds i = Some f).
      { rewrite I, nth_error_app1 in E by exact Lt. exact E. }
      destruct (Old olds Io Eo ltac:(congruence)) as (s & -> & Wf).
      open_settling. split; [|reflexivity].
      split; [rewrite settle_length; exact L|]. split; [exact Ln|].
      split; [intros p Hp; rewrite settle_other by lia; apply P, Hp|].
      split; [exact T|]. right. left. repeat split; try assumption.
      * exists (remove_nth i olds), k. rewrite I, remove_nth_app by exact Lt.
        repeat split; [apply remove_nth_Forall, Io | exact K].
      * rewrite settle_other by lia. exact Pn.
    + rewrite I, nth_error_app2 in E by exact Ge.
      destruct (i - List.length olds) as [|d] eqn:Ed;
        [|destruct d; discriminate E].
      cbn [nth_error] in E. inversion E; subst f. clear E.
      assert (i = List.length olds) by lia. subst i.
      assert (Ef : nth_error (inflight w) (List.length olds)
                   = Some {| sent := request_for config text; waiter := n;
                             resume := k |}).
      { rewrite I, nth_error_app2, Nat.sub_diag by lia. reflexivity. }
      destruct (reply_old _ r w _ Ef K) as (s & ->). cbn [waiter].
      open_settling. rewrite B, D, I, remove_nth_last. split; [|reflexivity].
      split; [rewrite settle_length; exact L|]. split; [exact Ln|].
      split; [intros p Hp; rewrite settle_other by lia; apply P, Hp|].
      split; [exact T|]. right. right. repeat split; try assumption.
      eexists. apply settle_pending, Pn.
  - destruct O as (Ti & I & D & (s0 & Pn) & N1 & N2).
    destruct (Old (inflight w) I E eq_refl) as (s & -> & Wf).
    open_settling. split; [|reflexivity].
    split; [rewrite settle_length; exact L|]. split; [exact Ln|].
    split; [intros p Hp; rewrite settle_other by lia; apply P, Hp|].
    split; [exact T|]. right. right. repeat split; try assumption.
    + apply remove_nth_Forall, I.
    + exists s0. rewrite settle_other by lia. exact Pn.
Qed.

Lemma settling_quiet (es : list event) :
  quiet es ->
  forall w : World,
    settling config delayMs sent0 n0 n text t0 w ->
    settling config delayMs sent0 n0 n text t0 (run_events config delayMs es w)
    /\ now (run_events config delayMs es w) = now w + waited es.
Proof.
  unfold run_events.
  induction 1 as [|e es He Hes IH]; intros w H; cbn [fold_left waited].
  - split; [exact H | lia].
  - destruct e as [mealText | ms | i r]; [contradiction | |]; cbn [step].
    + destruct (settling_wait ms w H) as [S1 S2].
      destruct (IH _ S1) as [S3 S4]. split; [exact S3 | lia].
    + destruct (settling_reply i r w H) as [S1 S2].
      destruct (IH _ S1) as [S3 S4]. split; [exact S3 | lia].
Qed.
End Settling.

Lemma last_cons {A : Type} (x d : A) (l : list A) : last (x :: l) d = last l x.
Proof.
  revert x d. induction l as [|y l IH]; intros x d; [reflexivity|].
  change (last (x :: y :: l) d) with (last (y :: l) d).
  rewrite (IH y d), (IH y x). reflexivity.
Qed.

Section Burst.
Variables (config : EnvConfig) (delayMs : nat).

(** A call made when no timer is armed arms one. *)
Lemma first_call (text : jsstring) (w0 : World) :
  timers w0 = [] -> well_formed w0 ->
  settling config delayMs (dispatched w0) (List.length (promises w0))
           (List.length (promises w0)) text (now w0) (call delayMs text w0)
  /\ timer_armed delayMs (dispatched w0) (List.length (promises w0))
                 (List.length (promises w0)) text (now w0) (call delayMs text w0)
  /\ now (call delayMs text w0) = now w0.
Proof.
  intros Ti [_ I].
  assert (A : timer_armed delayMs (dispatched w0) (List.length (promises w0))
                (List.length (promises w0)) text (now w0) (call delayMs text w0)).
  { unfold timer_armed, call. rewrite Ti.
    cbn [now timers timeoutId inflight dispatched promises].
    assert (C : match timeoutId w0 with
                | Some id => clearTimeout id []
                | None => []
                end = []) by (destruct (timeoutId w0); reflexivity).
    rewrite C. cbn [app].
    split; [eexists; split; reflexivity|].
    split; [exact I|]. split; [reflexivity|].
    split; [|lia].
    rewrite nth_error_app2 by lia. rewrite Nat.sub_diag. reflexivity. }
  split; [|split; [exact A | reflexivity]].
  split; [unfold call; cbn [promises]; rewrite length_app; cbn; lia|].
  split; [lia|].
  split; [intros p Hp; lia|]. split; [unfold call; cbn [now]; lia|]. left. exact A.
Qed.

(** A call made while the timer of the call before is still armed disarms
    it and arms its own. *)
Lemma next_call (sent0 : list Request) (n0 n : nat) (text text' : jsstring)
      (t0 : nat) (w : World) :
  List.length (promises w) = S n -> n0 <= n ->
  (forall p, n0 <= p < n -> nth_error (promises w) p = Some Pending) ->
  timer_armed delayMs sent0 n0 n text t0 w ->
  settling config delayMs sent0 n0 (S n) text' (now w) (call delayMs text' w)
  /\ timer_armed delayMs sent0 n0 (S n) text' (now w) (call delayMs text' w)
  /\ now (call delayMs text' w) = now w.
Proof.
  intros L Ln P ((id & Ti & Id) & I & D & Pn & N).
  assert (A : timer_armed delayMs sent0 n0 (S n) text' (now w) (call delayMs text' w)).
  { unfold timer_armed, call. rewrite Id, Ti, L.
    cbn [now timers timeoutId inflight dispatched promises clearTimeout filter
         timer_id].
    rewrite Nat.eqb_refl. cbn [negb app].
    split; [eexists; split; reflexivity|].
    split; [exact I|]. split; [exact D|].
    split; [|lia].
    rewrite nth_error_app2 by lia. rewrite L, Nat.sub_diag. reflexivity. }
  split; [|split; [exact A | reflexivity]].
  split; [unfold call; cbn [promises]; rewrite length_app, L; cbn; lia|].
  split; [lia|].
  split; [|split; [unfold call; cbn [now]; lia | left; exact A]].
  intros p Hp. unfold call; cbn [promises].
  rewrite nth_error_app1 by lia.
  destruct (Nat.eq_dec p n) as [->|Ne]; [exact Pn | apply P; lia].
Qed.

(** After a burst the timer of its last call is the one armed, and no
    promise of the burst is settled. *)
Lemma burst_run (sent0 : list Request) (n0 : nat) (rest : list (nat * jsstring)) :
  within_window delayMs rest ->
  forall (n : nat) (text : jsstring) (w : World),
    settling config delayMs sent0 n0 n text (now w) w ->
    timer_armed delayMs sent0 n0 n text (now w) w ->
    let w' := run_events config delayMs (burst_events rest) w in
    settling config delayMs sent0 n0 (n + List.length rest)
             (last (map snd rest) text) (now w') w'
    /\ timer_armed delayMs sent0 n0 (n + List.length rest)
                   (last (map snd rest) text) (now w') w'.
Proof.
  unfold run_events.
  induction 1 as [|[g t] rest Hg Hrest IH]; intros n text w St A.
  - cbn [burst_events fold_left List.length map last]. rewrite Nat.add_0_r. auto.
  - cbn [burst_events fold_left step map List.length]. cbn [fst] in Hg.
    destruct (settling_wait config delayMs sent0 n0 n text (now w) g w St) as [S1 N1].
    assert (A1 : timer_armed delayMs sent0 n0 n text (now w)
                   (Nat.iter g (tick config) w)).
    { destruct S1 as (_ & _ & _ & _ & [A1 | [F | O]]); [exact A1 | |].
      - destruct F as (_ & _ & _ & _ & _ & F & _). lia.
      - destruct O as (_ & _ & _ & _ & O & _). lia. }
    destruct S1 as (L1 & Ln1 & P1 & _).
    destruct (next_call sent0 n0 n text t (now w) _ L1 Ln1 P1 A1) as (S2 & A2 & N2).
    rewrite <- N2 in S2, A2.
    specialize (IH (S n) t _ S2 A2). cbn zeta in IH.
    rewrite last_cons, Nat.add_succ_r. exact IH.
Qed.
End Burst.

(** *** Every state an instance reaches is well formed *)

Lemma well_formed_drive (p : nat) (prog : Prog AIAnalysisResult) (w : World) :
  well_formed w -> p < List.length (promises w) ->
  (forall req k, prog = Post req k -> final_step k) ->
  well_formed (drive p prog w)
  /\ List.length (promises (drive p prog w)) = List.length (promises w)
  /\ timers (drive p prog w) = timers w.
Proof.
  intros [T I] Hp K. unfold well_formed.
  destruct prog as [r|t|req k]; cbn [drive timers inflight promises].
  - rewrite settle_length. auto.
  - rewrite settle_length. auto.
  - repeat split; try assumption.
    apply Forall_app. split; [exact I|]. constructor; [|constructor].
    cbn [waiter resume]. split; [exact Hp | apply (K req k eq_refl)].
Qed.

Lemma analyzeNutrition_post_final (config : EnvConfig) (text : jsstring)
      (req : Request) (k : HttpReply -> Prog AIAnalysisResult) :
  analyzeNutrition config text = Post req k -> final_step k.
Proof.
  intros E. destruct (blank text) eqn:B.
  - rewrite (analyzeNutrition_blank config text B) in E. discriminate.
  - destruct (analyzeNutrition_final config text B) as (k' & E' & K).
    rewrite E' in E. inversion E; subst. exact K.
Qed.

Lemma well_formed_fires (config : EnvConfig) (due : list Timer) :
  forall w : World,
    well_formed w ->
    Forall (fun t => timer_promise t < List.length (promises w)) due ->
    well_formed (fold_left (fire config) due w)
    /\ List.length (promises (fold_left (fire config) due w))
       = List.length (promises w)
    /\ timers (fold_left (fire config) due w) = timers w.
Proof.
  induction due as [|t due IH]; intros w W D; cbn [fold_left]; [auto|].
  inversion D as [|? ? Dt Dd]; subst.
  assert (F : well_formed (fire config w t)
              /\ List.length (promises (fire config w t)) = List.length (promises w)
              /\ timers (fire config w t) = timers w).
  { unfold fire.
    match goal with
    | |- context [drive _ _ ?w1] =>
        apply (well_formed_drive (timer_promise t)
                 (analyzeNutrition config (timer_text t)) w1)
    end.
    - exact W.
    - exact Dt.
    - apply analyzeNutrition_post_final. }
  destruct F as (W1 & L1 & T1).
  destruct (IH (fire config w t) W1) as (W2 & L2 & T2).
  - rewrite L1. exact Dd.
  - split; [exact W2|]. split; congruence.
Qed.

Lemma well_formed_tick (config : EnvConfig) (w : World) :
  well_formed w -> well_formed (tick config w).
Proof.
  intros [T I]. unfold tick.
  apply well_formed_fires.
  - split; cbn [timers inflight promises]; [|exact I].
    unfold well_formed in T. rewrite Forall_forall in *.
    intros t Ht. apply filter_In in Ht as [Ht _]. apply T, Ht.
  - cbn [promises]. rewrite Forall_forall in *.
    intros t Ht. apply filter_In in Ht as [Ht _]. apply T, Ht.
Qed.

Lemma well_formed_call (delayMs : nat) (text : jsstring) (w : World) :
  well_formed w -> well_formed (call delayMs text w).
Proof.
  intros [T I]. unfold well_formed, call. cbn [timers inflight promises].
  rewrite length_app. cbn [List.length]. split.
  - apply Forall_app. split.
    + assert (M : Forall (fun t => timer_promise t < List.length (promises w) + 1)
                         (timers w)).
      { eapply Forall_impl; [|exact T]. intros t Ht. cbn beta in *. lia. }
      destruct (timeoutId w) as [id|]; [|exact M].
      unfold clearTimeout. rewrite Forall_forall in *.
      intros t Ht. apply filter_In in Ht as [Ht _]. apply M, Ht.
    + constructor; [cbn [timer_promise]; lia | constructor].
  - eapply old_inflight_mono; [|exact I]. lia.
Qed.

Lemma well_formed_reply (i : nat) (r : HttpReply) (w : World) :
  well_formed w -> well_formed (reply i r w).
Proof.
  intros W. destruct (nth_error (inflight w) i) as [f|] eqn:E;
    [|unfold reply; rewrite E; exact W].
  destruct W as [T I].
  destruct (old_inflight_nth _ _ i f I E) as [Wf Kf].
  destruct (reply_old i r w f E Kf) as (s & ->).
  unfold well_formed. cbn [timers inflight promises]. rewrite settle_length.
  split; [exact T | apply remove_nth_Forall, I].
Qed.

(** Whatever happened to the instance before, its state is well formed. *)
Lemma reachable_well_formed (config : EnvConfig) (delayMs : nat) (es : list event) :
  forall w : World,
    well_formed w -> well_formed (run_events config delayMs es w).
Proof.
  unfold run_events. induction es as [|e es IH]; intros w W; cbn [fold_left]; [exact W|].
  apply IH. destruct e as [mealText | ms | i r]; cbn [step].
  - apply well_formed_call, W.
  - induction ms as [|ms IHms]; [exact W|].
    rewrite Nat.iter_succ. apply well_formed_tick, IHms.
  - apply well_formed_reply, W.
Qed.

Lemma well_formed_init : well_formed init.
Proof. split; constructor. Qed.

(** C4 as the specification states it fails: when the last call of the
    burst carries a blank meal text, its timer runs and the call is rejected
    at the input guard, so no request at all is sent. *)
Lemma C4_counterexample :
  let rest := [(50, js "b"); (50, js " ")] in
  let w := run_events (config None None) 800
             (burst (js "a") rest ++ [Wait 800]) init in
  within_window 800 rest
  /\ dispatched w = []
  /\ List.length (dispatched w) <> 1
  /\ promise w 0 = Some Pending /\ promise w 1 = Some Pending
  /\ promise w 2 = Some (Done (Rejected empty_input)).
Proof.
  split; [repeat constructor; cbn [fst]; lia|].
  vm_compute. repeat split. discriminate.
Qed.

(** C4, amended. Take an analyzer instance after any history, at a moment
    when no timer is armed on it, and a burst of calls, each made before the
    timer of the call before it has run out, followed by any events other
    than a further call.  At most one request is ever sent for the burst: none
    before the window of the last call closes, and none at all when the last
    meal text is blank; once that window has closed exactly one has been sent
    when the last meal text is not blank, and it carries that text.  Every
    superseded call's promise stays pending for ever. *)
Theorem C4_debounce_amended (config : EnvConfig) (delayMs : nat)
        (history : list event) (first : jsstring) (rest : list (nat * jsstring))
        (later : list event) :
  let w0 := run_events config delayMs history init in
  let w := run_events config delayMs (burst first rest ++ later) w0 in
  let text := last_text first rest in
  let n0 := List.length (promises w0) in
  timers w0 = [] ->
  within_window delayMs rest ->
  quiet later ->
  (dispatched w = dispatched w0
   \/ dispatched w = dispatched w0 ++ [request_for config text])
  /\ (waited later < delayMs -> dispatched w = dispatched w0)
  /\ (blank text = true -> dispatched w = dispatched w0)
  /\ (blank text = false -> delayMs <= waited later -> 0 < waited later ->
      dispatched w = dispatched w0 ++ [request_for config text])
  /\ (forall i, i < List.length rest -> promise w (n0 + i) = Some Pending)
  /\ List.length (promises w) = n0 + S (List.length rest).
Proof.
  intros w0 w text n0 I W Q.
  assert (Wf : well_formed w0)
    by apply reachable_well_formed, well_formed_init.
  destruct (first_call config delayMs first w0 I Wf) as (S0 & A0 & N0).
  pose proof (burst_run config delayMs (dispatched w0) n0 rest W n0 first
                (call delayMs first w0)) as B.
  rewrite N0 in B. specialize (B S0 A0). cbn zeta in B. destruct B as [S1 A1].
  set (w1 := run_events config delayMs (burst_events rest) (call delayMs first w0))
    in *.
  destruct (settling_quiet config delayMs (dispatched w0) n0 (n0 + List.length rest)
              text (now w1) later Q w1 S1) as [S2 N2].
  assert (E : w = run_events config delayMs later w1).
  { unfold w, w1, run_events, burst. rewrite fold_left_app. reflexivity. }
  rewrite <- E in S2, N2. clear E.
  destruct S2 as (L & Ln & P & T & C).
  repeat split.
  - destruct C as [A | [F | O]].
    + left. apply A.
    + right. apply F.
    + destruct O as (_ & _ & D & _). rewrite D.
      destruct (blank text); [left; apply app_nil_r | right; reflexivity].
  - intros Early. destruct C as [A | [F | O]].
    + apply A.
    + destruct F as (_ & _ & _ & _ & _ & F & _). lia.
    + destruct O as (_ & _ & _ & _ & O & _). lia.
  - intros B. destruct C as [A | [F | O]].
    + apply A.
    + destruct F as (_ & F & _). congruence.
    + destruct O as (_ & _ & D & _). rewrite D, B. apply app_nil_r.
  - intros B Late Pos. destruct C as [A | [F | O]].
    + destruct A as (_ & _ & _ & _ & A). lia.
    + apply F.
    + destruct O as (_ & _ & D & _). rewrite D, B. reflexivity.
  - intros i Hi. apply P. lia.
  - rewrite L. lia.
Qed.

Lemma C4_debounce_amended_witness :
  let w := run_events (config None None) 800
             (burst (js "a") [(50, js "ap"); (50, js "apple")]
              ++ [Wait 800; Reply 0 (Response (completion example_json None))])
             init in
  dispatched w = [request_for (config None None) (js "apple")]
  /\ promise w 0 = Some Pending /\ promise w 1 = Some Pending.
Proof.
  intros w.
  assert (W : within_window 800 [(50, js "ap"); (50, js "apple")]).
  { repeat constructor; cbn [fst]; lia. }
  assert (Q : quiet [Wait 800; Reply 0 (Response (completion example_json None))]).
  { repeat constructor. }
  destruct (C4_debounce_amended (config None None) 800 [] (js "a")
              [(50, js "ap"); (50, js "apple")]
              [Wait 800; Reply 0 (Response (completion example_json None))]
              eq_refl W Q)
    as (_ & _ & _ & D & P & _).
  split; [apply D; [reflexivity | cbn; lia | cbn; lia]|].
  split; [apply (P 0) | apply (P 1)]; cbn; lia.
Defined.

Lemma request_without_signal (config : EnvConfig) (mealText : jsstring) :
  signal (request_for config mealText) = None.
Proof.
  unfold request_for. destruct (provider (getCurrentProviderConfig config)); reflexivity.
Qed.

(** C5 fails on the code. The coordinator makes an AbortController when a
    timer runs and calls [abort] on it at the next call, but no request ever
    carries its signal: the request in flight is not cancelled, and when its
    reply arrives the promise of the superseded call is settled with it. *)
Theorem C5_inflight_request_not_cancelled :
  (forall (config : EnvConfig) (mealText : jsstring),
      blank mealText = false ->
      exists k, analyzeNutrition config mealText = Post (request_for config mealText) k
                /\ signal (request_for config mealText) = None)
  /\ let w1 := run_events (config None None) 800
                 [Call (js "apple"); Wait 800; Call (js "banana")] init in
     let w2 := run_events (config None None) 800
                 [Wait 100; Reply 0 (Response (completion example_json None))] w1 in
     aborted w1 = [1]
     /\ map sent (inflight w1) = [request_for (config None None) (js "apple")]
     /\ map signal (dispatched w1) = [None]
     /\ promise w1 0 = Some Pending
     /\ promise w2 0
        = Some (Done (Resolved
                        {| calories := Fin 453; protein := Fin 23; carbs := Fin 33;
                           fat := Fin 25;
                           explanation := VStr (js "No explanation provided");
                           confidence := VNum (number_for 0.9);
                           sources := VArr [VStr (js "USDA")] |}))
     /\ promise w2 1 = Some Pending.
Proof.
  split.
  - intros config mealText B.
    destruct (analyzeNutrition_shape config mealText B) as (k & E & _).
    exists k. split; [exact E | apply request_without_signal].
  - vm_compute. repeat split.
Qed.

Lemma C5_inflight_request_not_cancelled_witness :
  blank (js "apple") = false
  /\ exists k,
       analyzeNutrition (config None None) (js "apple")
       = Post (request_for (config None None) (js "apple")) k
       /\ signal (request_for (config None None) (js "apple")) = None.
Proof.
  split; [reflexivity|].
  apply (proj1 C5_inflight_request_not_cancelled (config None None) (js "apple")).
  reflexivity.
Defined.

(** * Further properties *)

(** ** The patterns of the fallback *)

Section MatcherCompleteness.
Variable A : Type.

(** Backtracking loses no match: if the pattern matches a prefix and the
    continuation accepts what follows, the matcher succeeds. *)
Lemma many_complete (k : cls) (x rest : jsstring) (cont : jsstring -> option A) :
  forallb (test k) x = true -> cont rest <> None -> many k (x ++ rest) cont <> None.
Proof.
  intros F C. induction x as [|c x IH]; cbn [app].
  - destruct rest as [|c r]; cbn [many]; [exact C|].
    destruct (test k c); [|exact C].
    destruct (many k r cont); [discriminate | exact C].
  - cbn [forallb] in F. apply andb_true_iff in F as [Fc Fx]. cbn [many]. rewrite Fc.
    specialize (IH Fx).
    destruct (many k (x ++ rest) cont); [discriminate | congruence].
Qed.

Lemma run_complete (r : regex) (m : jsstring) :
  matches r m ->
  forall (rest : jsstring) (cap : option jsstring)
         (cont : option jsstring -> jsstring -> option A),
    (forall cap', cont cap' rest <> None) ->
    run r (m ++ rest) cap cont <> None.
Proof.
  induction 1 as [|k c T|a b x y Ma IHa Mb IHb|a b x Ma IHa|a b x Mb IHb
                  |a x Ma IHa|a|k x F|a x Ma IHa];
    intros rest cap cont C; cbn [run app].
  - apply C.
  - rewrite T. apply C.
  - rewrite <- app_assoc. apply IHa. intros cap'. apply IHb, C.
  - destruct (run a (x ++ rest) cap cont) eqn:R; [discriminate|].
    exfalso. apply (IHa rest cap cont C R).
  - destruct (run a (x ++ rest) cap cont); [discriminate|]. apply IHb, C.
  - destruct (run a (x ++ rest) cap cont) eqn:R; [discriminate|].
    exfalso. apply (IHa rest cap cont C R).
  - destruct (run a rest cap cont); [discriminate | apply C].
  - apply many_complete; [exact F | apply C].
  - apply IHa. intros cap'. apply C.
Qed.
End MatcherCompleteness.

Lemma match_here_complete (r : regex) (m post : jsstring) :
  matches r m -> match_here r (m ++ post) <> None.
Proof.
  intros M. unfold match_here. apply run_complete; [exact M|]. discriminate.
Qed.

Lemma match_here_sound (r : regex) (s : jsstring) (g : option jsstring) :
  match_here r s = Some g -> exists m post, s = m ++ post /\ matches r m.
Proof.
  unfold match_here. intros H.
  apply run_sound in H as (m & s1 & cap1 & E & M & _). eauto.
Qed.

(** [exec] finds the leftmost position at which the pattern matches. *)
Lemma exec_leftmost (r : regex) (s : jsstring) (g : option jsstring) :
  exec r s = Some g ->
  exists pre rest,
    s = pre ++ rest /\ match_here r rest = Some g
    /\ forall p c q, pre = p ++ c :: q -> match_here r (c :: q ++ rest) = None.
Proof.
  induction s as [|c s IH]; cbn [exec]; intros H.
  - destruct (match_here r []) eqn:M; [|discriminate]. inversion H; subst.
    exists [], []. repeat split; [exact M|]. intros p c q E. destruct p; discriminate.
  - destruct (match_here r (c :: s)) eqn:M.
    + inversion H; subst. exists [], (c :: s). repeat split; [exact M|].
      intros p c' q E. destruct p; discriminate.
    + destruct (IH H) as (pre & rest & E & Mr & L).
      exists (c :: pre), rest. subst s. repeat split; [exact Mr|].
      intros p c' q Ep. destruct p as [|x p]; cbn [app] in Ep; inversion Ep; subst.
      * exact M.
      * eapply L. reflexivity.
Qed.

Lemma exec_none (r : regex) (s : jsstring) :
  exec r s = None -> forall pre rest, s = pre ++ rest -> match_here r rest = None.
Proof.
  induction s as [|c s IH]; cbn [exec]; intros H pre rest E.
  - destruct (match_here r []) eqn:M; [discriminate|].
    destruct pre; [|discriminate]. cbn [app] in E. subst rest. exact M.
  - destruct (match_here r (c :: s)) eqn:M; [discriminate|].
    destruct pre as [|x pre]; cbn [app] in E.
    + subst rest. exact M.
    + inversion E; subst. eapply IH; eauto.
Qed.

(** The search succeeds exactly when the pattern occurs in the text. *)
Lemma exec_occurs (r : regex) (s : jsstring) :
  exec r s <> None <-> occurs r s.
Proof.
  split.
  - intros H. destruct (exec r s) as [g|] eqn:E; [|congruence].
    destruct (exec_leftmost r s g E) as (pre & rest & Es & M & _).
    destruct (match_here_sound r rest g M) as (m & post & Er & Mm).
    exists pre, m, post. subst. auto.
  - intros (pre & m & post & E & M) N.
    apply (match_here_complete r m post M).
    apply (exec_none r s N pre (m ++ post) E).
Qed.

Lemma first_char (r : regex) (m : jsstring) :
  matches r m ->
  (nullable r = false -> m <> [])
  /\ (no_digit_first r = true -> no_digit_head m).
Proof.
  unfold no_digit_head.
  induction 1 as [|k c T|a b x y Ma [Na Fa] Mb [Nb Fb]|a b x Ma [Na Fa]|a b x Mb [Nb Fb]
                  |a x Ma [Na Fa]|a|k x F|a x Ma [Na Fa]];
    cbn [nullable no_digit_first].
  - split; [discriminate|]. intros _ c q E. discriminate.
  - split; [discriminate|]. intros D c' q E. inversion E; subst c' q.
    destruct k as [| |a]; cbn [test] in T; try discriminate.
    + destruct (is_digit c) eqn:Dc; [|reflexivity]. exfalso.
      destruct (is_digit_cases c Dc) as [E'|[E'|[E'|[E'|[E'|[E'|[E'|[E'|[E'|E']]]]]]]]];
        subst c; discriminate.
    + destruct (is_digit c) eqn:Dc; [|reflexivity]. exfalso.
      apply N.eqb_eq in T.
      assert (Cc : canonicalize c = c).
      { destruct (is_digit_cases c Dc) as [E'|[E'|[E'|[E'|[E'|[E'|[E'|[E'|[E'|E']]]]]]]]];
          subst c; reflexivity. }
      rewrite Cc in T. rewrite T, Dc in D. discriminate.
  - split.
    + intros N E. apply app_eq_nil in E as [Ex Ey].
      apply andb_false_iff in N as [N|N]; [apply (Na N Ex) | apply (Nb N Ey)].
    + intros D c q E. apply andb_true_iff in D as [Da Db].
      destruct x as [|cx x]; cbn [app] in E.
      * destruct (nullable a) eqn:N; [apply (Fb Db c q E)|].
        exfalso. apply (Na eq_refl eq_refl).
      * inversion E; subst. apply (Fa Da c x eq_refl).
  - split.
    + intros N. apply orb_false_iff in N as [N _]. apply Na, N.
    + intros D. apply andb_true_iff in D as [Da _]. apply Fa, Da.
  - split.
    + intros N. apply orb_false_iff in N as [_ N]. apply Nb, N.
    + intros D. apply andb_true_iff in D as [_ Db]. apply Fb, Db.
  - split; [discriminate | exact Fa].
  - split; [discriminate|]. intros _ c q E. discriminate.
  - split; [discriminate|]. intros D c q E. subst x. cbn [forallb] in F.
    apply andb_true_iff in F as [T _].
    destruct k as [| |a]; cbn [test] in T; try discriminate.
    + destruct (is_digit c) eqn:Dc; [|reflexivity]. exfalso.
      destruct (is_digit_cases c Dc) as [E'|[E'|[E'|[E'|[E'|[E'|[E'|[E'|[E'|E']]]]]]]]];
        subst c; discriminate.
    + destruct (is_digit c) eqn:Dc; [|reflexivity]. exfalso.
      apply N.eqb_eq in T.
      assert (Cc : canonicalize c = c).
      { destruct (is_digit_cases c Dc) as [E'|[E'|[E'|[E'|[E'|[E'|[E'|[E'|[E'|E']]]]]]]]];
          subst c; reflexivity. }
      rewrite Cc in T. rewrite T, Dc in D. discriminate.
  - split; [exact Na | exact Fa].
Qed.

Lemma matches_digits1 (c : N) (d : jsstring) :
  forallb is_digit (c :: d) = true -> matches digits1 (c :: d).
Proof.
  cbn [forallb]. intros F. apply andb_true_iff in F as [Fc Fd].
  unfold digits1. apply matches_group.
  change (c :: d) with ([c] ++ d). apply matches_seq.
  - apply matches_chr. exact Fc.
  - apply matches_many. exact Fd.
Qed.

Lemma figure_pattern_calorie : figure_pattern calorie_unit.
Proof. split; [apply groupless_calorie_unit | split; reflexivity]. Qed.

Lemma figure_pattern_protein : figure_pattern (macro_unit "protein").
Proof. split; [apply groupless_macro_unit | split; reflexivity]. Qed.

Lemma figure_pattern_carb : figure_pattern (macro_unit "carb").
Proof. split; [apply groupless_macro_unit | split; reflexivity]. Qed.

Lemma figure_pattern_fat : figure_pattern (macro_unit "fat").
Proof. split; [apply groupless_macro_unit | split; reflexivity]. Qed.

(** What a figure pattern captures: a whole digit run of the text, at the
    leftmost place where the pattern matches. *)
Lemma exec_figure (unit : regex) (text : jsstring) (g : option jsstring) :
  figure_pattern unit ->
  exec (Seq digits1 unit) text = Some g ->
  exists pre d m post,
    g = Some d /\ text = pre ++ d ++ m ++ post
    /\ d <> [] /\ forallb is_digit d = true
    /\ matches unit m
    /\ no_digit_last pre /\ m <> [] /\ no_digit_head (m ++ post)
    /\ (forall p c q, pre = p ++ c :: q ->
                      match_here (Seq digits1 unit) (c :: q ++ d ++ m ++ post) = None).
Proof.
  intros (G & Nu & Fi) H.
  destruct (exec_leftmost _ _ _ H) as (pre & rest & E & M & L).
  destruct (match_here_capture unit rest g G M) as (d & m & post & Eg & Er & Nd & Dd & Mu).
  destruct (first_char unit m Mu) as [Ne Hd].
  specialize (Ne Nu). specialize (Hd Fi).
  exists pre, d, m, post. subst rest. repeat split; try assumption.
  - intros p c Ep. destruct (is_digit c) eqn:Dc; [|reflexivity]. exfalso.
    assert (Mc : matches (Seq digits1 unit) ((c :: d) ++ m)).
    { apply matches_seq; [|exact Mu]. apply matches_digits1.
      cbn [forallb]. rewrite Dc, Dd. reflexivity. }
    apply (match_here_complete _ _ post Mc).
    rewrite <- (L p c [] Ep). cbn [app]. rewrite <- app_assoc. reflexivity.
  - intros c q Eq. destruct m as [|cm m]; [congruence|].
    cbn [app] in Eq. inversion Eq; subst. apply (Hd c m eq_refl).
Qed.

(** Two ways of cutting one text before and after a digit run that is not
    part of a longer one give the same run, when the first cut-off part
    holds no digit. *)
Lemma first_run_unique (pre d tail pre' d' tail' : jsstring) :
  pre ++ d ++ tail = pre' ++ d' ++ tail' ->
  digit_free pre = true ->
  d <> [] -> forallb is_digit d = true -> no_digit_head tail ->
  d' <> [] -> forallb is_digit d' = true -> no_digit_head tail' ->
  List.length pre' <= List.length pre ->
  pre' = pre /\ d' = d.
Proof.
  intros E Fp Nd Dd Ht Nd' Dd' Ht' Le.
  assert (P : pre' = pre).
  { apply app_eq_app in E as (l & [[E1 E2] | [E1 E2]]).
    - (* pre = pre' ++ l *)
      destruct l as [|x l]; [rewrite app_nil_r in E1; congruence|]. exfalso.
      destruct d' as [|c d']; [congruence|].
      cbn [app] in E2. inversion E2; subst x.
      subst pre. unfold digit_free in Fp. rewrite forallb_app in Fp.
      apply andb_true_iff in Fp as [_ Fp]. cbn [forallb] in Fp.
      cbn [forallb] in Dd'. apply andb_true_iff in Dd' as [Dc _].
      rewrite Dc in Fp. discriminate.
    - (* pre' = pre ++ l *)
      destruct l as [|x l]; [rewrite app_nil_r in E1; congruence|].
      subst pre'. rewrite length_app in Le. cbn [List.length] in Le. lia. }
  split; [exact P|]. subst pre'. apply app_inv_head in E.
  clear - E Dd Ht Dd' Ht'.
  revert d' E Dd'. induction d as [|c d IH]; intros d' E Dd'.
  - destruct d' as [|c' d']; [reflexivity|]. exfalso.
    cbn [app] in E. cbn [forallb] in Dd'. apply andb_true_iff in Dd' as [Dc _].
    rewrite (Ht c' (d' ++ tail') E) in Dc. discriminate.
  - cbn [forallb] in Dd. apply andb_true_iff in Dd as [Dc Dd].
    destruct d' as [|c' d'].
    + exfalso. cbn [app] in E. symmetry in E.
      rewrite (Ht' c (d ++ tail) E) in Dc. discriminate.
    + cbn [app] in E. inversion E; subst c'.
      cbn [forallb] in Dd'. apply andb_true_iff in Dd' as [_ Dd'].
      f_equal. apply IH; assumption.
Qed.

Lemma figure_value (d : jsstring) :
  d <> [] -> forallb is_digit d = true ->
  parseInt_group (Some d) = number_for (inject_Z (digits_value 0 d))
  /\ (0 <= digits_value 0 d)%Z.
Proof.
  intros N D. destruct d as [|c d]; [congruence|].
  destruct (parseInt_digit_run (Some (c :: d))) as (d' & E & V & P).
  - exists c, d. auto.
  - inversion E; subst d'. auto.
Qed.

Lemma figure_number (d : jsstring) :
  d <> [] -> forallb is_digit d = true -> run_number d (parseInt_group (Some d)).
Proof.
  intros N D. destruct (figure_value d N D) as [-> P].
  split; [reflexivity|]. split; [apply natural_or_infinite_number, P|].
  intros B. apply number_for_safe. lia.
Qed.

Lemma matches_lits (w0 w : jsstring) :
  same_word w0 w -> matches (lits w0) w.
Proof.
  unfold same_word. revert w. induction w0 as [|a w0 IH]; intros w E.
  - destruct w; [constructor | discriminate].
  - destruct w as [|c w]; [discriminate|]. cbn [map] in E. inversion E as [[Ec Ew]].
    cbn [lits]. change (c :: w) with ([c] ++ w). apply matches_seq.
    + apply matches_chr. cbn [test]. rewrite Ec. apply N.eqb_refl.
    + apply IH, Ew.
Qed.

Lemma matches_calorie_unit (sp w0 w : jsstring) :
  forallb is_space sp = true -> In w0 calorie_words -> same_word w0 w ->
  matches calorie_unit (sp ++ w).
Proof.
  intros S I W. unfold calorie_unit. apply matches_seq.
  - apply matches_many. exact S.
  - pose proof (matches_lits w0 w W) as M.
    destruct I as [<-|[<-|[<-|[]]]].
    + apply matches_alt_l. exact M.
    + apply matches_alt_r, matches_alt_l. exact M.
    + apply matches_alt_r, matches_alt_r. exact M.
Qed.

Lemma extract_when_occurs (text : jsstring) :
  occurs calorie_re text -> exists r, extractNutritionFromText text = Ret r.
Proof.
  intros O. apply exec_occurs in O. unfold extractNutritionFromText.
  destruct (exec calorie_re text); [eexists; reflexivity | congruence].
Qed.

(** X1. The fallback recovers a calorie figure exactly when the calorie
    pattern occurs somewhere in the text, and throws PARSE_ERROR exactly when
    it occurs nowhere: backtracking never misses an occurrence and never
    invents one. *)
Theorem X1_fallback_iff_pattern_occurs (text : jsstring) :
  ((exists r, extractNutritionFromText text = Ret r) <-> occurs calorie_re text)
  /\ (extractNutritionFromText text = Throw parse_error <-> ~ occurs calorie_re text).
Proof.
  pose proof (exec_occurs calorie_re text) as O.
  unfold extractNutritionFromText.
  destruct (exec calorie_re text) as [g|] eqn:E.
  - assert (Oc : occurs calorie_re text) by (apply O; discriminate).
    split; split.
    + intros _. exact Oc.
    + intros _. eexists. reflexivity.
    + discriminate.
    + intros N. contradiction.
  - assert (No : ~ occurs calorie_re text) by (intros Oc; apply O in Oc; congruence).
    split; split.
    + intros (r & R). discriminate.
    + intros Oc. contradiction.
    + intros _. exact No.
    + intros _. reflexivity.
Qed.

(** X2. The calorie figure of the fallback is the number [parseInt] makes
    of a whole digit run of the text (the value of the run when that is below
    2^53, and always a non-negative integer or Infinity): the run is not
    preceded and not followed by another digit, what follows it is the unit,
    and no occurrence of the pattern starts further left. *)
Theorem X2_fallback_figure_is_whole_run (text : jsstring) (r : AIAnalysisResult) :
  extractNutritionFromText text = Ret r ->
  exists pre d unit post,
    text = pre ++ d ++ unit ++ post
    /\ d <> [] /\ forallb is_digit d = true
    /\ no_digit_last pre /\ no_digit_head (unit ++ post)
    /\ matches calorie_unit unit
    /\ run_number d (calories r)
    /\ (forall p c q m post',
           pre = p ++ c :: q -> c :: q ++ d ++ unit ++ post = m ++ post' ->
           ~ matches calorie_re m).
Proof.
  intros H. apply extract_result in H as (g & C & ->).
  destruct (exec_figure calorie_unit text g figure_pattern_calorie C)
    as (pre & d & m & post & -> & E & Nd & Dd & Mu & Lp & Nm & Hm & L).
  exists pre, d, m, post. cbn [calories].
  split; [exact E|]. split; [exact Nd|]. split; [exact Dd|]. split; [exact Lp|].
  split; [exact Hm|]. split; [exact Mu|].
  split; [apply figure_number; assumption|].
  intros p c q m' post' Ep Em M.
  apply (match_here_complete calorie_re m' post' M).
  rewrite <- Em. apply (L p c q Ep).
Qed.

Lemma X2_fallback_figure_is_whole_run_witness :
  exists pre d unit post,
    example_text = pre ++ d ++ unit ++ post
    /\ d <> [] /\ forallb is_digit d = true
    /\ no_digit_last pre /\ no_digit_head (unit ++ post)
    /\ matches calorie_unit unit
    /\ run_number d (Fin 450)
    /\ (forall p c q m post',
           pre = p ++ c :: q -> c :: q ++ d ++ unit ++ post = m ++ post' ->
           ~ matches calorie_re m).
Proof.
  apply (X2_fallback_figure_is_whole_run example_text
           {| calories := Fin 450; protein := Fin 20; carbs := Fin 30; fat := Fin 10;
              explanation := VStr example_text; confidence := VNum (number_for 0.6);
              sources := VArr [] |}).
  vm_compute. reflexivity.
Defined.

(** X3. When the first digit run of the text is followed by optional white
    space and cal, kcal or calories in any case, the fallback returns as
    calories the number [parseInt] makes of that run: the value of the run
    when that is below 2^53. *)
Theorem X3_first_figure_recognised (pre d sp w0 w post : jsstring) :
  digit_free pre = true ->
  d <> [] -> forallb is_digit d = true ->
  forallb is_space sp = true ->
  In w0 calorie_words -> same_word w0 w ->
  exists r, extractNutritionFromText (pre ++ d ++ sp ++ w ++ post) = Ret r
            /\ run_number d (calories r).
Proof.
  intros Fp Nd Dd S I W.
  pose proof (matches_calorie_unit sp w0 w S I W) as Mu.
  assert (Mc : matches calorie_re (d ++ sp ++ w)).
  { unfold calorie_re. apply matches_seq; [|exact Mu].
    destruct d as [|c d]; [congruence|]. apply matches_digits1, Dd. }
  set (text := pre ++ d ++ sp ++ w ++ post).
  assert (Et : text = pre ++ d ++ (sp ++ w) ++ post).
  { unfold text. rewrite <- (app_assoc sp w post). reflexivity. }
  destruct (extract_when_occurs text) as (r & R).
  { exists pre, (d ++ sp ++ w), post. split; [|exact Mc].
    unfold text. repeat rewrite <- app_assoc. reflexivity. }
  exists r. split; [exact R|].
  pose proof R as R'. apply extract_result in R' as (g & C & Er).
  destruct (exec_figure calorie_unit text g figure_pattern_calorie C)
    as (pre' & d' & m' & post' & Eg & E' & Nd' & Dd' & Mu' & Lp' & Nm' & Hm' & L').
  destruct (first_char calorie_unit (sp ++ w) Mu) as [Ne Hd].
  specialize (Ne eq_refl). specialize (Hd eq_refl).
  assert (Ht : no_digit_head ((sp ++ w) ++ post)).
  { intros c q Eq. destruct (sp ++ w) as [|cm m]; [congruence|].
    cbn [app] in Eq. inversion Eq; subst. apply (Hd c m eq_refl). }
  assert (Le : List.length pre' <= List.length pre).
  { destruct (Nat.le_gt_cases (List.length pre') (List.length pre)) as [Le|Gt];
      [exact Le|]. exfalso.
    pose proof E' as E2. rewrite Et in E2.
    apply app_eq_app in E2 as (l & [[E1 E3] | [E1 E3]]).
    - subst pre. rewrite length_app in Gt. lia.
    - destruct l as [|c q].
      + rewrite app_nil_r in E1. subst pre'. lia.
      + apply (match_here_complete calorie_re (d ++ sp ++ w) post Mc).
        pose proof (L' pre c q E1) as Ln. cbn [app] in E3. rewrite <- E3 in Ln.
        replace ((d ++ sp ++ w) ++ post) with (d ++ (sp ++ w) ++ post)
          by (repeat rewrite <- app_assoc; reflexivity).
        exact Ln. }
  assert (U : pre' = pre /\ d' = d).
  { apply (first_run_unique pre d ((sp ++ w) ++ post) pre' d' (m' ++ post'));
      try assumption.
    rewrite <- Et, <- E'. reflexivity. }
  destruct U as [_ ->]. rewrite Er, Eg. cbn [calories].
  apply figure_number; assumption.
Qed.

Lemma X3_first_figure_recognised_witness :
  exists r,
    extractNutritionFromText
      (js "About " ++ js "450" ++ js " " ++ js "KCal" ++ js " and 20g protein") = Ret r
    /\ run_number (js "450") (calories r).
Proof.
  apply (X3_first_figure_recognised (js "About ") (js "450") (js " ") (js "kcal")
           (js "KCal") (js " and 20g protein")).
  - reflexivity.
  - discriminate.
  - reflexivity.
  - reflexivity.
  - right. left. reflexivity.
  - reflexivity.
Defined.

(** ** The entry point, end to end *)

(** X4. A failed HTTP call is reported to the caller as the answer of the
    classifier for that failure, after exactly one request: there is no retry
    and no second attempt with the other provider. *)
Theorem X4_network_failure_classified (config : EnvConfig)
        (http : Request -> HttpReply) (mealText : jsstring) (t : thrown) :
  blank mealText = false ->
  http (request_for config mealText) = Failure t ->
  exec_prog http (analyzeNutrition config mealText)
  = ([request_for config mealText], Rejected (ThrownAPIError (handleAPIError t))).
Proof.
  intros B H.
  destruct (analyzeNutrition_shape config mealText B) as (k & E & KF & _).
  rewrite E, exec_prog_post, H, KF. reflexivity.
Qed.

Lemma X4_network_failure_classified_witness :
  let too_many := ThrownAxios {| ax_code := Some "ERR_BAD_REQUEST"%string;
                                 ax_response := Some 429%Z;
                                 ax_message := js "Request failed" |} in
  exec_prog (fun _ => Failure too_many)
            (analyzeNutrition (config None None) (js "apple"))
  = ([request_for (config None None) (js "apple")],
     Rejected (ThrownAPIError
                 (createAPIError (js "Rate limit exceeded. Please wait a moment.")
                                 "RATE_LIMIT" true))).
Proof.
  intros too_many.
  apply (X4_network_failure_classified (config None None) (fun _ => Failure too_many)
           (js "apple") too_many); reflexivity.
Defined.

(** Every way a call can end. *)
Lemma analyzeNutrition_rejections (config : EnvConfig) (http : Request -> HttpReply)
      (mealText : jsstring) (t : thrown) :
  snd (exec_prog http (analyzeNutrition config mealText)) = Rejected t ->
  (blank mealText = true /\ t = empty_input)
  \/ (blank mealText = false /\ exists t0, t = ThrownAPIError (handleAPIError t0)).
Proof.
  intros H. destruct (blank mealText) eqn:B.
  - left. rewrite (analyzeNutrition_blank config mealText B) in H.
    cbn [exec_prog snd] in H. injection H as <-. auto.
  - right. split; [reflexivity|].
    destruct (analyzeNutrition_shape config mealText B)
      as (k & E & KF & KT & KE & KP & KR).
    rewrite E, exec_prog_post in H. cbn [snd] in H.
    destruct (http (request_for config mealText)) as [data|t1] eqn:Hr.
    + destruct (first_content data) as [[content|]|] eqn:F.
      * destruct content as [|c content].
        -- rewrite (KE data (or_intror F)) in H. cbn [exec_prog snd] in H.
           injection H as <-. exists empty_response. reflexivity.
        -- destruct (parseAIResponse_cases (c :: content)) as [(r & P & _) | (P & _)].
           ++ destruct (KR data (c :: content) r F ltac:(discriminate) P)
                as (r' & R & _).
              rewrite R in H. discriminate.
           ++ rewrite (KP data (c :: content) _ F ltac:(discriminate) P) in H.
              cbn [exec_prog snd] in H. injection H as <-. exists parse_error.
              reflexivity.
      * rewrite (KE data (or_introl F)) in H. cbn [exec_prog snd] in H.
        injection H as <-. exists empty_response. reflexivity.
      * rewrite (KT data F) in H. cbn [exec_prog snd] in H.
        injection H as <-. exists type_error. reflexivity.
    + rewrite (KF t1) in H. cbn [exec_prog snd] in H.
      injection H as <-. exists t1. reflexivity.
Qed.

(** X5. Whatever the meal text and whatever the network answers, a rejection
    of [analyzeNutrition] is an APIError record, never a raw axios error or
    TypeError; its code is EMPTY_INPUT or one of the seven kinds of the
    classifier, so never EMPTY_RESPONSE or PARSE_ERROR; and its retryable flag
    is the one the taxonomy gives that code. *)
Theorem X5_rejections_structured (config : EnvConfig) (http : Request -> HttpReply)
        (mealText : jsstring) (t : thrown) :
  snd (exec_prog http (analyzeNutrition config mealText)) = Rejected t ->
  exists e : APIError,
    t = ThrownAPIError e
    /\ In (code e) surfaced_kinds
    /\ code e <> "EMPTY_RESPONSE"%string /\ code e <> "PARSE_ERROR"%string
    /\ retryable e = kind_retryable (code e).
Proof.
  intros H.
  assert (S : forall kind, In kind surfaced_kinds ->
                           kind <> "EMPTY_RESPONSE"%string
                           /\ kind <> "PARSE_ERROR"%string).
  { intros kind I. cbn in I.
    repeat (destruct I as [<-|I]; [split; discriminate|]). contradiction. }
  destruct (analyzeNutrition_rejections config http mealText t H)
    as [[_ ->] | [_ (t0 & ->)]].
  - eexists. split; [reflexivity|].
    assert (I : In "EMPTY_INPUT"%string surfaced_kinds) by (left; reflexivity).
    split; [exact I|]. destruct (S _ I) as [S1 S2].
    split; [exact S1|]. split; [exact S2 | reflexivity].
  - exists (handleAPIError t0). split; [reflexivity|].
    destruct (handleAPIError_kind t0) as [K R].
    assert (I : In (code (handleAPIError t0)) surfaced_kinds) by (right; exact K).
    split; [exact I|]. destruct (S _ I) as [S1 S2].
    split; [exact S1|]. split; [exact S2 | exact R].
Qed.

Lemma X5_rejections_structured_witness :
  exists e : APIError,
    ThrownAPIError unknown_error = ThrownAPIError e
    /\ In (code e) surfaced_kinds
    /\ code e <> "EMPTY_RESPONSE"%string /\ code e <> "PARSE_ERROR"%string
    /\ retryable e = kind_retryable (code e).
Proof.
  apply (X5_rejections_structured (config None None)
           (fun _ => Response (completion (js "I cannot determine this.") None))
           (js "apple") (ThrownAPIError unknown_error)).
  reflexivity.
Defined.

(** X6. [analyzeNutrition] rejects with EMPTY_INPUT exactly when the meal
    text is empty or white space only; no answer of the network produces that
    code for another text. *)
Theorem X6_empty_input_iff_blank (config : EnvConfig) (http : Request -> HttpReply)
        (mealText : jsstring) :
  (exists e, snd (exec_prog http (analyzeNutrition config mealText))
             = Rejected (ThrownAPIError e)
             /\ code e = "EMPTY_INPUT"%string)
  <-> blank mealText = true.
Proof.
  split.
  - intros (e & H & C).
    destruct (analyzeNutrition_rejections config http mealText _ H)
      as [[B _] | [_ (t0 & E)]]; [exact B|].
    exfalso. inversion E; subst e.
    pose proof (proj1 (handleAPIError_kind t0)) as K. rewrite C in K.
    cbn in K. repeat (destruct K as [K|K]; [discriminate|]). contradiction.
  - intros B. rewrite (analyzeNutrition_blank config mealText B).
    eexists. split; reflexivity.
Qed.

(** X7. A reply with status 200 whose body has no [choices] array makes the
    indexing throw; the caller gets UNKNOWN_ERROR, not retryable, after the one
    request. *)
Theorem X7_missing_choices_unknown (config : EnvConfig) (http : Request -> HttpReply)
        (mealText : jsstring) (data : ResponseData) :
  blank mealText = false ->
  http (request_for config mealText) = Response data ->
  choices data = None ->
  exists e,
    exec_prog http (analyzeNutrition config mealText)
    = ([request_for config mealText], Rejected (ThrownAPIError e))
    /\ is_error e "UNKNOWN_ERROR" false.
Proof.
  intros B H C.
  destruct (analyzeNutrition_shape config mealText B) as (k & E & _ & KT & _).
  assert (F : first_content data = None) by (unfold first_content; rewrite C; reflexivity).
  exists (handleAPIError type_error).
  rewrite E, exec_prog_post, H, (KT data F). split; [reflexivity | split; reflexivity].
Qed.

Lemma X7_missing_choices_unknown_witness :
  exists e,
    exec_prog (fun _ => Response {| choices := None; citations := None |})
              (analyzeNutrition (config None None) (js "apple"))
    = ([request_for (config None None) (js "apple")], Rejected (ThrownAPIError e))
    /\ is_error e "UNKNOWN_ERROR" false.
Proof.
  apply (X7_missing_choices_unknown (config None None)
           (fun _ => Response {| choices := None; citations := None |})
           (js "apple") {| choices := None; citations := None |});
    reflexivity.
Defined.

(** ** Provider configuration *)

(** X8. Only the settings of the selected provider reach a call: two
    configurations that select the same provider with the same key, model and
    base URL give the same program, whatever the other provider's settings and
    the debug flag are. *)
Theorem X8_inactive_provider_ignored (config config' : EnvConfig)
        (mealText : jsstring) :
  aiProvider config = aiProvider config' ->
  active_settings config = active_settings config' ->
  getCurrentProviderConfig config = getCurrentProviderConfig config'
  /\ analyzeNutrition config mealText = analyzeNutrition config' mealText.
Proof.
  intros P S.
  assert (G : getCurrentProviderConfig config = getCurrentProviderConfig config').
  { unfold getCurrentProviderConfig, active_settings in *. rewrite <- P in *.
    destruct (aiProvider config); rewrite S; reflexivity. }
  split; [exact G|]. unfold analyzeNutrition. rewrite G. reflexivity.
Qed.

Lemma X8_inactive_provider_ignored_witness :
  analyzeNutrition (config (Some (js "sk-or-1")) None) (js "apple")
  = analyzeNutrition (config (Some (js "sk-or-1")) (Some (js "pplx-2"))) (js "apple").
Proof.
  apply (X8_inactive_provider_ignored (config (Some (js "sk-or-1")) None)
           (config (Some (js "sk-or-1")) (Some (js "pplx-2"))) (js "apple"));
    reflexivity.
Defined.

(** X9. Whatever the process environment holds, the shipped configuration
    sends a non-empty bearer token to the first provider's endpoint: the
    variable when it is set and not empty, the placeholder otherwise.  A
    missing key is never an error of the resolver. *)
Theorem X9_bearer_token_never_empty (OPENROUTER_API_KEY PERPLEXITY_API_KEY : option jsstring)
        (mealText : jsstring) :
  let req := request_for (config OPENROUTER_API_KEY PERPLEXITY_API_KEY) mealText in
  exists key : jsstring,
    key <> []
    /\ In ("Authorization"%string, js "Bearer " ++ key) (headers req)
    /\ (forall c k, OPENROUTER_API_KEY = Some (c :: k) -> key = c :: k)
    /\ (OPENROUTER_API_KEY = None \/ OPENROUTER_API_KEY = Some [] ->
        key = js "YOUR_OPENROUTER_API_KEY")
    /\ url req = js "https://openrouter.ai/api/v1/chat/completions".
Proof.
  intros req.
  exists (pc_apiKey (getCurrentProviderConfig
                       (config OPENROUTER_API_KEY PERPLEXITY_API_KEY))).
  split; [|split; [|split; [|split]]].
  - destruct OPENROUTER_API_KEY as [[|c k]|]; discriminate.
  - left. reflexivity.
  - intros c k ->. reflexivity.
  - intros [->| ->]; reflexivity.
  - reflexivity.
Qed.

(** X10. The request determines the meal text: the text is embedded whole,
    between quotes, so the requests for two different meal texts differ,
    whatever the configuration. *)
Theorem X10_request_determines_text (config : EnvConfig) (t1 t2 : jsstring) :
  t1 <> t2 -> request_for config t1 <> request_for config t2.
Proof.
  unfold request_for. intros N H. apply N.
  destruct (provider (getCurrentProviderConfig config)).
  - apply (f_equal user_message) in H.
    unfold openrouter_request in H. cbn [user_message] in H.
    apply app_inv_head in H. unfold quoted in H. inversion H as [E].
    apply app_inv_tail in E. exact E.
  - apply (f_equal user_message) in H.
    unfold perplexity_request in H. cbn [user_message] in H.
    apply app_inv_head in H. apply app_inv_tail in H.
    unfold quoted in H. inversion H as [E].
    apply app_inv_tail in E. exact E.
Qed.

Lemma X10_request_determines_text_witness :
  request_for (config None None) (js "apple")
  <> request_for (config None None) (js "apple pie").
Proof.
  apply (X10_request_determines_text (config None None) (js "apple") (js "apple pie")).
  discriminate.
Defined.

(** ** The coordinator over whole histories *)

Lemma drive_keeps (p : nat) (prog : Prog AIAnalysisResult) (w : World) :
  timers (drive p prog w) = timers w
  /\ timeoutId (drive p prog w) = timeoutId w
  /\ now (drive p prog w) = now w.
Proof. destruct prog; repeat split. Qed.

Lemma fires_keep (config : EnvConfig) (due : list Timer) :
  forall w : World,
    timers (fold_left (fire config) due w) = timers w
    /\ timeoutId (fold_left (fire config) due w) = timeoutId w.
Proof.
  induction due as [|t due IH]; intros w; cbn [fold_left]; [auto|].
  destruct (IH (fire config w t)) as [T I]. rewrite T, I. unfold fire.
  match goal with
  | |- context [drive ?p ?prog ?w1] => destruct (drive_keeps p prog w1) as (A & B & _)
  end.
  rewrite A, B. auto.
Qed.

Lemma single_slot_step (config : EnvConfig) (delayMs : nat) (w : World) (e : event) :
  single_slot w -> single_slot (step config delayMs w e).
Proof.
  intros Sl. destruct e as [mealText | ms | i r]; cbn [step].
  - right. unfold call. cbn [timers timeoutId].
    exists {| timer_id := S (timers_made w); deadline := now w + delayMs;
              timer_text := mealText; timer_promise := List.length (promises w) |}.
    split; [|reflexivity].
    destruct Sl as [T | (t & T & I)].
    + rewrite T. destruct (timeoutId w); reflexivity.
    + rewrite T, I. cbn [clearTimeout filter]. rewrite Nat.eqb_refl. reflexivity.
  - induction ms as [|ms IH]; [exact Sl|]. rewrite Nat.iter_succ.
    set (w1 := Nat.iter ms (tick config) w) in *.
    unfold tick.
    match goal with
    | |- single_slot (fold_left _ ?due ?w2) =>
        destruct (fires_keep config due w2) as [T I]
    end.
    unfold single_slot. rewrite T, I. cbn [timers timeoutId].
    destruct IH as [E | (t & E & Id)]; rewrite E; cbn [filter].
    + left. reflexivity.
    + destruct (deadline t <=? S (now w1))%nat; cbn [negb]; [left; reflexivity|].
      right. exists t. auto.
  - unfold reply. destruct (nth_error (inflight w) i) as [f|]; [|exact Sl].
    unfold single_slot.
    match goal with
    | |- context [drive ?p ?prog ?w1] => destruct (drive_keeps p prog w1) as (A & B & _)
    end.
    rewrite A, B. exact Sl.
Qed.

(** X11. In every state a debounced analyzer reaches, at most one timer is
    armed, and when one is, [timeoutId] is its handle: each call disarms the
    timer of the call before it. *)
Theorem X11_at_most_one_timer (config : EnvConfig) (delayMs : nat) (es : list event) :
  let w := run_events config delayMs es init in
  List.length (timers w) <= 1
  /\ (forall t, In t (timers w) -> timeoutId w = Some (timer_id t)).
Proof.
  intros w.
  assert (Sl : single_slot w).
  { unfold w, run_events.
    assert (G : forall w0, single_slot w0 ->
                           single_slot (fold_left (step config delayMs) es w0)).
    { induction es as [|e es IH]; intros w0 S0; cbn [fold_left]; [exact S0|].
      apply IH, single_slot_step, S0. }
    apply G. left. reflexivity. }
  destruct Sl as [E | (t & E & I)]; rewrite E.
  - split; [cbn; lia | intros t []].
  - split; [cbn; lia|]. intros t' [<-|[]]. exact I.
Qed.

Lemma Forall_filter_keep {A : Type} (P : A -> Prop) (f : A -> bool) (l : list A) :
  Forall P l -> Forall P (filter f l).
Proof.
  intros H. rewrite Forall_forall in *. intros x Hx.
  apply filter_In in Hx as [Hx _]. apply H, Hx.
Qed.

Lemma request_of_more (config : EnvConfig) (texts more : list jsstring) (req : Request) :
  request_of config texts req -> request_of config (texts ++ more) req.
Proof.
  intros (t & I & B & E). exists t. repeat split; [apply in_or_app; left; exact I | exact B | exact E].
Qed.

Lemma fires_accounted (config : EnvConfig) (texts : list jsstring) (due : list Timer) :
  forall w : World,
    Forall (fun t => In (timer_text t) texts) due ->
    Forall (request_of config texts) (dispatched w) ->
    Forall (request_of config texts) (dispatched (fold_left (fire config) due w))
    /\ List.length (dispatched (fold_left (fire config) due w))
       <= List.length (dispatched w) + List.length due.
Proof.
  induction due as [|t due IH]; intros w T D; cbn [fold_left List.length].
  - split; [exact D | lia].
  - inversion T as [|? ? Tt Td]; subst.
    assert (F : Forall (request_of config texts) (dispatched (fire config w t))
                /\ List.length (dispatched (fire config w t))
                   <= S (List.length (dispatched w))).
    { unfold fire. destruct (blank (timer_text t)) eqn:B.
      - rewrite (analyzeNutrition_blank config _ B). cbn [drive dispatched].
        split; [exact D | lia].
      - destruct (analyzeNutrition_final config _ B) as (k & -> & _).
        cbn [drive dispatched]. rewrite length_app. cbn [List.length]. split; [|lia].
        apply Forall_app. split; [exact D|]. constructor; [|constructor].
        exists (timer_text t). auto. }
    destruct F as [F1 F2]. destruct (IH (fire config w t) Td F1) as [G1 G2].
    split; [exact G1 | lia].
Qed.

Lemma accounted_tick (config : EnvConfig) (texts : list jsstring) (w : World) :
  accounted config texts w -> accounted config texts (tick config w).
Proof.
  intros (T & D & C). unfold tick.
  set (due := filter (fun x => (deadline x <=? S (now w))%nat) (timers w)).
  set (rest := filter (fun x => negb (deadline x <=? S (now w))%nat) (timers w)).
  match goal with
  | |- accounted _ _ (fold_left _ _ ?w2) =>
      destruct (fires_accounted config texts due w2) as [G1 G2];
      [apply Forall_filter_keep, T | exact D |];
      destruct (fires_keep config due w2) as [K _]
  end.
  unfold accounted. rewrite K. cbn [timers dispatched] in *.
  split; [apply Forall_filter_keep, T|]. split; [exact G1|].
  pose proof (filter_length (fun x => (deadline x <=? S (now w))%nat) (timers w)) as L.
  change (List.length due + List.length rest = List.length (timers w)) in L. lia.
Qed.

Lemma accounted_call (config : EnvConfig) (delayMs : nat) (texts : list jsstring)
      (mealText : jsstring) (w : World) :
  accounted config texts w ->
  accounted config (texts ++ [mealText]) (call delayMs mealText w).
Proof.
  intros (T & D & C). unfold accounted, call. cbn [timers dispatched].
  assert (T1 : Forall (fun t => In (timer_text t) (texts ++ [mealText]))
                      (match timeoutId w with
                       | Some id => clearTimeout id (timers w)
                       | None => timers w
                       end)
               /\ List.length (match timeoutId w with
                               | Some id => clearTimeout id (timers w)
                               | None => timers w
                               end) <= List.length (timers w)).
  { assert (T' : Forall (fun t => In (timer_text t) (texts ++ [mealText])) (timers w)).
    { eapply Forall_impl; [|exact T]. intros t I. apply in_or_app. left. exact I. }
    destruct (timeoutId w) as [id|]; [|split; [exact T' | lia]].
    split; [apply Forall_filter_keep, T' | apply filter_length_le]. }
  destruct T1 as [T1 L1]. repeat split.
  - apply Forall_app. split; [exact T1|]. constructor; [|constructor].
    cbn [timer_text]. apply in_or_app. right. left. reflexivity.
  - eapply Forall_impl; [|exact D]. intros req. apply request_of_more.
  - rewrite !length_app. cbn [List.length]. lia.
Qed.

Lemma accounted_reply (config : EnvConfig) (texts : list jsstring) (i : nat)
      (r : HttpReply) (w : World) :
  well_formed w -> accounted config texts w -> accounted config texts (reply i r w).
Proof.
  intros [_ I] A. destruct (nth_error (inflight w) i) as [f|] eqn:E;
    [|unfold reply; rewrite E; exact A].
  destruct (old_inflight_nth _ _ i f I E) as [_ Kf].
  destruct (reply_old i r w f E Kf) as (s & ->). exact A.
Qed.

Lemma promises_tick (config : EnvConfig) (w : World) :
  well_formed w -> List.length (promises (tick config w)) = List.length (promises w).
Proof.
  intros [T I]. unfold tick.
  match goal with
  | |- List.length (promises (fold_left _ ?due ?w2)) = _ =>
      destruct (well_formed_fires config due w2) as (_ & L & _)
  end.
  - split; cbn [timers inflight promises]; [apply Forall_filter_keep, T | exact I].
  - cbn [promises]. apply Forall_filter_keep, T.
  - rewrite L. reflexivity.
Qed.

Lemma promises_reply (i : nat) (r : HttpReply) (w : World) :
  well_formed w -> List.length (promises (reply i r w)) = List.length (promises w).
Proof.
  intros [_ I]. destruct (nth_error (inflight w) i) as [f|] eqn:E;
    [|unfold reply; rewrite E; reflexivity].
  destruct (old_inflight_nth _ _ i f I E) as [_ Kf].
  destruct (reply_old i r w f E Kf) as (s & ->). cbn [promises]. apply settle_length.
Qed.

Lemma accounted_run (config : EnvConfig) (delayMs : nat) (es : list event) :
  forall (texts : list jsstring) (w : World),
    well_formed w -> accounted config texts w ->
    List.length (promises w) = List.length texts ->
    accounted config (texts ++ called es) (run_events config delayMs es w)
    /\ List.length (promises (run_events config delayMs es w))
       = List.length (texts ++ called es).
Proof.
  unfold run_events.
  induction es as [|e es IH]; intros texts w W A P; cbn [fold_left called].
  - rewrite app_nil_r. auto.
  - destruct e as [mealText | ms | i r]; cbn [step].
    + replace (texts ++ mealText :: called es)
        with ((texts ++ [mealText]) ++ called es)
        by (rewrite <- app_assoc; reflexivity).
      apply IH.
      * apply well_formed_call, W.
      * apply accounted_call, A.
      * unfold call. cbn [promises]. rewrite !length_app. cbn [List.length]. lia.
    + assert (G : well_formed (Nat.iter ms (tick config) w)
                  /\ accounted config texts (Nat.iter ms (tick config) w)
                  /\ List.length (promises (Nat.iter ms (tick config) w))
                     = List.length texts).
      { induction ms as [|ms (W1 & A1 & P1)]; [auto|]. rewrite Nat.iter_succ.
        split; [apply well_formed_tick, W1|].
        split; [apply accounted_tick, A1|].
        rewrite promises_tick; assumption. }
      destruct G as (W1 & A1 & P1). apply IH; assumption.
    + apply IH.
      * apply well_formed_reply, W.
      * apply accounted_reply; assumption.
      * rewrite promises_reply; assumption.
Qed.

(** X12. Over any history of a debounced analyzer, every request that was
    sent carries the meal text of one of the calls made, and that text is not
    blank; the requests sent and the timers still armed together never
    outnumber the calls; and every call was handed exactly one promise. *)
Theorem X12_requests_accounted_for (config : EnvConfig) (delayMs : nat)
        (es : list event) :
  let w := run_events config delayMs es init in
  Forall (request_of config (called es)) (dispatched w)
  /\ List.length (dispatched w) + List.length (timers w) <= List.length (called es)
  /\ List.length (promises w) = List.length (called es).
Proof.
  intros w.
  destruct (accounted_run config delayMs es [] init) as [(T & D & C) P].
  - apply well_formed_init.
  - repeat split; cbn; [constructor | constructor | lia].
  - reflexivity.
  - cbn [app] in *. fold w in T, D, C, P. auto.
Qed.

(** *** Waiting, step by step *)

Lemma ticks_idle (config : EnvConfig) (ms : nat) (w : World) :
  Forall (fun x => now w + ms < deadline x) (timers w) ->
  Nat.iter ms (tick config) w = advance ms w.
Proof.
  induction ms as [|ms IH]; intros F.
  - destruct w. unfold advance. cbn. f_equal. lia.
  - rewrite Nat.iter_succ, IH.
    + rewrite tick_idle.
      * unfold advance. cbn. f_equal. lia.
      * cbn [advance now timers]. eapply Forall_impl; [|exact F].
        intros x Hx. cbn beta in *. lia.
    + eapply Forall_impl; [|exact F]. intros x Hx. cbn beta in *. lia.
Qed.

Lemma wait_fire (config : EnvConfig) (ms : nat) (w : World) (t : Timer) :
  timers w = [t] -> 0 < ms -> deadline t <= now w + ms ->
  Nat.iter ms (tick config) w
  = drive (timer_promise t) (analyzeNutrition config (timer_text t)) (fired ms w).
Proof.
  intros T. induction ms as [|ms IH]; intros Pos Due; [lia|].
  rewrite Nat.iter_succ.
  destruct (Nat.le_gt_cases (deadline t) (now w + ms)) as [Before | Early].
  - destruct ms as [|m].
    + change (Nat.iter 0 (tick config) w) with w.
      rewrite (tick_fire config w t T) by lia.
      f_equal. unfold fired. f_equal. lia.
    + rewrite IH by lia.
      rewrite tick_idle.
      * destruct (analyzeNutrition config (timer_text t));
          unfold fired; cbn; f_equal; lia.
      * destruct (drive_keeps (timer_promise t)
                    (analyzeNutrition config (timer_text t)) (fired (S m) w))
          as (-> & _ & _).
        constructor.
  - rewrite ticks_idle by (rewrite T; constructor; [lia | constructor]).
    rewrite (tick_fire config (advance ms w) t T) by (cbn [advance now]; lia).
    f_equal. unfold fired, advance. cbn. f_equal. lia.
Qed.

(** The calls of a burst within the window, one by one: each replaces the
    armed timer by its own and touches neither the requests in flight nor
    those sent. *)
Lemma burst_explicit (config : EnvConfig) (delayMs : nat) (rest : list (nat * jsstring)) :
  within_window delayMs rest ->
  forall (w : World) (t : Timer),
    timers w = [t] -> timeoutId w = Some (timer_id t) ->
    deadline t = now w + delayMs ->
    S (timer_promise t) = List.length (promises w) ->
    nth_error (promises w) (timer_promise t) = Some Pending ->
    let w' := run_events config delayMs (burst_events rest) w in
    exists t',
      timers w' = [t'] /\ timeoutId w' = Some (timer_id t')
      /\ deadline t' = now w' + delayMs
      /\ timer_text t' = last (map snd rest) (timer_text t)
      /\ timer_promise t' = timer_promise t + List.length rest
      /\ nth_error (promises w') (timer_promise t') = Some Pending
      /\ inflight w' = inflight w /\ dispatched w' = dispatched w.
Proof.
  induction 1 as [|[gap text] rest G W IH]; intros w t T I D L P.
  - exists t. cbn. rewrite Nat.add_0_r. auto 10.
  - cbn [fst] in G. cbn [burst_events]. unfold run_events. cbn [fold_left step].
    rewrite ticks_idle by (rewrite T; constructor; [lia | constructor]).
    set (w1 := call delayMs text (advance gap w)).
    set (t1 := {| timer_id := S (timers_made w); deadline := now w + gap + delayMs;
                  timer_text := text; timer_promise := List.length (promises w) |}).
    assert (T1 : timers w1 = [t1]).
    { unfold w1, call. cbn [advance timers timeoutId timers_made now promises].
      rewrite I, T. cbn [clearTimeout filter]. rewrite Nat.eqb_refl. reflexivity. }
    assert (P1 : nth_error (promises w1) (timer_promise t1) = Some Pending).
    { unfold w1, call, t1. cbn [advance promises timer_promise].
      rewrite nth_error_app2 by lia. rewrite Nat.sub_diag. reflexivity. }
    destruct (IH w1 t1 T1) as (t' & A1 & A2 & A3 & A4 & A5 & A6 & A7 & A8).
    + reflexivity.
    + reflexivity.
    + unfold w1, call, t1. cbn [advance promises timer_promise].
      rewrite length_app. cbn [List.length]. lia.
    + exact P1.
    + exists t'. unfold run_events in *. cbn zeta in *.
      repeat split; try assumption.
      * rewrite A4. cbn [map snd timer_text]. rewrite last_cons. reflexivity.
      * rewrite A5. unfold t1. cbn [timer_promise List.length]. lia.
Qed.

Lemma first_call_explicit (delayMs : nat) (text : jsstring) (w0 : World) :
  timers w0 = [] ->
  timers (call delayMs text w0)
  = [{| timer_id := S (timers_made w0); deadline := now w0 + delayMs;
        timer_text := text; timer_promise := List.length (promises w0) |}].
Proof.
  intros T. unfold call. cbn [timers]. rewrite T.
  destruct (timeoutId w0); reflexivity.
Qed.

Lemma direct_outcome_blank (config : EnvConfig) (text : jsstring) (r : HttpReply) :
  blank text = true -> direct_outcome config text r = Rejected empty_input.
Proof.
  intros B. unfold direct_outcome. rewrite (analyzeNutrition_blank config text B).
  reflexivity.
Qed.

Lemma direct_outcome_post (config : EnvConfig) (text : jsstring) (r : HttpReply)
      (req : Request) (k : HttpReply -> Prog AIAnalysisResult) :
  analyzeNutrition config text = Post req k ->
  (forall a, k r = Ret a -> direct_outcome config text r = Resolved a)
  /\ (forall t, k r = Throw t -> direct_outcome config text r = Rejected t).
Proof.
  intros E. unfold direct_outcome. rewrite E, exec_prog_post. cbn [snd].
  split; intros x ->; reflexivity.
Qed.

(** The reply to a request in flight settles the promise waiting for it with
    what the direct call comes to. *)
Lemma reply_settles (config : EnvConfig) (text : jsstring) (r : HttpReply)
      (k : HttpReply -> Prog AIAnalysisResult) (i p : nat) (w : World) :
  analyzeNutrition config text = Post (request_for config text) k ->
  nth_error (inflight w) i
  = Some {| sent := request_for config text; waiter := p; resume := k |} ->
  nth_error (promises w) p = Some Pending ->
  promise (reply i r w) p = Some (Done (direct_outcome config text r))
  /\ (forall q, q <> p -> promise (reply i r w) q = promise w q).
Proof.
  intros E F P. unfold reply, promise. rewrite F. cbn [waiter resume].
  destruct (direct_outcome_post config text r _ k E) as [Da Dt].
  pose proof (analyzeNutrition_post_final config text _ k E r) as [(a & Ka) | (t & Kt)].
  - rewrite Ka, (Da a Ka). cbn [drive promises]. split.
    + apply settle_pending, P.
    + intros q N. apply settle_other, N.
  - rewrite Kt, (Dt t Kt). cbn [drive promises]. split.
    + apply settle_pending, P.
    + intros q N. apply settle_other, N.
Qed.

(** X13. The debounced analyzer hands the caller of the last call of a burst
    exactly what a direct call of [analyzeNutrition] with the same meal text
    comes to: take an instance after any history, with no timer armed, a
    burst of calls within the window, a wait of at least the delay, and then
    the reply to the request of the burst.  The promise of the last call is
    settled with the outcome of the direct call for that reply; for a blank
    meal text that is the rejection at the input guard. *)
Theorem X13_debounced_outcome_is_direct_outcome (config : EnvConfig) (delayMs : nat)
        (history : list event) (first : jsstring) (rest : list (nat * jsstring))
        (d : nat) (r : HttpReply) :
  let w0 := run_events config delayMs history init in
  let i := List.length (inflight w0) in
  let w := run_events config delayMs
             (burst first rest ++ [Wait d; Reply i r]) w0 in
  timers w0 = [] ->
  within_window delayMs rest ->
  delayMs <= d -> 0 < d ->
  promise w (List.length (promises w0) + List.length rest)
  = Some (Done (direct_outcome config (last_text first rest) r)).
Proof.
  intros w0 i w T0 W Ld Pd.
  set (t0 := {| timer_id := S (timers_made w0); deadline := now w0 + delayMs;
                timer_text := first; timer_promise := List.length (promises w0) |}).
  destruct (burst_explicit config delayMs rest W (call delayMs first w0) t0)
    as (t & T & _ & D & Tx & Tp & P & I & _).
  - apply first_call_explicit, T0.
  - reflexivity.
  - reflexivity.
  - unfold call. cbn [promises t0 timer_promise]. rewrite length_app. cbn. lia.
  - unfold call. cbn [promises t0 timer_promise].
    rewrite nth_error_app2 by lia. rewrite Nat.sub_diag. reflexivity.
  - cbn zeta in *.
    set (w1 := run_events config delayMs (burst_events rest) (call delayMs first w0)) in *.
    assert (E : w = reply i r (Nat.iter d (tick config) w1)).
    { unfold w, w1, run_events, burst. rewrite fold_left_app. reflexivity. }
    rewrite E. clear E.
    rewrite (wait_fire config d w1 t T Pd) by lia.
    cbn [t0 timer_text timer_promise] in Tx, Tp. cbn [call inflight] in I.
    fold (last_text first rest) in Tx. rewrite Tx, Tp in *.
    destruct (blank (last_text first rest)) eqn:B.
    + rewrite (direct_outcome_blank config _ r B).
      rewrite (analyzeNutrition_blank config _ B).
      unfold reply, promise. cbn [drive fired inflight].
      replace (nth_error (inflight w1) i) with (@None Inflight)
        by (symmetry; apply nth_error_None; rewrite I; unfold i; lia).
      cbn [promises]. apply settle_pending, P.
    + destruct (analyzeNutrition_final config _ B) as (k & K & _).
      rewrite K.
      apply (reply_settles config (last_text first rest) r k); [exact K | | exact P].
      cbn [drive fired inflight]. rewrite I.
      rewrite nth_error_app2 by (unfold i; lia).
      unfold i. rewrite Nat.sub_diag. reflexivity.
Qed.

Lemma X13_debounced_outcome_is_direct_outcome_witness :
  let r := Response (completion example_json None) in
  let w := run_events (config None None) 800
             (burst (js "a") [(50, js "ap"); (50, js "apple")] ++ [Wait 800; Reply 0 r])
             init in
  promise w 2 = Some (Done (direct_outcome (config None None) (js "apple") r)).
Proof.
  intros r w.
  apply (X13_debounced_outcome_is_direct_outcome (config None None) 800 []
           (js "a") [(50, js "ap"); (50, js "apple")] 800 r).
  - reflexivity.
  - repeat constructor; cbn [fst]; lia.
  - lia.
  - lia.
Defined.

(** X14. A call that is superseded only after its request went out is still
    answered.  After any history with no timer armed: a call with a meal text
    that is not blank, a wait of at least the delay, a second call, and then
    the reply to the first request.  The second call aborts the controller
    made for the first, but the first call's promise is settled with what the
    direct call comes to for that reply, the second call's promise is still
    pending, and only the first request has been sent. *)
Theorem X14_stale_reply_still_delivered (config : EnvConfig) (delayMs : nat)
        (history : list event) (text1 text2 : jsstring) (d : nat) (r : HttpReply) :
  let w0 := run_events config delayMs history init in
  let i := List.length (inflight w0) in
  let n0 := List.length (promises w0) in
  let w := run_events config delayMs
             [Call text1; Wait d; Call text2; Reply i r] w0 in
  timers w0 = [] ->
  blank text1 = false ->
  delayMs <= d -> 0 < d ->
  promise w n0 = Some (Done (direct_outcome config text1 r))
  /\ promise w (S n0) = Some Pending
  /\ dispatched w = dispatched w0 ++ [request_for config text1]
  /\ aborted w = S (controllers_made w0) :: aborted (call delayMs text1 w0).
Proof.
  intros w0 i n0 w T0 B Ld Pd.
  destruct (analyzeNutrition_final config text1 B) as (k & K & _).
  assert (E : w = reply i r
                    (call delayMs text2
                       (Nat.iter d (tick config) (call delayMs text1 w0))))
    by reflexivity.
  rewrite E. clear E.
  rewrite (wait_fire config d (call delayMs text1 w0) _
             (first_call_explicit delayMs text1 w0 T0) Pd)
    by (cbn [deadline call now]; lia).
  cbn [timer_promise timer_text]. rewrite K.
  set (w2 := call delayMs text2 _).
  assert (F : nth_error (inflight w2) i
              = Some {| sent := request_for config text1; waiter := n0; resume := k |}).
  { unfold w2. cbn [call drive fired inflight].
    rewrite nth_error_app2 by (unfold i; lia).
    unfold i. rewrite Nat.sub_diag. reflexivity. }
  assert (P : nth_error (promises w2) n0 = Some Pending).
  { unfold w2. cbn [call drive fired promises].
    rewrite nth_error_app1 by (rewrite length_app; cbn; unfold n0; lia).
    rewrite nth_error_app2 by (unfold n0; lia).
    unfold n0. rewrite Nat.sub_diag. reflexivity. }
  destruct (reply_settles config text1 r k i n0 w2 K F P) as [R1 R2].
  split; [exact R1|]. split.
  - rewrite R2 by lia. unfold promise, w2. cbn [call drive fired promises].
    rewrite nth_error_app2 by (rewrite length_app; cbn; unfold n0; lia).
    rewrite length_app. cbn [List.length].
    replace (S n0 - (List.length (promises w0) + 1)) with 0 by (unfold n0; lia).
    reflexivity.
  - pose proof (analyzeNutrition_post_final config text1 _ k K) as Kf.
    destruct (reply_old i r w2 _ F Kf) as (s & ->).
    cbn [dispatched aborted]. unfold w2.
    cbn [call drive fired dispatched aborted currentController]. auto.
Qed.

Lemma X14_stale_reply_still_delivered_witness :
  let r := Response (completion example_json None) in
  let w := run_events (config None None) 800
             [Call (js "apple"); Wait 800; Call (js "banana"); Reply 0 r] init in
  promise w 0 = Some (Done (direct_outcome (config None None) (js "apple") r))
  /\ promise w 1 = Some Pending
  /\ dispatched w = [request_for (config None None) (js "apple")]
  /\ aborted w = [1].
Proof.
  intros r w.
  apply (X14_stale_reply_still_delivered (config None None) 800 []
           (js "apple") (js "banana") 800 r).
  - reflexivity.
  - reflexivity.
  - lia.
  - lia.
Defined.

(** ** More on the fallback and on the outcome of a call *)

Lemma starts_sound (r : regex) (m : jsstring) :
  matches r m ->
  (nullable r = false -> m <> [])
  /\ forall c q, m = c :: q -> starts r c = true.
Proof.
  induction 1 as [|k c T|a b x y Ma [Na Fa] Mb [Nb Fb]|a b x Ma [Na Fa]|a b x Mb [Nb Fb]
                  |a x Ma [Na Fa]|a|k x F|a x Ma [Na Fa]];
    cbn [nullable starts].
  - split; [discriminate|]. intros c q E. discriminate.
  - split; [discriminate|]. intros c' q E. inversion E; subst. exact T.
  - split.
    + intros N E. apply app_eq_nil in E as [Ex Ey].
      apply andb_false_iff in N as [N|N]; [apply (Na N Ex) | apply (Nb N Ey)].
    + intros c q E. destruct x as [|cx x]; cbn [app] in E.
      * destruct (nullable a) eqn:N.
        -- rewrite (Fb c q E). cbn. apply orb_true_r.
        -- exfalso. apply (Na eq_refl eq_refl).
      * inversion E; subst. rewrite (Fa c x eq_refl). reflexivity.
  - split.
    + intros N. apply orb_false_iff in N as [N _]. apply Na, N.
    + intros c q E. rewrite (Fa c q E). reflexivity.
  - split.
    + intros N. apply orb_false_iff in N as [_ N]. apply Nb, N.
    + intros c q E. rewrite (Fb c q E). apply orb_true_r.
  - split; [discriminate | exact Fa].
  - split; [discriminate|]. intros c q E. discriminate.
  - split; [discriminate|]. intros c q E. subst x. cbn [forallb] in F.
    apply andb_true_iff in F as [T _]. exact T.
  - split; [exact Na | exact Fa].
Qed.

(** The figure the calorie pattern captures when no match starts before a
    digit run that the unit follows. *)
Lemma figure_after (pre d u post : jsstring) :
  (forall p c q, pre = p ++ c :: q ->
                 match_here calorie_re (c :: q ++ d ++ u ++ post) = None) ->
  d <> [] -> forallb is_digit d = true -> matches calorie_unit u ->
  exec calorie_re (pre ++ d ++ u ++ post) = Some (Some d).
Proof.
  intros L Nd Dd Mu. induction pre as [|x pre IH].
  - cbn [app].
    assert (Mc : matches calorie_re (d ++ u)).
    { unfold calorie_re. apply matches_seq; [|exact Mu].
      destruct d as [|c d]; [congruence|]. apply matches_digits1, Dd. }
    pose proof (match_here_complete calorie_re (d ++ u) post Mc) as C.
    rewrite <- app_assoc in C.
    destruct (match_here calorie_re (d ++ u ++ post)) as [g|] eqn:M; [|congruence].
    destruct (match_here_capture calorie_unit _ g groupless_calorie_unit M)
      as (d' & m' & post' & -> & E & Nd' & Dd' & Mu').
    assert (H : forall m t, matches calorie_unit m -> no_digit_head (m ++ t)).
    { intros m t Mm. destruct (first_char calorie_unit m Mm) as [Ne Hd].
      specialize (Ne eq_refl). specialize (Hd eq_refl).
      intros c q Eq. destruct m as [|cm m]; [congruence|].
      cbn [app] in Eq. inversion Eq; subst. apply (Hd c m eq_refl). }
    destruct (first_run_unique [] d (u ++ post) [] d' (m' ++ post')) as [_ ->];
      try assumption; try reflexivity; try (apply H; assumption); try exact E.
    destruct d as [|c d]; [congruence|]. cbn [app exec] in *. rewrite M. reflexivity.
  - cbn [app exec]. rewrite (L [] x pre eq_refl).
    apply IH. intros p c q E. apply (L (x :: p) c q). rewrite E. reflexivity.
Qed.

Lemma digit_in_tail (pre t p q : jsstring) (c : N) :
  digit_free pre = true -> pre ++ t = p ++ c :: q -> is_digit c = true ->
  exists p2, t = p2 ++ c :: q.
Proof.
  revert p. induction pre as [|x pre IH]; intros p F E D.
  - exists p. exact E.
  - cbn [digit_free forallb] in F. apply andb_true_iff in F as [Fx F].
    destruct p as [|y p]; cbn [app] in E; inversion E; subst.
    + rewrite D in Fx. discriminate.
    + apply (IH p F H1 D).
Qed.

Lemma digit_before_last (run p q : jsstring) (sep c : N) :
  run ++ [sep] = p ++ c :: q -> is_digit c = true -> is_digit sep = false ->
  forallb is_digit run = true ->
  exists run2, c :: q = run2 ++ [sep] /\ run2 <> [] /\ forallb is_digit run2 = true.
Proof.
  revert run. induction p as [|y p IH]; intros run E D S F.
  - cbn [app] in E. destruct run as [|x run]; cbn [app] in E.
    + inversion E; subst. congruence.
    + exists (x :: run). rewrite <- E. repeat split; [discriminate | exact F].
  - destruct run as [|x run]; cbn [app] in E.
    + inversion E as [[E1 E2]]. destruct p; discriminate.
    + inversion E; subst. cbn [forallb] in F. apply andb_true_iff in F as [_ F].
      apply (IH run H1 D S F).
Qed.

(** X15. A figure written with a decimal point or a thousands comma is
    misread by the fallback: when the first digits of the text are an
    integer part, a point or a comma, and a digit run followed by optional
    white space and cal, kcal or calories in any case, the calories returned
    are the number [parseInt] makes of the digits after the separator alone
    (their value when that is below 2^53). *)
Theorem X15_decimal_figure_misread (pre int frac sp w0 w post : jsstring) (sep : N) :
  digit_free pre = true ->
  forallb is_digit int = true ->
  sep = ch "." \/ sep = ch "," ->
  frac <> [] -> forallb is_digit frac = true ->
  forallb is_space sp = true ->
  In w0 calorie_words -> same_word w0 w ->
  exists r,
    extractNutritionFromText (pre ++ int ++ sep :: frac ++ sp ++ w ++ post) = Ret r
    /\ run_number frac (calories r).
Proof.
  intros Fp Di Sep Nf Df Ssp I W.
  pose proof (matches_calorie_unit sp w0 w Ssp I W) as Mu.
  assert (Ss : is_digit sep = false /\ starts calorie_unit sep = false)
    by (destruct Sep as [-> | ->]; split; reflexivity).
  destruct Ss as [Sd Su].
  set (rest := frac ++ (sp ++ w) ++ post).
  assert (Et : pre ++ int ++ sep :: frac ++ sp ++ w ++ post
               = (pre ++ int ++ [sep]) ++ rest).
  { unfold rest. repeat rewrite <- app_assoc. reflexivity. }
  assert (X : exec calorie_re ((pre ++ int ++ [sep]) ++ rest) = Some (Some frac)).
  { apply figure_after; try assumption.
    intros p c q E. change (match_here calorie_re (c :: q ++ rest) = None).
    destruct (match_here calorie_re (c :: q ++ rest)) as [g|] eqn:M; [|reflexivity].
    exfalso.
    destruct (match_here_capture calorie_unit _ g groupless_calorie_unit M)
      as (d' & m' & post' & _ & E' & Nd' & Dd' & Mu').
    destruct (first_char calorie_unit m' Mu') as [Ne Hd].
    specialize (Ne eq_refl). specialize (Hd eq_refl).
    destruct (starts_sound calorie_unit m' Mu') as [_ St].
    assert (Dc : is_digit c = true).
    { destruct d' as [|c' d']; [congruence|]. cbn [app] in E'. inversion E'; subst.
      cbn [forallb] in Dd'. apply andb_true_iff in Dd' as [Dc _]. exact Dc. }
    destruct (digit_in_tail pre (int ++ [sep]) p q c Fp E Dc) as (p2 & E2).
    destruct (digit_before_last int p2 q sep c E2 Dc Sd Di) as (run2 & E3 & N2 & D2).
    change (c :: q ++ rest) with ((c :: q) ++ rest) in E'.
    rewrite E3, <- app_assoc in E'. cbn [app] in E'.
    destruct m' as [|cm m']; [congruence|].
    assert (U : [] = @nil N /\ d' = run2).
    { apply (first_run_unique [] run2 (sep :: rest) [] d' ((cm :: m') ++ post'));
        try assumption; try reflexivity.
      - intros c0 q0 E0. inversion E0; subst. exact Sd.
      - intros c0 q0 E0. cbn [app] in E0. inversion E0; subst.
        apply (Hd c0 m' eq_refl). }
    destruct U as [_ ->].
    apply app_inv_head in E'. cbn [app] in E'. inversion E'; subst.
    rewrite (St cm m' eq_refl) in Su. discriminate. }
  rewrite Et. unfold extractNutritionFromText. rewrite X.
  eexists. split; [reflexivity|]. cbn [calories].
  apply figure_number; assumption.
Qed.

Lemma X15_decimal_figure_misread_witness :
  exists r,
    extractNutritionFromText
      (js "Roughly " ++ js "12" ++ ch "." :: js "5" ++ js " " ++ js "kcal" ++ js " per bite")
    = Ret r
    /\ run_number (js "5") (calories r).
Proof.
  apply (X15_decimal_figure_misread (js "Roughly ") (js "12") (js "5") (js " ")
           (js "kcal") (js "kcal") (js " per bite") (ch ".")).
  - reflexivity.
  - reflexivity.
  - left. reflexivity.
  - discriminate.
  - reflexivity.
  - reflexivity.
  - right. left. reflexivity.
  - reflexivity.
Defined.

(** *** A text without a digit *)

Lemma digit_free_cons (c : N) (s : jsstring) :
  digit_free (c :: s) = true -> is_digit c = false /\ digit_free s = true.
Proof.
  unfold digit_free. cbn [forallb]. intros H. apply andb_true_iff in H as [Hc Hs].
  split; [destruct (is_digit c); [discriminate | reflexivity] | exact Hs].
Qed.

Lemma skip_ws_free (s : jsstring) :
  digit_free s = true -> digit_free (skip_ws s) = true.
Proof.
  induction s as [|c s IH]; intros F; cbn [skip_ws]; [reflexivity|].
  destruct (is_ws c); [|exact F]. apply IH. apply (digit_free_cons c s F).
Qed.

Lemma skip_ws_free_cons (s r : jsstring) (c : N) :
  digit_free s = true -> skip_ws s = c :: r -> digit_free r = true.
Proof.
  intros F E. apply skip_ws_free in F. rewrite E in F. apply (digit_free_cons c r F).
Qed.

Lemma string_body_free (n : nat) :
  forall s acc str r,
    List.length s <= n -> digit_free s = true ->
    string_body s acc = Some (str, r) -> digit_free r = true.
Proof.
  induction n as [|n IH]; intros s acc str r L F H.
  - destruct s; [discriminate | cbn [List.length] in L; lia].
  - destruct s as [|c s]; [discriminate|]. cbn [string_body] in H.
    cbn [List.length] in L. apply digit_free_cons in F as [_ F].
    destruct (c =? 34)%N; [inversion H; subst; exact F|].
    destruct (c =? 92)%N.
    + destruct s as [|e s]; [discriminate|]. cbn [List.length] in L.
      apply digit_free_cons in F as [_ F].
      repeat match type of H with
             | (if ?b then _ else _) = _ =>
                 destruct b; [try (apply IH in H; [exact H | lia | exact F])|]
             end; try discriminate.
      destruct s as [|h1 [|h2 [|h3 [|h4 s]]]]; try discriminate.
      destruct (hex4 h1 h2 h3 h4); [|discriminate].
      cbn [List.length] in L.
      apply digit_free_cons in F as [_ F]. apply digit_free_cons in F as [_ F].
      apply digit_free_cons in F as [_ F]. apply digit_free_cons in F as [_ F].
      apply IH in H; [exact H | lia | exact F].
    + destruct (c <? 32)%N; [discriminate|]. apply IH in H; [exact H | lia | exact F].
Qed.

Lemma strip_prefix_free (w s r : jsstring) :
  digit_free s = true -> strip_prefix w s = Some r -> digit_free r = true.
Proof.
  revert s. induction w as [|x w IH]; intros s F H; cbn [strip_prefix] in H.
  - destruct s; inversion H; subst; exact F.
  - destruct s as [|y s]; [discriminate|].
    destruct (x =? y)%N; [|discriminate].
    apply (IH s); [apply (digit_free_cons y s F) | exact H].
Qed.

Lemma span_digits_free (s : jsstring) :
  digit_free s = true -> span_digits s = ([], s).
Proof.
  destruct s as [|c s]; intros F; [reflexivity|].
  cbn [span_digits]. destruct (digit_free_cons c s F) as [-> _]. reflexivity.
Qed.

Lemma number_token_free (s : jsstring) :
  digit_free s = true -> number_token s = None.
Proof.
  intros F. unfold number_token.
  assert (I : forall t, digit_free t = true -> int_part t = None).
  { intros t Ft. unfold int_part. rewrite (span_digits_free t Ft). reflexivity. }
  destruct s as [|c s]; cbn [opt_minus].
  - rewrite (I [] eq_refl). reflexivity.
  - destruct (c =? 45)%N.
    + rewrite (I s (proj2 (digit_free_cons c s F))). reflexivity.
    + rewrite (I (c :: s) F). reflexivity.
Qed.

Lemma numberless_member (v : value) : numberless v -> is_number v = None.
Proof. destruct v; cbn; intros H; [reflexivity .. | contradiction | | | ]; reflexivity. Qed.

(** Parsing a text without a digit yields no number. *)
Lemma parse_free (fuel : nat) :
  (forall s v r,
      digit_free s = true -> parse_value fuel s = Ok (v, r) ->
      digit_free r = true /\ numberless v)
  /\ (forall s acc v r,
        digit_free s = true -> parse_elements fuel s acc = Ok (v, r) ->
        digit_free r = true /\ numberless v)
  /\ (forall s acc v r,
        digit_free s = true ->
        Forall (fun m => is_number (snd m) = None) acc ->
        parse_members fuel s acc = Ok (v, r) ->
        digit_free r = true /\ numberless v).
Proof.
  induction fuel as [|f (IHv & IHe & IHm)].
  - repeat split; intros; cbn in *; discriminate.
  - split; [|split].
    + intros s v r' F H. cbn [parse_value] in H.
      destruct (skip_ws s) as [|c r] eqn:S; [discriminate|].
      pose proof (skip_ws_free s F) as Fc. rewrite S in Fc.
      pose proof (skip_ws_free_cons s r c F S) as Fr.
      destruct (c =? ch "{")%N.
      { destruct (skip_ws r) as [|c1 r1] eqn:S1; [discriminate|].
        destruct (c1 =? ch "}")%N.
        - inversion H; subst. split; [|constructor].
          apply (skip_ws_free_cons r r' c1 Fr S1).
        - apply (IHm r [] v r' Fr (Forall_nil _) H). }
      destruct (c =? ch "[")%N.
      { destruct (skip_ws r) as [|c1 r1] eqn:S1; [discriminate|].
        destruct (c1 =? ch "]")%N.
        - inversion H; subst. split; [|exact I].
          apply (skip_ws_free_cons r r' c1 Fr S1).
        - apply (IHe r [] v r' Fr H). }
      destruct (c =? 34)%N.
      { destruct (string_body r []) as [[str r1]|] eqn:B; [|discriminate].
        inversion H; subst. split; [|exact I].
        apply (string_body_free (List.length r) r [] str r' (le_n _) Fr B). }
      destruct (strip_prefix (js "true") (c :: r)) as [r1|] eqn:P1.
      { inversion H; subst. split; [|exact I].
        apply (strip_prefix_free _ _ _ Fc P1). }
      destruct (strip_prefix (js "false") (c :: r)) as [r1|] eqn:P2.
      { inversion H; subst. split; [|exact I].
        apply (strip_prefix_free _ _ _ Fc P2). }
      destruct (strip_prefix (js "null") (c :: r)) as [r1|] eqn:P3.
      { inversion H; subst. split; [|exact I].
        apply (strip_prefix_free _ _ _ Fc P3). }
      rewrite (number_token_free (c :: r) Fc) in H. discriminate.
    + intros s acc v' r' F H. cbn [parse_elements] in H.
      destruct (parse_value f s) as [[v s1]| |] eqn:V; try discriminate.
      destruct (IHv s v s1 F V) as [F1 _].
      destruct (skip_ws s1) as [|c s2] eqn:S; [discriminate|].
      pose proof (skip_ws_free_cons s1 s2 c F1 S) as F2.
      destruct (c =? ch ",")%N; [apply (IHe s2 (v :: acc) v' r' F2 H)|].
      destruct (c =? ch "]")%N; [|discriminate].
      inversion H; subst. split; [exact F2 | exact I].
    + intros s acc v' r' F A H. cbn [parse_members] in H.
      destruct (skip_ws s) as [|c r] eqn:S; [discriminate|].
      pose proof (skip_ws_free_cons s r c F S) as Fr.
      destruct (c =? 34)%N; [|discriminate].
      destruct (string_body r []) as [[k r1]|] eqn:B; [|discriminate].
      pose proof (string_body_free (List.length r) r [] k r1 (le_n _) Fr B) as F1.
      destruct (skip_ws r1) as [|c1 r2] eqn:S1; [discriminate|].
      pose proof (skip_ws_free_cons r1 r2 c1 F1 S1) as F2.
      destruct (c1 =? ch ":")%N; [|discriminate].
      destruct (parse_value f r2) as [[v s1]| |] eqn:V; try discriminate.
      destruct (IHv r2 v s1 F2 V) as [F3 Nv].
      destruct (skip_ws s1) as [|c2 s2] eqn:S2; [discriminate|].
      pose proof (skip_ws_free_cons s1 s2 c2 F3 S2) as F4.
      assert (A' : Forall (fun m => is_number (snd m) = None) ((k, v) :: acc)).
      { constructor; [apply numberless_member, Nv | exact A]. }
      destruct (c2 =? ch ",")%N; [apply (IHm s2 _ v' r' F4 A' H)|].
      destruct (c2 =? ch "}")%N; [|discriminate].
      injection H as <- <-. split; [exact F4|].
      change (Forall (fun m => is_number (snd m) = None) (rev ((k, v) :: acc))).
      apply Forall_rev. exact A'.
Qed.

Lemma lookup_In (k : jsstring) (o : list (jsstring * value)) (w : value) :
  lookup k o = Some w -> exists k', In (k', w) o.
Proof.
  induction o as [|[k' v] o IH]; cbn [lookup]; [discriminate|].
  destruct (lookup k o) as [w'|].
  - intros H. inversion H; subst. destruct (IH eq_refl) as (k0 & I).
    exists k0. right. exact I.
  - destruct (str_eqb k k'); [|discriminate]. intros H. inversion H; subst.
    exists k'. left. reflexivity.
Qed.

Lemma digit_free_strict (content : jsstring) :
  digit_free content = true -> strict_decoding_fails content.
Proof.
  intros F. unfold strict_decoding_fails.
  destruct (JSON_parse content) as [parsed|] eqn:P; [|left; reflexivity].
  right. exists parsed, (js "calories").
  split; [reflexivity|]. split; [left; reflexivity|].
  unfold JSON_parse in P.
  destruct (parse_value (fuel_for content) content) as [[v r]| |] eqn:V;
    try discriminate.
  destruct (proj1 (parse_free (fuel_for content)) content v r F V) as [_ Nv].
  destruct (skip_ws r); [|discriminate]. inversion P; subst parsed.
  intros q G. destruct v; cbn [get] in G; try discriminate.
  destruct (lookup (js "calories") o) as [w|] eqn:Lk; [|discriminate].
  inversion G; subst w. apply lookup_In in Lk as (k' & I).
  cbn [numberless] in Nv. rewrite Forall_forall in Nv.
  specialize (Nv _ I). discriminate.
Qed.

Lemma digit_free_no_figure (r : regex) (content : jsstring) :
  groupless r -> digit_free content = true -> exec (Seq digits1 r) content = None.
Proof.
  intros G F. destruct (exec (Seq digits1 r) content) as [g|] eqn:E; [|reflexivity].
  exfalso.
  destruct (exec_capture r content g G E) as (pre & d & m & post & _ & -> & Nd & Dd & _).
  unfold digit_free in F. rewrite !forallb_app in F.
  apply andb_true_iff in F as [_ F]. apply andb_true_iff in F as [F _].
  destruct d as [|c d]; [congruence|]. cbn [forallb] in *.
  apply andb_true_iff in Dd as [Dc _]. rewrite Dc in F. discriminate.
Qed.

(** X16. A reply text without any decimal digit never yields a result: the
    strict decoding fails, whatever JSON the text is, the fallback finds no
    figure, and the parser throws PARSE_ERROR. *)
Theorem X16_no_digit_no_result (content : jsstring) :
  digit_free content = true ->
  strict_decoding_fails content
  /\ parseAIResponse content = Throw parse_error.
Proof.
  intros F. pose proof (digit_free_strict content F) as S.
  split; [exact S|].
  unfold parseAIResponse. rewrite (proj2 (decode_none_iff content) S).
  pose proof (digit_free_no_figure calorie_unit content groupless_calorie_unit F) as X.
  change (exec calorie_re content = None) in X.
  unfold extractNutritionFromText. rewrite X. reflexivity.
Qed.

Lemma X16_no_digit_no_result_witness :
  strict_decoding_fails (jsq "{'calories':'unknown','protein':null}")
  /\ parseAIResponse (jsq "{'calories':'unknown','protein':null}") = Throw parse_error.
Proof.
  apply (X16_no_digit_no_result (jsq "{'calories':'unknown','protein':null}")).
  reflexivity.
Defined.

(** X17. A call of [analyzeNutrition] resolves exactly when the meal text
    is not blank, the network answers with a response whose first choice
    carries a non-empty text, and that text either passes the strict decoding
    or mentions a calorie figure somewhere. *)
Theorem X17_resolves_exactly_when (config : EnvConfig) (http : Request -> HttpReply)
        (mealText : jsstring) :
  (exists r, snd (exec_prog http (analyzeNutrition config mealText)) = Resolved r)
  <-> blank mealText = false
      /\ exists data content,
           http (request_for config mealText) = Response data
           /\ first_content data = Some (Some content) /\ content <> []
           /\ (~ strict_decoding_fails content \/ occurs calorie_re content).
Proof.
  assert (P : forall content,
             (exists r, parseAIResponse content = Ret r)
             <-> (~ strict_decoding_fails content \/ occurs calorie_re content)).
  { intros content. unfold parseAIResponse.
    pose proof (decode_none_iff content) as D.
    pose proof (exec_occurs calorie_re content) as O.
    destruct (decode content) as [r0|] eqn:Dc.
    - split; [|intros _; eexists; reflexivity].
      intros _. left. intros S. apply D in S. discriminate.
    - unfold extractNutritionFromText.
      destruct (exec calorie_re content) as [g|] eqn:X.
      + split; [|intros _; eexists; reflexivity].
        intros _. right. apply O. discriminate.
      + split; [intros (r & R); discriminate|].
        intros [S | Oc]; [exfalso; apply S, D; reflexivity|].
        apply O in Oc. congruence. }
  split.
  - intros (r & R). destruct (blank mealText) eqn:B.
    + rewrite (analyzeNutrition_blank config mealText B) in R. discriminate.
    + split; [reflexivity|].
      destruct (analyzeNutrition_shape config mealText B)
        as (k & E & KF & KT & KE & KP & KR).
      rewrite E, exec_prog_post in R. cbn [snd] in R.
      destruct (http (request_for config mealText)) as [data|t1] eqn:Hr;
        [|rewrite (KF t1) in R; discriminate].
      destruct (first_content data) as [[content|]|] eqn:Fc;
        [|rewrite (KE data (or_introl Fc)) in R; discriminate
         |rewrite (KT data Fc) in R; discriminate].
      destruct content as [|c content];
        [rewrite (KE data (or_intror Fc)) in R; discriminate|].
      exists data, (c :: content).
      split; [reflexivity|]. split; [exact Fc|]. split; [discriminate|].
      apply P. destruct (parseAIResponse (c :: content)) as [r0|t|req k0] eqn:Pc.
      * eexists. reflexivity.
      * rewrite (KP data (c :: content) t Fc ltac:(discriminate) Pc) in R.
        discriminate.
      * exfalso. destruct (parseAIResponse_cases (c :: content))
          as [(r1 & Q & _) | (Q & _)]; rewrite Pc in Q; discriminate.
  - intros (B & data & content & Hr & Fc & Ne & Ok).
    apply P in Ok as (r0 & Pc).
    destruct (analyzeNutrition_shape config mealText B)
      as (k & E & KF & KT & KE & KP & KR).
    destruct (KR data content r0 Fc Ne Pc) as (r' & R & _).
    exists r'. rewrite E, exec_prog_post, Hr, R. reflexivity.
Qed.

(** ** The edit form of the details modal *)

Lemma digits_value_app (l r : jsstring) :
  forall acc : Z,
    forallb is_digit l = true ->
    digits_value acc (l ++ r) = digits_value (digits_value acc l) r.
Proof.
  induction l as [|c l IH]; intros acc D; [reflexivity|].
  cbn [forallb] in D. apply andb_true_iff in D as [Dc D].
  cbn [app digits_value]. rewrite Dc. apply IH, D.
Qed.

Lemma is_digit_small (n : N) : (n < 10)%N -> is_digit (48 + n) = true.
Proof.
  intros L. unfold is_digit. apply andb_true_iff. split; apply N.leb_le; lia.
Qed.

Lemma decimal_value (fuel : nat) :
  forall n : N,
    (n < 10 ^ N.of_nat fuel)%N -> fuel <> 0 ->
    Modal.decimal fuel n <> []
    /\ forallb is_digit (Modal.decimal fuel n) = true
    /\ digits_value 0 (Modal.decimal fuel n) = Z.of_N n.
Proof.
  induction fuel as [|f IH]; intros n L Pos; [congruence|].
  cbn [Modal.decimal]. destruct (n <? 10)%N eqn:Small.
  - apply N.ltb_lt in Small. split; [discriminate|].
    cbn [forallb digits_value]. rewrite (is_digit_small n Small).
    split; [reflexivity|]. unfold digit_val. lia.
  - apply N.ltb_ge in Small.
    assert (Pf : f <> 0) by (intros ->; cbn in L; lia).
    rewrite Nat2N.inj_succ, N.pow_succ_r' in L.
    assert (Lq : (n / 10 < 10 ^ N.of_nat f)%N)
      by (apply N.Div0.div_lt_upper_bound; lia).
    destruct (IH (n / 10)%N Lq Pf) as (Ne & D & V).
    assert (M : (n mod 10 < 10)%N) by (apply N.mod_lt; lia).
    split; [intros E; apply app_eq_nil in E as [_ E]; discriminate|].
    split.
    + rewrite forallb_app, D. cbn [forallb]. rewrite (is_digit_small _ M). reflexivity.
    + rewrite (digits_value_app _ _ 0%Z D), V. cbn [digits_value].
      rewrite (is_digit_small _ M). unfold digit_val.
      pose proof (N.Div0.div_mod n 10) as DM.
      set (q := (n / 10)%N) in *. set (m := (n mod 10)%N) in *.
      clearbody q m. lia.
Qed.

Lemma parseInt_minus (d : jsstring) :
  d <> [] -> forallb is_digit d = true ->
  parseInt (45%N :: d) = number_for (inject_Z (- digits_value 0 d)).
Proof.
  intros N D. destruct d as [|c d]; [congruence|].
  cbn [forallb] in D. apply andb_true_iff in D as [Dc _].
  unfold parseInt. cbn [trim_start]. change (is_space 45) with false. cbn iota.
  change (45 =? 45)%N with true. cbn iota. rewrite Dc. reflexivity.
Qed.

(** What [toString] prints, [parseInt] reads back. *)
Lemma print_parse (x : number) :
  Modal.printed x ->
  exists s, Modal.Number_toString x = Some s /\ parseInt s = x.
Proof.
  intros [-> | (z & B & ->)].
  - exists (js "NaN"). split; reflexivity.
  - unfold Modal.Number_toString. rewrite Qfloor_Z.
    assert (Q : Qeq_bool (inject_Z z) (inject_Z z) = true)
      by (apply Qeq_bool_iff; reflexivity).
    rewrite Q. pose proof B as B'. apply Z.ltb_lt in B'. rewrite B'. cbn [andb].
    eexists. split; [reflexivity|].
    assert (L : (Z.abs_N z < 10 ^ N.of_nat 16)%N).
    { apply N2Z.inj_lt. rewrite N2Z.inj_abs_N.
      replace (Z.of_N (10 ^ N.of_nat 16)) with (10 ^ 16)%Z by reflexivity.
      apply (Z.lt_trans _ (2 ^ 53)); [exact B | reflexivity]. }
    destruct (decimal_value 16 (Z.abs_N z) L ltac:(discriminate)) as (Ne & D & V).
    rewrite N2Z.inj_abs_N in V.
    destruct (z <? 0)%Z eqn:Neg.
    + apply Z.ltb_lt in Neg. cbn [app]. rewrite (parseInt_minus _ Ne D), V.
      replace (- Z.abs z)%Z with z by lia. apply number_for_safe, B.
    + apply Z.ltb_ge in Neg. cbn [app].
      change (parseInt (Modal.decimal 16 (Z.abs_N z)))
        with (parseInt_group (Some (Modal.decimal 16 (Z.abs_N z)))).
      rewrite (proj1 (figure_value _ Ne D)), V.
      replace (Z.abs z) with z by lia. apply number_for_safe, B.
Qed.

Lemma print_parse_opt (o : option number) :
  Modal.printed_opt o ->
  exists s, Modal.Number_toString (Modal.or_zero o) = Some s
            /\ Modal.or_current (parseInt s) o = o.
Proof.
  intros P.
  assert (Z0 : exists s, Modal.Number_toString (Fin 0) = Some s
                         /\ truthy_number (parseInt s) = false).
  { eexists. split; reflexivity. }
  unfold Modal.or_zero, Modal.or_current.
  destruct o as [n|].
  - destruct (truthy_number n) eqn:T.
    + destruct (print_parse n (P n eq_refl)) as (s & E & R).
      exists s. split; [exact E|]. rewrite R, T. reflexivity.
    + destruct Z0 as (s & E & F). exists s. split; [exact E|]. rewrite F. reflexivity.
  - destruct Z0 as (s & E & F). exists s. split; [exact E|]. rewrite F. reflexivity.
Qed.

(** X18. Opening the edit form and saving at once changes nothing: for a
    meal whose figures are integers below 2^53 in absolute value (or NaN, or
    missing), whatever was left in the text inputs, [handleEdit] followed by
    [handleSave] reports to [onUpdate] exactly the figures the meal has,
    closes the modal and leaves the editing mode. *)
Theorem X18_edit_then_save_changes_nothing (meal : Modal.MealEntry) (st : Modal.State) :
  Modal.printed (Modal.calories meal) ->
  Modal.printed_opt (Modal.protein meal) ->
  Modal.printed_opt (Modal.carbs meal) ->
  Modal.printed_opt (Modal.fat meal) ->
  exists st1,
    Modal.handleEdit meal st = Some st1
    /\ Modal.isEditing st1 = true
    /\ snd (Modal.handleSave meal true st1) = [Modal.OnUpdate meal; Modal.OnClose]
    /\ Modal.isEditing (fst (Modal.handleSave meal true st1)) = false.
Proof.
  intros Pc Pp Pb Pf.
  destruct (print_parse _ Pc) as (c & Ec & Rc).
  destruct (print_parse_opt _ Pp) as (p & Ep & Rp).
  destruct (print_parse_opt _ Pb) as (b & Eb & Rb).
  destruct (print_parse_opt _ Pf) as (f & Ef & Rf).
  unfold Modal.handleEdit. rewrite Ec, Ep, Eb, Ef.
  eexists. split; [reflexivity|]. split; [reflexivity|]. split; [|reflexivity].
  unfold Modal.handleSave.
  cbn [snd app Modal.editedCalories Modal.editedProtein Modal.editedCarbs
       Modal.editedFat].
  rewrite Rc, Rp, Rb, Rf.
  destruct meal as [mc mp mb mf]. cbn [Modal.calories Modal.protein Modal.carbs Modal.fat].
  destruct (truthy_number mc); reflexivity.
Qed.

Lemma X18_edit_then_save_changes_nothing_witness :
  let meal := {| Modal.calories := Fin 450; Modal.protein := Some (Fin 0);
                 Modal.carbs := None; Modal.fat := Some (Fin (-3)) |} in
  let st := {| Modal.isEditing := false; Modal.editedCalories := js "999";
               Modal.editedProtein := js "7"; Modal.editedCarbs := [];
               Modal.editedFat := js "x" |} in
  exists st1,
    Modal.handleEdit meal st = Some st1
    /\ Modal.isEditing st1 = true
    /\ snd (Modal.handleSave meal true st1) = [Modal.OnUpdate meal; Modal.OnClose]
    /\ Modal.isEditing (fst (Modal.handleSave meal true st1)) = false.
Proof.
  intros meal st.
  apply (X18_edit_then_save_changes_nothing meal st).
  - right. exists 450%Z. split; [reflexivity | reflexivity].
  - intros n E. inversion E; subst n. right. exists 0%Z. split; reflexivity.
  - intros n E. discriminate.
  - intros n E. inversion E; subst n. right. exists (-3)%Z. split; reflexivity.
Defined.






(** ** What the strict decoding accepts *)

Lemma skip_ws_split (s r : jsstring) (c : N) :
  skip_ws s = c :: r ->
  exists ws, s = ws ++ c :: r /\ forallb is_ws ws = true.
Proof.
  induction s as [|x s IH]; cbn [skip_ws]; [discriminate|].
  destruct (is_ws x) eqn:W.
  - intros H. destruct (IH H) as (ws & -> & F).
    exists (x :: ws). split; [reflexivity|]. cbn [forallb]. rewrite W, F. reflexivity.
  - intros H. inversion H; subst. exists []. split; reflexivity.
Qed.

Lemma parse_elements_array (fuel : nat) :
  forall s acc v r, parse_elements fuel s acc = Ok (v, r) -> exists l, v = VArr l.
Proof.
  induction fuel as [|f IH]; intros s acc v r H; [discriminate|].
  cbn [parse_elements] in H.
  destruct (parse_value f s) as [[v1 s1]| |]; try discriminate.
  destruct (skip_ws s1) as [|c s2]; [discriminate|].
  destruct (c =? ch ",")%N; [apply (IH _ _ _ _ H)|].
  destruct (c =? ch "]")%N; [|discriminate].
  inversion H. eexists. reflexivity.
Qed.

(** X20. The strict decoding accepts only a JSON object: when the [try]
    block of the parser returns a result, the first character of the text
    that is not white space is an opening brace.  A reply that wraps its JSON
    in a code fence, or puts a sentence before it, is therefore always read by
    the regex fallback. *)
Theorem X20_strict_decoding_needs_object (content : jsstring) (r : AIAnalysisResult) :
  decode content = Some r ->
  (exists ws rest, content = ws ++ ch "{" :: rest /\ forallb is_ws ws = true)
  /\ parseAIResponse content = Ret r.
Proof.
  intros D. split; [|unfold parseAIResponse; rewrite D; reflexivity].
  unfold decode in D.
  destruct (JSON_parse content) as [parsed|] eqn:P; [|discriminate].
  assert (O : exists o, parsed = VObj o).
  { destruct parsed; cbn [get] in D; try discriminate; eauto. }
  destruct O as (o & ->). clear D.
  unfold JSON_parse in P.
  destruct (parse_value (fuel_for content) content) as [[v r0]| |] eqn:V;
    try discriminate.
  destruct (skip_ws r0); [|discriminate]. inversion P; subst v. clear P.
  unfold fuel_for in V. rewrite Nat.add_1_r in V. cbn [parse_value] in V.
  destruct (skip_ws content) as [|c s] eqn:S; [discriminate|].
  destruct (skip_ws_split content s c S) as (ws & E & W).
  destruct (c =? ch "{")%N eqn:C.
  { apply N.eqb_eq in C. subst c. exists ws, s. auto. }
  exfalso.
  destruct (c =? ch "[")%N.
  { destruct (skip_ws s) as [|c1 r1]; [discriminate|].
    destruct (c1 =? ch "]")%N; [discriminate|].
    apply parse_elements_array in V as (l & V). discriminate. }
  destruct (c =? 34)%N.
  { destruct (string_body s []) as [[str r1]|]; discriminate. }
  destruct (strip_prefix (js "true") (c :: s)); [discriminate|].
  destruct (strip_prefix (js "false") (c :: s)); [discriminate|].
  destruct (strip_prefix (js "null") (c :: s)); [discriminate|].
  destruct (number_token (c :: s)) as [[q r1]|]; discriminate.
Qed.

Lemma X20_strict_decoding_needs_object_witness :
  (exists ws rest, example_json = ws ++ ch "{" :: rest /\ forallb is_ws ws = true)
  /\ parseAIResponse example_json
     = Ret {| calories := Fin 453; protein := Fin 23; carbs := Fin 33; fat := Fin 25;
              explanation := VStr (js "No explanation provided");
              confidence := VNum (number_for 0.9);
              sources := VArr [VStr (js "USDA")] |}.
Proof.
  apply (X20_strict_decoding_needs_object example_json).
  reflexivity.
Defined.

(** ** The macros of the fallback *)

Lemma macro_reading_exec (name : string) (default : Q) (text : jsstring) :
  figure_pattern (macro_unit name) ->
  macro_reading name default text
    (match exec (macro_re name) text with
     | Some m => parseInt_group m
     | None => Fin default
     end).
Proof.
  intros F. pose proof (exec_occurs (macro_re name) text) as O.
  destruct (exec (macro_re name) text) as [g|] eqn:E.
  - right.
    destruct (exec_figure (macro_unit name) text g F E)
      as (pre & d & m & post & -> & Et & Nd & Dd & Mu & Lp & Nm & Hm & L).
    exists pre, d, m, post.
    split; [exact Et|]. split; [exact Nd|]. split; [exact Dd|].
    split; [exact Lp|]. split; [exact Hm|]. split; [exact Mu|].
    split; [apply figure_number; assumption|].
    intros p c q m' post' Ep Em M.
    apply (match_here_complete (macro_re name) m' post' M).
    rewrite <- Em. apply (L p c q Ep).
  - left. split; [|reflexivity]. intros Oc. apply O in Oc. congruence.
Qed.

(** X21. How the fallback reads protein, carbs and fat.  Each is the
    default (20, 30, 10) when the pattern of the macro occurs nowhere in the
    text, and otherwise the number [parseInt] makes of a whole digit run of
    the text that is followed by the unit of the macro, at the leftmost
    place where the pattern matches: the value of the run when that is below
    2^53, its binary64 rounding above, Infinity from 2^1024 on.  The digits
    read always stand before the name of the macro, never after it. *)
Theorem X21_fallback_macros (text : jsstring) (r : AIAnalysisResult) :
  extractNutritionFromText text = Ret r ->
  macro_reading "protein" 20 text (protein r)
  /\ macro_reading "carb" 30 text (carbs r)
  /\ macro_reading "fat" 10 text (fat r).
Proof.
  intros H. apply extract_result in H as (g & _ & ->).
  cbn [protein carbs fat]. split; [|split].
  - apply (macro_reading_exec "protein" 20 text figure_pattern_protein).
  - apply (macro_reading_exec "carb" 30 text figure_pattern_carb).
  - apply (macro_reading_exec "fat" 10 text figure_pattern_fat).
Qed.

Lemma X21_fallback_macros_witness :
  macro_reading "protein" 20 example_text (Fin 20)
  /\ macro_reading "carb" 30 example_text (Fin 30)
  /\ macro_reading "fat" 10 example_text (Fin 10).
Proof.
  apply (X21_fallback_macros example_text
           {| calories := Fin 450; protein := Fin 20; carbs := Fin 30; fat := Fin 10;
              explanation := VStr example_text; confidence := VNum (number_for 0.6);
              sources := VArr [] |}).
  reflexivity.
Defined.
